(** * Ontology consolidation engine: a shallow embedding of
      [StrategicOntologyMerger] ("2nd ontology/src/strategic-ontology-merger.py"),
      of its sibling [ImprovedOntologyMerger]
      ("adaptive_hmi_ontology_ontogenia/src/improved_ontology_merger.py")
      and of the in-place [DuplicateMerger] ("1st ontology/src")

    The Python classes keep their working data on the instance
    ([merged_graph], [class_mappings], [property_mappings],
    [inverse_properties], ...) and mutate it from method to method.  The
    embedding threads the instance through a small state-and-exception
    monad.  Graphs are duplicate-free lists of triples in store order;
    literals are plain or language-tagged; Python dictionaries are
    association lists in insertion order; Python strings are strings of
    characters below code point 128, with their case folding and white
    space. *)

From Stdlib Require Import String Ascii.
From stdpp Require Import base decidable option list strings.

Open Scope string_scope.
Open Scope list_scope.

#[global] Set Warnings "-clear-no-such-hyp".

(** ** Python string primitives *)

Module PyStr.

Definition is_upper (c : ascii) : bool :=
  let n := nat_of_ascii c in ((65 <=? n) && (n <=? 90))%nat.

Definition lower_char (c : ascii) : ascii :=
  if is_upper c then ascii_of_nat (nat_of_ascii c + 32) else c.

(** [str.lower()] *)
Fixpoint lower (s : string) : string :=
  match s with
  | EmptyString => EmptyString
  | String c s' => String (lower_char c) (lower s')
  end.

Fixpoint has_upper (s : string) : bool :=
  match s with
  | EmptyString => false
  | String c s' => is_upper c || has_upper s'
  end.

(** [s.startswith(p)] *)
Fixpoint startswith (p s : string) : bool :=
  match p, s with
  | EmptyString, _ => true
  | String a p', String b s' => if decide (a = b) then startswith p' s' else false
  | String _ _, EmptyString => false
  end.

(** [needle in hay] *)
Fixpoint contains (needle hay : string) : bool :=
  startswith needle hay ||
  match hay with
  | EmptyString => false
  | String _ hay' => contains needle hay'
  end.

(** [s.replace(old, new)] for a non-empty [old]: occurrences are found
    left to right and do not overlap; [skip] counts the characters of
    the occurrence just replaced that are still to be dropped. *)
Fixpoint replace_from (old new : string) (skip : nat) (s : string) : string :=
  match s with
  | EmptyString => EmptyString
  | String c s' =>
      match skip with
      | S k => replace_from old new k s'
      | O =>
          if startswith old s
          then new +:+ replace_from old new (String.length old - 1) s'
          else String c (replace_from old new 0 s')
      end
  end.

(** With an empty [old] Python puts [new] before every character and at
    the end. *)
Fixpoint intersperse_all (new s : string) : string :=
  match s with
  | EmptyString => new
  | String c s' => new +:+ String c (intersperse_all new s')
  end.

Definition replace (old new s : string) : string :=
  match old with
  | EmptyString => intersperse_all new s
  | String _ _ => replace_from old new 0 s
  end.

Fixpoint rev_onto (s acc : string) : string :=
  match s with
  | EmptyString => acc
  | String c s' => rev_onto s' (String c acc)
  end.

Definition rev (s : string) : string := rev_onto s EmptyString.

Definition endswith (p s : string) : bool := startswith (rev p) (rev s).

Fixpoint drop (n : nat) (s : string) : string :=
  match n, s with
  | O, _ => s
  | S k, String _ s' => drop k s'
  | S _, EmptyString => EmptyString
  end.

(** [s[:-n]] for [n <= len(s)] *)
Definition chop (n : nat) (s : string) : string := rev (drop n (rev s)).

Fixpoint lstrip_by (f : ascii -> bool) (s : string) : string :=
  match s with
  | EmptyString => EmptyString
  | String c s' => if f c then lstrip_by f s' else s
  end.

Definition rstrip_by (f : ascii -> bool) (s : string) : string :=
  rev (lstrip_by f (rev s)).

(** White space of [str.strip()] below code point 128. *)
Definition is_space (c : ascii) : bool :=
  let n := nat_of_ascii c in
  (((9 <=? n) && (n <=? 13)) || ((28 <=? n) && (n <=? 32)))%nat.

(** [s.strip()] *)
Definition strip (s : string) : string := rstrip_by is_space (lstrip_by is_space s).

(** [s.rstrip(chars)] for a one-character [chars] *)
Definition rstrip_char (c : ascii) (s : string) : string :=
  rstrip_by (fun x => bool_decide (x = c)) s.

(** [s.split(sep)[-1]] for a one-character [sep]: what follows the last
    [sep], the whole of [s] when there is none. *)
Fixpoint last_segment_from (sep : ascii) (cur s : string) : string :=
  match s with
  | EmptyString => rev cur
  | String c s' =>
      if decide (c = sep) then last_segment_from sep EmptyString s'
      else last_segment_from sep (String c cur) s'
  end.

Definition last_segment (sep : ascii) (s : string) : string :=
  last_segment_from sep EmptyString s.

(** [\w] below code point 128: letters, digits and the underscore. *)
Definition is_word (c : ascii) : bool :=
  let n := nat_of_ascii c in
  (((48 <=? n) && (n <=? 57)) || ((65 <=? n) && (n <=? 90))
   || ((97 <=? n) && (n <=? 122)) || (n =? 95))%nat.

(** [re.sub] of single characters by nothing: the characters for which
    [keep] holds stay. *)
Fixpoint keep_chars (keep : ascii -> bool) (s : string) : string :=
  match s with
  | EmptyString => EmptyString
  | String c s' => if keep c then String c (keep_chars keep s') else keep_chars keep s'
  end.

(** [re.sub(r'\s+', ' ', s)]: every run of white space becomes one
    blank; [in_run] says that the run has been answered already. *)
Fixpoint collapse_spaces_from (in_run : bool) (s : string) : string :=
  match s with
  | EmptyString => EmptyString
  | String c s' =>
      if is_space c then
        if in_run then collapse_spaces_from true s'
        else String " " (collapse_spaces_from true s')
      else String c (collapse_spaces_from false s')
  end.

Definition collapse_spaces (s : string) : string := collapse_spaces_from false s.

End PyStr.

(** ** RDF terms, triples and graphs (rdflib) *)

Inductive Term : Type :=
| URIRef (iri : string)
| BNode (id : string)
| Literal (lexical : string) (lang : option string).

#[global] Instance Term_eq_dec : EqDecision Term.
Proof. solve_decision. Defined.

Definition is_URIRef (t : Term) : bool :=
  match t with URIRef _ => true | _ => false end.

Definition is_BNode (t : Term) : bool :=
  match t with BNode _ => true | _ => false end.

Definition is_Literal (t : Term) : bool :=
  match t with Literal _ _ => true | _ => false end.

(** [str(term)] *)
Definition str (t : Term) : string :=
  match t with
  | URIRef s => s
  | BNode s => s
  | Literal s _ => s
  end.

Abbreviation Triple := (Term * Term * Term)%type.
Abbreviation Graph := (list Triple).

Definition subj (t : Triple) : Term := t.1.1.
Definition pred (t : Triple) : Term := t.1.2.
Definition obj (t : Triple) : Term := t.2.

Module RDF.
Definition type : Term := URIRef "http://www.w3.org/1999/02/22-rdf-syntax-ns#type".
End RDF.

Module RDFS.
Definition label : Term := URIRef "http://www.w3.org/2000/01/rdf-schema#label".
Definition comment : Term := URIRef "http://www.w3.org/2000/01/rdf-schema#comment".
Definition subClassOf : Term := URIRef "http://www.w3.org/2000/01/rdf-schema#subClassOf".
End RDFS.

Module OWL.
Definition Class : Term := URIRef "http://www.w3.org/2002/07/owl#Class".
Definition ObjectProperty : Term := URIRef "http://www.w3.org/2002/07/owl#ObjectProperty".
Definition DatatypeProperty : Term := URIRef "http://www.w3.org/2002/07/owl#DatatypeProperty".
Definition Ontology : Term := URIRef "http://www.w3.org/2002/07/owl#Ontology".
Definition inverseOf : Term := URIRef "http://www.w3.org/2002/07/owl#inverseOf".
Definition Restriction : Term := URIRef "http://www.w3.org/2002/07/owl#Restriction".
End OWL.

(** [Graph.add]: a graph is a set, adding a present triple changes nothing. *)
Definition graph_add (g : Graph) (t : Triple) : Graph :=
  if decide (t ∈ g) then g else g ++ [t].

(** [Graph.remove] of one fully specified triple. *)
Definition graph_remove (g : Graph) (t : Triple) : Graph :=
  filter (λ x, x ≠ t) g.

(** One position of a triple pattern: [None] is Python's wildcard. *)
Definition pos_matches (pat : option Term) (t : Term) : bool :=
  match pat with
  | None => true
  | Some x => bool_decide (x = t)
  end.

(** [Graph.triples((s, p, o))] *)
Definition triples (g : Graph) (s p o : option Term) : list Triple :=
  filter (λ t, pos_matches s (subj t) && pos_matches p (pred t) && pos_matches o (obj t) = true) g.

(** [Graph.subjects(p, o)] *)
Definition subjects (g : Graph) (p o : option Term) : list Term :=
  subj <$> triples g None p o.

(** ** Python dictionaries: association lists in insertion order *)

Abbreviation dict K V := (list (K * V)).

Section Dict.
Context {K V : Type} `{EqDecision K}.

(** [d.get(k)] *)
Fixpoint dict_get (d : dict K V) (k : K) : option V :=
  match d with
  | [] => None
  | (k', v) :: d' => if decide (k' = k) then Some v else dict_get d' k
  end.

(** [k in d] *)
Definition dict_mem (d : dict K V) (k : K) : bool :=
  match dict_get d k with Some _ => true | None => false end.

(** [d[k] = v]: a present key keeps its place, a new key goes last. *)
Fixpoint dict_set (d : dict K V) (k : K) (v : V) : dict K V :=
  match d with
  | [] => [(k, v)]
  | (k', v') :: d' =>
      if decide (k' = k) then (k', v) :: d' else (k', v') :: dict_set d' k v
  end.

Definition dict_keys (d : dict K V) : list K := fst <$> d.
End Dict.

(** ** Python lists and sets *)

(** [enumerate(l)] *)
Fixpoint enumerate_from {A : Type} (i : nat) (l : list A) : list (nat * A) :=
  match l with
  | [] => []
  | x :: l' => (i, x) :: enumerate_from (S i) l'
  end.

Definition enumerate {A : Type} (l : list A) : list (nat * A) := enumerate_from 0 l.

(** The members of a list in the order of their first occurrence: the keys
    of a dictionary filled by going through the list. *)
Fixpoint dedup_first {A : Type} `{EqDecision A} (l : list A) : list A :=
  match l with
  | [] => []
  | x :: l' => x :: filter (λ y, y ≠ x) (dedup_first l')
  end.

(** ** The engine instance and its collaborators *)

(** What the engine takes from rdflib and from CPython without looking
    inside: the Turtle reader ([Graph.parse], [None] when it raises), the
    Turtle writer ([Graph.serialize], [None] when it raises) and the order
    in which a [set] hands out its members.  A set is represented by the duplicate-free list of its
    members in the order in which they were put in; [set_iter] is
    [list(a_set)], some rearrangement of them (CPython goes by the hashes of
    the members, which for strings change from one process to the next). *)
Class Env : Type := {
  parse : string → option Graph;
  serialize : Graph → option string;
  set_iter : list Term → list Term;
  set_iter_perm : ∀ l, set_iter l ≡ₚ l
}.

(** [set(l)] and [{x for x in l}]: the members in the order in which they
    were put in. *)
Definition py_set (l : list Term) : list Term := dedup_first l.

(** The fields of a [StrategicOntologyMerger]. *)
Record Merger : Type := {
  base_uri : string;
  ontology_uri : Term;
  merged_graph : Graph;
  class_mappings : dict Term Term;
  property_mappings : dict Term Term;
  inverse_properties : dict Term Term;
  consolidated_properties : dict Term Term
}.

Definition set_merged_graph (g : Graph) (st : Merger) : Merger :=
  {| base_uri := base_uri st; ontology_uri := ontology_uri st;
     merged_graph := g;
     class_mappings := class_mappings st;
     property_mappings := property_mappings st;
     inverse_properties := inverse_properties st;
     consolidated_properties := consolidated_properties st |}.

Definition set_class_mappings (d : dict Term Term) (st : Merger) : Merger :=
  {| base_uri := base_uri st; ontology_uri := ontology_uri st;
     merged_graph := merged_graph st;
     class_mappings := d;
     property_mappings := property_mappings st;
     inverse_properties := inverse_properties st;
     consolidated_properties := consolidated_properties st |}.

Definition set_property_mappings (d : dict Term Term) (st : Merger) : Merger :=
  {| base_uri := base_uri st; ontology_uri := ontology_uri st;
     merged_graph := merged_graph st;
     class_mappings := class_mappings st;
     property_mappings := d;
     inverse_properties := inverse_properties st;
     consolidated_properties := consolidated_properties st |}.

Definition set_inverse_properties (d : dict Term Term) (st : Merger) : Merger :=
  {| base_uri := base_uri st; ontology_uri := ontology_uri st;
     merged_graph := merged_graph st;
     class_mappings := class_mappings st;
     property_mappings := property_mappings st;
     inverse_properties := d;
     consolidated_properties := consolidated_properties st |}.

(** [StrategicOntologyMerger.__init__]: the merged graph starts with the
    ontology declaration, the tracking dictionaries start empty.  (The
    namespace bindings are for the writer only.) *)
Definition init (base : string) : Merger :=
  let ontology := URIRef (PyStr.rstrip_char "#" base) in
  {| base_uri := base; ontology_uri := ontology;
     merged_graph := graph_add [] (ontology, RDF.type, OWL.Ontology);
     class_mappings := [];
     property_mappings := [];
     inverse_properties := [];
     consolidated_properties := [] |}.

Definition default_base_uri : string := "http://www.example.org/test#".

(** ** Methods run on the instance: state plus escaping exception *)

(** A method takes the instance and gives it back, with a result or with
    [None] when an exception escaped; what was mutated before the exception
    stays mutated. *)
Definition Method (S A : Type) : Type := S → S * option A.

#[global] Instance Method_ret {S : Type} : MRet (Method S) := λ A a st, (st, Some a).

#[global] Instance Method_bind {S : Type} : MBind (Method S) := λ A B k m st,
  match m st with
  | (st', Some a) => k a st'
  | (st', None) => (st', None)
  end.

Definition raise {S A : Type} : Method S A := λ st, (st, None).

Definition get_self {S : Type} : Method S S := λ st, (st, Some st).

Definition modify {S : Type} (f : S → S) : Method S unit := λ st, (f st, Some tt).

(** [try: m  except Exception: handler] *)
Definition try_except {S A : Type} (m handler : Method S A) : Method S A := λ st,
  match m st with
  | (st', Some a) => (st', Some a)
  | (st', None) => handler st'
  end.

(** [for x in l: body(x)] *)
Fixpoint for_each {S A : Type} (l : list A) (body : A → Method S unit) : Method S unit :=
  match l with
  | [] => mret tt
  | x :: l' => body x ;; for_each l' body
  end.

(** A loop that also threads a local variable. *)
Fixpoint for_fold {S A B : Type} (l : list A) (acc : B) (body : B → A → Method S B)
  : Method S B :=
  match l with
  | [] => mret acc
  | x :: l' => acc' ← body acc x; for_fold l' acc' body
  end.

(** A value that is there, or the exception raised in its place. *)
Definition lift_option {S A : Type} (o : option A) : Method S A :=
  match o with
  | Some a => mret a
  | None => raise
  end.

(** The methods of [StrategicOntologyMerger]. *)
Abbreviation M := (Method Merger).

(** ** Name normalisation *)

Definition stop_prefixes : list string := ["has"; "is"; "of"; "to"; "for"; "with"; "by"].
Definition stop_suffixes : list string := ["state"; "type"; "system"; "method"; "property"].

Definition underscore : string := "_".
Definition newline : string := String (ascii_of_nat 10) EmptyString.

(** [re.sub(r'^(has|is|of|to|for|with|by)_?', '', name)]: the first
    alternative that starts the name is removed, with one underscore after
    it when there is one. *)
Fixpoint sub_prefix (alts : list string) (name : string) : string :=
  match alts with
  | [] => name
  | a :: alts' =>
      if PyStr.startswith a name then
        let rest := PyStr.drop (String.length a) name in
        if PyStr.startswith underscore rest then PyStr.drop 1 rest else rest
      else sub_prefix alts' name
  end.

Fixpoint match_suffix (alts : list string) (name : string) : option string :=
  match alts with
  | [] => None
  | a :: alts' =>
      if PyStr.endswith a name then
        let rest := PyStr.chop (String.length a) name in
        Some (if PyStr.endswith underscore rest then PyStr.chop 1 rest else rest)
      else match_suffix alts' name
  end.

(** [re.sub(r'_?(state|type|system|method|property)$', '', name)]: [$] is
    the end of the name, or the place before a line feed that ends it. *)
Definition sub_suffix (alts : list string) (name : string) : string :=
  match match_suffix alts name with
  | Some r => r
  | None =>
      if PyStr.endswith newline name then
        match match_suffix alts (PyStr.chop 1 name) with
        | Some r => r +:+ newline
        | None => name
        end
      else name
  end.

(** [normalize_name] *)
Definition normalize_name (name : string) : string :=
  if decide (name = "") then ""
  else
    let name := PyStr.lower name in
    let name := sub_prefix stop_prefixes name in
    let name := sub_suffix stop_suffixes name in
    PyStr.strip name.

(** ** Labels and comments *)

Fixpoint first_literal (objects : list Term) : option string :=
  match objects with
  | [] => None
  | o :: objects' => if is_Literal o then Some (str o) else first_literal objects'
  end.

(** [get_label] *)
Definition get_label (graph : Graph) (uri : Term) : option string :=
  first_literal (obj <$> triples graph (Some uri) (Some RDFS.label) None).

(** [get_comment] *)
Definition get_comment (graph : Graph) (uri : Term) : option string :=
  first_literal (obj <$> triples graph (Some uri) (Some RDFS.comment) None).

(** [label or str(uri).split('#')[-1]]: an empty label counts as none. *)
Definition label_or_fragment (label : option string) (uri : Term) : string :=
  match label with
  | Some l => if decide (l = "") then PyStr.last_segment "#" (str uri) else l
  | None => PyStr.last_segment "#" (str uri)
  end.

(** [if k not in d: d[k] = []] followed by [d[k].append(x)] *)
Definition dict_append {V : Type} (d : dict string (list V)) (k : string) (x : V)
  : dict string (list V) :=
  match dict_get d k with
  | None => dict_set d k [x]
  | Some l => dict_set d k (l ++ [x])
  end.

(** ** Similarity Matcher *)

(** The tuples [(class_uri, i, label)] and [(prop_uri, i, label, prop_name)]. *)
Abbreviation ClassEntry := (Term * nat * option string)%type.
Abbreviation PropEntry := (Term * nat * option string * string)%type.

(** First loop of [find_similar_classes]: every URI-named class of every
    graph is filed under its normalised name. *)
Definition collect_classes (ontologies : list Graph) : dict string (list ClassEntry) :=
  fold_left
    (λ all_classes '(i, graph),
       fold_left
         (λ all_classes class_uri,
            if is_URIRef class_uri then
              let label := get_label graph class_uri in
              let normalized := normalize_name (label_or_fragment label class_uri) in
              dict_append all_classes normalized (class_uri, i, label)
            else all_classes)
         (subjects graph (Some RDF.type) (Some OWL.Class)) all_classes)
    (enumerate ontologies) [].

(** [find_similar_classes]: names filed more than once become groups. *)
Definition find_similar_classes (ontologies : list Graph) : dict string (list Term) :=
  fold_left
    (λ similar_classes '(normalized, classes),
       if (1 <? length classes)%nat
       then dict_set similar_classes normalized (py_set ((λ cls : ClassEntry, cls.1.1) <$> classes))
       else similar_classes)
    (collect_classes ontologies) [].

Definition inverse_patterns : list (string * string) :=
  [ ("has", "isOf");
    ("detects", "detectedBy");
    ("observes", "observedBy");
    ("activates", "activatedBy");
    ("responds", "respondsTo");
    ("signals", "signaledBy");
    ("indicates", "indicatedBy");
    ("classifies", "classifiedBy");
    ("analyzes", "analyzedBy") ].

(** The two inner loops of [find_inverse_candidates]: every filed property
    whose lowered name contains [wanted], in filing order. *)
Definition scan_properties (wanted : string) (all_properties : dict string (list PropEntry))
  : list PropEntry :=
  filter (λ e : PropEntry, PyStr.contains wanted (PyStr.lower e.2) = true)
         (concat (snd <$> all_properties)).

(** [find_inverse_candidates] *)
Definition find_inverse_candidates (prop_name : string)
    (all_properties : dict string (list PropEntry)) : list PropEntry :=
  let prop_lower := PyStr.lower prop_name in
  fold_left
    (λ candidates '(forward, backward),
       if PyStr.contains forward prop_lower then
         let inverse_name := PyStr.replace forward backward prop_lower in
         candidates ++ scan_properties inverse_name all_properties
       else if PyStr.contains backward prop_lower then
         let forward_name := PyStr.replace backward forward prop_lower in
         candidates ++ scan_properties forward_name all_properties
       else candidates)
    inverse_patterns [].

Section Engine.
Context {env : Env}.

(** First loop of [find_similar_properties]. *)
Definition collect_properties (ontologies : list Graph) : dict string (list PropEntry) :=
  fold_left
    (λ all_properties '(i, graph),
       fold_left
         (λ all_properties prop_uri,
            if is_URIRef prop_uri then
              let label := get_label graph prop_uri in
              let prop_name := label_or_fragment label prop_uri in
              let normalized := normalize_name prop_name in
              dict_append all_properties normalized (prop_uri, i, label, prop_name)
            else all_properties)
         (set_iter (py_set (subjects graph (Some RDF.type) (Some OWL.ObjectProperty)
                            ++ subjects graph (Some RDF.type) (Some OWL.DatatypeProperty))))
         all_properties)
    (enumerate ontologies) [].

(** [self.inverse_properties[prop_uri] = inv_prop] *)
Definition record_inverse (prop_uri inv_prop : Term) : M unit :=
  modify (λ st, set_inverse_properties (dict_set (inverse_properties st) prop_uri inv_prop) st).

(** [find_similar_properties]: groups as for classes; along the way every
    inverse candidate of every filed property is written to
    [self.inverse_properties]. *)
Definition find_similar_properties (ontologies : list Graph) : M (dict string (list Term)) :=
  let all_properties := collect_properties ontologies in
  for_fold all_properties []
    (λ similar_properties '(normalized, properties),
       let similar_properties :=
         if (1 <? length properties)%nat
         then dict_set similar_properties normalized
                (py_set ((λ prop : PropEntry, prop.1.1.1) <$> properties))
         else similar_properties in
       for_each properties
         (λ '(prop_uri, i, label, prop_name),
            let inverse_candidates := find_inverse_candidates prop_name all_properties in
            if bool_decide (inverse_candidates = []) then mret tt
            else for_each inverse_candidates
                   (λ '(inv_prop, _, _, _), record_inverse prop_uri inv_prop)) ;;
       mret similar_properties).

(** ** Canonical Selector *)

(** The score one graph contributes. *)
Definition graph_score (entity : Term) (graph : Graph) : nat :=
  length (triples graph (Some entity) None None)
  + (if triples graph (Some entity) (Some RDFS.label) None is [] then 0 else 2)
  + (if triples graph (Some entity) (Some RDFS.comment) None is [] then 0 else 2).

(** The inner loop of [choose_canonical_entity]. *)
Definition entity_score (entity : Term) (ontologies : list Graph) : nat :=
  fold_left (λ score graph, score + graph_score entity graph) ontologies 0.

(** [max(items, key=...)]: a later item replaces the best so far only when
    its key is strictly greater; an empty sequence raises [ValueError]. *)
Fixpoint max_from {A : Type} (key : A → nat) (best : A) (l : list A) : A :=
  match l with
  | [] => best
  | x :: l' => if (key best <? key x)%nat then max_from key x l' else max_from key best l'
  end.

Definition py_max {A : Type} (key : A → nat) (l : list A) : option A :=
  match l with
  | [] => None
  | x :: l' => Some (max_from key x l')
  end.

Definition entity_scores (entities : list Term) (ontologies : list Graph) : dict Term nat :=
  fold_left (λ scores entity, dict_set scores entity (entity_score entity ontologies))
            entities [].

(** [choose_canonical_entity]; [None] is the [ValueError] of [max]. *)
Definition choose_canonical_entity (entities : list Term) (ontologies : list Graph)
  : option Term :=
  fst <$> py_max snd (entity_scores entities ontologies).

Definition map_class (cls canonical : Term) : M unit :=
  modify (λ st, set_class_mappings (dict_set (class_mappings st) cls canonical) st).

Definition map_property (prop canonical : Term) : M unit :=
  modify (λ st, set_property_mappings (dict_set (property_mappings st) prop canonical) st).

(** One group of [create_entity_mappings]. *)
Definition map_group (record : Term → Term → M unit) (ontologies : list Graph)
    (members : list Term) : M unit :=
  let entities := set_iter members in
  if (1 <? length entities)%nat then
    canonical ← lift_option (choose_canonical_entity entities ontologies);
    for_each entities
      (λ e, if decide (e ≠ canonical) then record e canonical else mret tt)
  else mret tt.

(** [create_entity_mappings] *)
Definition create_entity_mappings (similar_classes similar_properties : dict string (list Term))
    (ontologies : list Graph) : M unit :=
  for_each similar_classes
    (λ '(group_name, class_set), map_group map_class ontologies class_set) ;;
  for_each similar_properties
    (λ '(group_name, prop_set), map_group map_property ontologies prop_set).

(** ** Graph Rewriter *)

(** [apply_mapping] *)
Definition apply_mapping (st : Merger) (entity : Term) : Term :=
  match dict_get (class_mappings st) entity with
  | Some c => c
  | None =>
      match dict_get (property_mappings st) entity with
      | Some c => c
      | None => entity
      end
  end.

Definition graph_add_self (t : Triple) : M unit :=
  modify (λ st, set_merged_graph (graph_add (merged_graph st) t) st).

(** The triple [add_graph_with_mappings] writes for a source triple. *)
Definition rewrite_triple (st : Merger) (t : Triple) : Triple :=
  let '(s, p, o) := t in
  (apply_mapping st s, apply_mapping st p, if is_URIRef o then apply_mapping st o else o).

(** [add_graph_with_mappings] *)
Definition add_graph_with_mappings (graph : Graph) (graph_index : nat) : M unit :=
  for_each graph
    (λ t, st ← get_self; graph_add_self (rewrite_triple st t)).

(** ** Inverse-Relation Inferencer *)

(** [add_inverse_property_declarations] *)
Definition add_inverse_property_declarations : M unit :=
  st ← get_self;
  for_each (inverse_properties st)
    (λ '(prop1, prop2),
       st ← get_self;
       let mapped_prop1 := apply_mapping st prop1 in
       let mapped_prop2 := apply_mapping st prop2 in
       if decide (mapped_prop1 ≠ mapped_prop2)
       then graph_add_self (mapped_prop1, OWL.inverseOf, mapped_prop2)
       else mret tt).

(** ** Restriction Normalizer *)

(** The scan of [clean_redundant_restrictions]: a restriction found under
    [rdfs:subClassOf] reaches [pass], so nothing is ever listed. *)
Definition restrictions_to_remove (g : Graph) : list Triple :=
  fold_left
    (λ acc t,
       if is_BNode (obj t) then
         let restriction_type :=
           existsb (λ r, bool_decide (obj r = OWL.Restriction))
                   (triples g (Some (obj t)) (Some RDF.type) None) in
         if restriction_type then acc else acc
       else acc)
    (triples g None (Some RDFS.subClassOf) None) [].

(** [clean_redundant_restrictions] *)
Definition clean_redundant_restrictions : M unit :=
  st ← get_self;
  for_each (restrictions_to_remove (merged_graph st))
    (λ t, modify (λ st, set_merged_graph (graph_remove (merged_graph st) t) st)).

(** ** Statistics Reporter *)

(** [get_statistics] *)
Definition get_statistics (st : Merger) : dict string nat :=
  let g := merged_graph st in
  let classes := py_set (subjects g (Some RDF.type) (Some OWL.Class)) in
  let obj_props := py_set (subjects g (Some RDF.type) (Some OWL.ObjectProperty)) in
  let data_props := py_set (subjects g (Some RDF.type) (Some OWL.DatatypeProperty)) in
  let inverse_props := length (py_set (subjects g (Some OWL.inverseOf) None)) in
  [ ("classes", length classes);
    ("object_properties", length obj_props);
    ("datatype_properties", length data_props);
    ("inverse_properties", inverse_props);
    ("class_mappings", length (class_mappings st));
    ("property_mappings", length (property_mappings st));
    ("total_triples", length g) ].

(** ** The merge *)

(** The loop that parses every document; the first one the reader rejects
    raises. *)
Definition parse_all (ontology_contents : list string) : M (list Graph) :=
  for_fold ontology_contents []
    (λ ontologies content,
       graph ← lift_option (parse content);
       mret (ontologies ++ [graph])).

(** The body of [merge_ontologies] from "PRINCIPLE 2" down to the clean-up.
    ([identify_essential_entities] before it builds a set that is never
    read and touches nothing on the instance.) *)
Definition merge_graphs (ontologies : list Graph) : M unit :=
  let similar_classes := find_similar_classes ontologies in
  similar_properties ← find_similar_properties ontologies;
  create_entity_mappings similar_classes similar_properties ontologies ;;
  for_each (enumerate ontologies) (λ '(i, graph), add_graph_with_mappings graph i) ;;
  add_inverse_property_declarations ;;
  clean_redundant_restrictions.

(** [merge_ontologies]: any exception inside, of the reader, of a stage
    or of the writer, is logged and turned into the result [None]. *)
Definition merge_ontologies (ontology_contents competency_questions : list string)
  : M (option string) :=
  try_except
    (ontologies ← parse_all ontology_contents;
     merge_graphs ontologies ;;
     st ← get_self;
     result ← lift_option (serialize (merged_graph st));
     mret (Some result))
    (mret None).

End Engine.

(** ** Competency questions *)

Module PyRe.

Definition is_letter (c : ascii) : bool :=
  let n := nat_of_ascii c in
  (((65 <=? n) && (n <=? 90)) || ((97 <=? n) && (n <=? 122)))%nat.

(** What a finished run of word characters contributes. *)
Definition close_run (cur : string) : list string :=
  match cur with
  | EmptyString => []
  | String _ _ => [PyStr.rev cur]
  end.

(** The maximal runs of word characters of a text, left to right; [cur]
    holds the run being read, last character first. *)
Fixpoint word_runs_from (cur s : string) : list string :=
  match s with
  | EmptyString => close_run cur
  | String c s' =>
      if PyStr.is_word c then word_runs_from (String c cur) s'
      else close_run cur ++ word_runs_from EmptyString s'
  end.

Definition word_runs (s : string) : list string := word_runs_from EmptyString s.

Fixpoint all_letters (s : string) : bool :=
  match s with
  | EmptyString => true
  | String c s' => is_letter c && all_letters s'
  end.

(** A whole match of [[A-Z][a-zA-Z]+]. *)
Definition is_capitalized (w : string) : bool :=
  match w with
  | String c (String c' w') => PyStr.is_upper c && all_letters (String c' w')
  | _ => false
  end.

(** [re.findall(r'\b[A-Z][a-zA-Z]+\b', s)]: a match starts and ends at a
    word boundary and holds word characters only, so it is a maximal run
    of word characters; the runs that are a capital letter followed by one
    or more letters are the matches. *)
Definition capitalized_words (s : string) : list string :=
  filter (λ w, is_capitalized w = true) (word_runs s).

End PyRe.

(** [essential.add(entity)] on a set kept in the order of insertion. *)
Definition set_add (s : list Term) (x : Term) : list Term :=
  if decide (x ∈ s) then s else s ++ [x].

(** [identify_essential_entities]: the URI-named subjects whose lowered
    text contains a lowered capitalised word of some question. *)
Definition identify_essential_entities (ontologies : list Graph)
    (competency_questions : list string) : list Term :=
  fold_left
    (λ essential cq,
       fold_left
         (λ essential word,
            fold_left
              (λ essential graph,
                 fold_left
                   (λ essential entity,
                      if is_URIRef entity
                         && PyStr.contains (PyStr.lower word) (PyStr.lower (str entity))
                      then set_add essential entity
                      else essential)
                   (subjects graph None None) essential)
              ontologies essential)
         (PyRe.capitalized_words cq) essential)
    competency_questions [].

Section Pipeline.
Context {env : Env}.

(** [OntologyGenerationPipeline.merge_ontologies_strategically]
    ("2nd ontology/src/ontology-pipeline.py"): every call merges on an
    engine of its own, created with the default base URI; the statistics
    are logged only.  The outer [None] is an exception that escapes. *)
Definition merge_ontologies_strategically (ontology_contents competency_questions : list string)
  : option (option string) :=
  let merger := init default_base_uri in
  (merge_ontologies ontology_contents competency_questions merger).2.

End Pipeline.

(** * The incremental merger: [ImprovedOntologyMerger]
      ("adaptive_hmi_ontology_ontogenia/src/improved_ontology_merger.py") *)

Module Improved.

(** The fields of an [ImprovedOntologyMerger].  [temp_graphs] is created
    by the first [add_ontology]; before that it is the empty list here. *)
Record Merger : Type := {
  base_uri : string;
  ontology_uri : Term;
  merged_graph : Graph;
  entity_mappings : dict Term Term;
  label_to_entity : dict string Term;
  similar_entities : dict string (list Term);
  temp_graphs : list Graph
}.

Definition set_merged_graph (g : Graph) (st : Merger) : Merger :=
  {| base_uri := base_uri st; ontology_uri := ontology_uri st;
     merged_graph := g;
     entity_mappings := entity_mappings st;
     label_to_entity := label_to_entity st;
     similar_entities := similar_entities st;
     temp_graphs := temp_graphs st |}.

Definition set_entity_mappings (d : dict Term Term) (st : Merger) : Merger :=
  {| base_uri := base_uri st; ontology_uri := ontology_uri st;
     merged_graph := merged_graph st;
     entity_mappings := d;
     label_to_entity := label_to_entity st;
     similar_entities := similar_entities st;
     temp_graphs := temp_graphs st |}.

Definition set_label_to_entity (d : dict string Term) (st : Merger) : Merger :=
  {| base_uri := base_uri st; ontology_uri := ontology_uri st;
     merged_graph := merged_graph st;
     entity_mappings := entity_mappings st;
     label_to_entity := d;
     similar_entities := similar_entities st;
     temp_graphs := temp_graphs st |}.

Definition set_similar_entities (d : dict string (list Term)) (st : Merger) : Merger :=
  {| base_uri := base_uri st; ontology_uri := ontology_uri st;
     merged_graph := merged_graph st;
     entity_mappings := entity_mappings st;
     label_to_entity := label_to_entity st;
     similar_entities := d;
     temp_graphs := temp_graphs st |}.

Definition set_temp_graphs (l : list Graph) (st : Merger) : Merger :=
  {| base_uri := base_uri st; ontology_uri := ontology_uri st;
     merged_graph := merged_graph st;
     entity_mappings := entity_mappings st;
     label_to_entity := label_to_entity st;
     similar_entities := similar_entities st;
     temp_graphs := l |}.

Definition ontology_label : Term :=
  Literal "Adaptive Human-Machine Interface Ontology" (Some "en").

Definition ontology_comment : Term :=
  Literal "An ontology for describing adaptive human-machine interfaces with a focus on driver state detection and multimodal feedback" (Some "en").

(** [__init__], and again the first statements of [merge_ontologies]: a
    merged graph with the ontology declaration, empty tracking
    dictionaries. *)
Definition init (base : string) : Merger :=
  let ontology := URIRef (PyStr.rstrip_char "#" base) in
  {| base_uri := base; ontology_uri := ontology;
     merged_graph :=
       graph_add (graph_add (graph_add [] (ontology, RDF.type, OWL.Ontology))
                            (ontology, RDFS.label, ontology_label))
                 (ontology, RDFS.comment, ontology_comment);
     entity_mappings := [];
     label_to_entity := [];
     similar_entities := [];
     temp_graphs := [] |}.

(** [normalize_text] *)
Definition normalize_text (text : string) : string :=
  if decide (text = "") then ""
  else
    let text := PyStr.lower text in
    let text := PyStr.keep_chars (λ c, PyStr.is_word c || PyStr.is_space c) text in
    PyStr.strip (PyStr.collapse_spaces text).

(** Truth value of a term in a condition: that of its text. *)
Definition truthy (t : Term) : bool := negb (bool_decide (str t = "")).

(** The object of the first [rdf:type] statement of [entity] in [g]. *)
Definition first_type (g : Graph) (entity : Term) : option Term :=
  head (obj <$> triples g (Some entity) (Some RDF.type) None).

(** The loop over [temp_graphs] in [find_similar_entity]: it stops at the
    first graph that gives a type with a true truth value.  (A type with a
    false truth value is treated below like no type at all.) *)
Fixpoint entity_type_in (graphs : list Graph) (entity : Term) : option Term :=
  match graphs with
  | [] => None
  | g :: graphs' =>
      match first_type g entity with
      | Some o => if truthy o then Some o else entity_type_in graphs' entity
      | None => entity_type_in graphs' entity
      end
  end.

(** One round of the loop over [label_to_entity] in [find_similar_entity]:
    does it return [existing_entity]? *)
Definition similar_to (st : Merger) (entity : Term) (normalized_label normalized_comment : string)
    (existing_label : string) (existing_entity : Term) : bool :=
  let existing_type := first_type (merged_graph st) existing_entity in
  let entity_type := entity_type_in (temp_graphs st) entity in
  let types_differ :=
    match entity_type, existing_type with
    | Some t, Some t' => truthy t' && negb (bool_decide (t = t'))
    | _, _ => false
    end in
  if types_differ then false
  else if (PyStr.contains normalized_label existing_label
           || PyStr.contains existing_label normalized_label)
          && (5 <? String.length normalized_label)%nat then true
  else if negb (bool_decide (normalized_comment = ""))
          && (10 <? String.length normalized_comment)%nat then
    let existing_comment :=
      match first_literal (obj <$> triples (merged_graph st) (Some existing_entity)
                                     (Some RDFS.comment) None) with
      | Some c => normalize_text c
      | None => ""
      end in
    negb (bool_decide (existing_comment = ""))
    && (PyStr.contains normalized_comment existing_comment
        || PyStr.contains existing_comment normalized_comment)
  else false.

(** [find_similar_entity] *)
Definition find_similar_entity (st : Merger) (entity : Term) (label comment : option string)
  : option Term :=
  match label with
  | None => None
  | Some label =>
      if decide (label = "") then None
      else
        let normalized_label := normalize_text label in
        let normalized_comment :=
          match comment with Some c => normalize_text c | None => "" end in
        match dict_get (label_to_entity st) normalized_label with
        | Some e => Some e
        | None =>
            snd <$> find (λ kv : string * Term,
                            similar_to st entity normalized_label normalized_comment kv.1 kv.2)
                         (label_to_entity st)
        end
  end.

(** [get_entity_label_comment] *)
Definition get_entity_label_comment (graph : Graph) (entity : Term)
  : option string * option string :=
  (first_literal (obj <$> triples graph (Some entity) (Some RDFS.label) None),
   first_literal (obj <$> triples graph (Some entity) (Some RDFS.comment) None)).

Abbreviation M := (Method Merger).

Definition graph_add_self (t : Triple) : M unit :=
  modify (λ st, set_merged_graph (graph_add (merged_graph st) t) st).

Definition graph_remove_self (t : Triple) : M unit :=
  modify (λ st, set_merged_graph (graph_remove (merged_graph st) t) st).

(** The [else] branch of the first pass of [add_ontology]: no similar
    entity was found for [s]. *)
Definition file_label (s : Term) (normalized_label : string) : M unit :=
  st ← get_self;
  match dict_get (label_to_entity st) normalized_label with
  | Some first =>
      let members :=
        match dict_get (similar_entities st) normalized_label with
        | Some members => members
        | None => [first]
        end in
      modify (λ st, set_similar_entities
                      (dict_set (similar_entities st) normalized_label (members ++ [s])) st)
  | None =>
      modify (λ st, set_label_to_entity (dict_set (label_to_entity st) normalized_label s) st)
  end.

(** The body of the first pass of [add_ontology] for a labelled entity
    that has no mapping yet. *)
Definition file_entity (s : Term) (label : string) (comment : option string) : M unit :=
  st ← get_self;
  let normalized_label := normalize_text label in
  match find_similar_entity st s (Some label) comment with
  | Some similar_entity =>
      if truthy similar_entity then
        modify (λ st, set_entity_mappings (dict_set (entity_mappings st) s similar_entity) st)
      else file_label s normalized_label
  | None => file_label s normalized_label
  end.

Definition is_entity_type (o : Term) : bool :=
  bool_decide (o = OWL.Class) || bool_decide (o = OWL.ObjectProperty)
  || bool_decide (o = OWL.DatatypeProperty).

Definition NamedIndividual : Term := URIRef "http://www.w3.org/2002/07/owl#NamedIndividual".

(** The subjects declared subclass of [parent] in [g]. *)
Definition subclasses_of (g : Graph) (parent : Term) : list Term :=
  py_set (subj <$> filter (λ t : Triple, obj t = parent)
                          (triples g None (Some RDFS.subClassOf) None)).

(** [get_statistics] *)
Definition get_statistics (st : Merger) : dict string nat :=
  let g := merged_graph st in
  let classes := py_set (subjects g (Some RDF.type) (Some OWL.Class)) in
  let obj_props := py_set (subjects g (Some RDF.type) (Some OWL.ObjectProperty)) in
  let data_props := py_set (subjects g (Some RDF.type) (Some OWL.DatatypeProperty)) in
  let individuals := py_set (subjects g (Some RDF.type) (Some NamedIndividual)) in
  let situation_uri := URIRef (base_uri st +:+ "Situation") in
  let event_uri := URIRef (base_uri st +:+ "Event") in
  let situations := subclasses_of g situation_uri in
  let events := subclasses_of g event_uri in
  [ ("classes", length classes);
    ("object_properties", length obj_props);
    ("datatype_properties", length data_props);
    ("individuals", length individuals);
    ("situation_classes", length situations);
    ("event_classes", length events);
    ("duplicates_detected", length (entity_mappings st));
    ("total_triples", length g) ].

Section Methods.
Context {env : Env}.

(** The statements of [add_ontology] after the parse. *)
Definition add_graph (g : Graph) : M unit :=
  modify (λ st, set_temp_graphs (temp_graphs st ++ [g]) st) ;;
  for_each (triples g None (Some RDF.type) None)
    (λ '(s, p, o),
       if is_URIRef s && is_entity_type o then
         match get_entity_label_comment g s with
         | (Some label, comment) =>
             if decide (label = "") then mret tt
             else
               st ← get_self;
               if dict_mem (entity_mappings st) s then mret tt
               else file_entity s label comment
         | (None, _) => mret tt
         end
       else mret tt) ;;
  for_each g
    (λ '(s, p, o),
       st ← get_self;
       let subject := default s (dict_get (entity_mappings st) s) in
       let object :=
         if is_URIRef o then default o (dict_get (entity_mappings st) o) else o in
       graph_add_self (subject, p, object)).

(** [add_ontology]: [True] when the document was added, [False] when
    anything raised, the reader included. *)
Definition add_ontology (turtle_content : string) : M bool :=
  try_except
    (g ← lift_option (parse turtle_content);
     add_graph g ;;
     mret true)
    (mret false).

(** [consolidate_entity_descriptions] *)
Definition consolidate_entity_descriptions : M unit :=
  st ← get_self;
  for_each (entity_mappings st)
    (λ '(source, target),
       st ← get_self;
       let source_comments :=
         dedup_first
           (concat ((λ g, omap (λ o, if is_Literal o then Some (str o) else None)
                               (obj <$> triples g (Some source) (Some RDFS.comment) None))
                    <$> temp_graphs st)) in
       let target_comments :=
         omap (λ o, if is_Literal o then Some (str o) else None)
              (obj <$> triples (merged_graph st) (Some target) (Some RDFS.comment) None) in
       for_each source_comments
         (λ comment,
            if decide (comment ∈ target_comments) then mret tt
            else graph_add_self (target, RDFS.comment, Literal comment (Some "en")))).

(** [sorted(l, key=..., reverse=True)]: greatest key first, members with
    equal keys in their original order. *)
Fixpoint insert_desc {A : Type} (key : A → nat) (x : A) (l : list A) : list A :=
  match l with
  | [] => [x]
  | y :: l' => if (key x <? key y)%nat then y :: insert_desc key x l' else x :: l
  end.

Definition sorted_desc {A : Type} (key : A → nat) (l : list A) : list A :=
  foldr (insert_desc key) [] l.

Definition connections (st : Merger) (entity : Term) : nat :=
  fold_left
    (λ count g, count + length (triples g (Some entity) None None)
                + length (triples g None None (Some entity)))
    (merged_graph st :: temp_graphs st) 0.

(** The rewriting of the merged graph for one entity given up. *)
Definition replace_entity (entity keep_entity : Term) : M unit :=
  modify (λ st, set_entity_mappings (dict_set (entity_mappings st) entity keep_entity) st) ;;
  st ← get_self;
  for_each (triples (merged_graph st) (Some entity) None None)
    (λ '(s, p, o), graph_remove_self (s, p, o) ;; graph_add_self (keep_entity, p, o)) ;;
  st ← get_self;
  for_each (triples (merged_graph st) None None (Some entity))
    (λ '(s, p, o), graph_remove_self (s, p, o) ;; graph_add_self (s, p, keep_entity)).

(** [merge_similar_entities] *)
Definition merge_similar_entities : M unit :=
  st ← get_self;
  for_each (similar_entities st)
    (λ '(label, entities),
       if (length entities <=? 1)%nat then mret tt
       else
         st ← get_self;
         let entity_connections :=
           fold_left (λ d entity, dict_set d entity (connections st entity)) entities [] in
         let entities_sorted :=
           sorted_desc (λ e, default 0 (dict_get entity_connections e)) entities in
         keep_entity ← lift_option (head entities_sorted);
         for_each (tail entities)
           (λ entity,
              if decide (entity ≠ keep_entity) then replace_entity entity keep_entity
              else mret tt)).

(** [merge_ontologies]: everything on the instance but [base_uri] is set
    anew, then the documents are added one by one; a document that is not
    added is logged and passed over.  An exception of the writer is logged
    and turned into the result [None], like any other inside the [try]. *)
Definition merge_ontologies (ontologies : dict string string) : M (option string) :=
  try_except
    (modify (λ st, init (base_uri st)) ;;
     for_each ontologies
       (λ '(ontology_id, content), success ← add_ontology content; mret tt) ;;
     consolidate_entity_descriptions ;;
     merge_similar_entities ;;
     st ← get_self;
     result ← lift_option (serialize (merged_graph st));
     mret (Some result))
    (mret None).

End Methods.

(** The triple the second pass of [add_ontology] writes for a source
    triple: subject and URI-named object go through [entity_mappings], the
    predicate is written as it is. *)
Definition map_triple (st : Merger) (t : Triple) : Triple :=
  let '(s, p, o) := t in
  (default s (dict_get (entity_mappings st) s), p,
   if is_URIRef o then default o (dict_get (entity_mappings st) o) else o).

(** What the first pass of [add_ontology] may do to the instance: the
    graphs stay as they are, entries on file stay on file. *)
Definition filing (st st' : Merger) : Prop :=
  base_uri st' = base_uri st
  ∧ ontology_uri st' = ontology_uri st
  ∧ merged_graph st' = merged_graph st
  ∧ temp_graphs st' = temp_graphs st
  ∧ (∀ k v, dict_get (entity_mappings st) k = Some v →
            dict_get (entity_mappings st') k = Some v)
  ∧ (∀ k v, dict_get (label_to_entity st) k = Some v →
            dict_get (label_to_entity st') k = Some v).

(** A comment statement [consolidate_entity_descriptions] may write: the
    text of a comment that a source graph gives to a mapped entity, in
    English, on the entity it is mapped to. *)
Definition carried_comment (st : Merger) (x : Triple) : Prop :=
  ∃ source target g c l,
    (source, target) ∈ entity_mappings st ∧ g ∈ temp_graphs st
    ∧ (source, RDFS.comment, Literal c l) ∈ g
    ∧ x = (target, RDFS.comment, Literal c (Some "en")).

(** From [st] to [st'] only the merged graph has changed, and it has only
    gained carried comments. *)
Definition commenting (st st' : Merger) : Prop :=
  (∃ g', st' = set_merged_graph g' st)
  ∧ (∀ x, x ∈ merged_graph st → x ∈ merged_graph st')
  ∧ (∀ x, x ∈ merged_graph st' → x ∈ merged_graph st ∨ carried_comment st x).

End Improved.

(** * The in-place merge of duplicates in one graph: [duplicate_utils] and
      [DuplicateMerger] ("1st ontology/src/duplicate_utils.py",
      "1st ontology/src/duplicate_merger.py") *)

Module Duplicates.

(** [find_duplicates]: the subjects that share the text of a label, in the
    order in which they are met; the first one is remembered in
    [label_dict] and opens the list when a second one turns up. *)
Definition find_duplicates (g : Graph) : dict string (list Term) :=
  snd
    (fold_left
       (λ '(label_dict, duplicates) t,
          if is_Literal (obj t) then
            let label := str (obj t) in
            match dict_get label_dict label with
            | Some first =>
                let uris :=
                  match dict_get duplicates label with
                  | Some uris => uris
                  | None => [first]
                  end in
                (label_dict, dict_set duplicates label (uris ++ [subj t]))
            | None => (dict_set label_dict label (subj t), duplicates)
            end
          else (label_dict, duplicates))
       (triples g None (Some RDFS.label) None)
       (([] : dict string Term), ([] : dict string (list Term)))).

(** [transfer_relationships]: first the statements that point to
    [source_uri], then its own statements other than type and label. *)
Definition transfer_relationships (g : Graph) (source_uri target_uri : Term) : Graph :=
  let g :=
    fold_left (λ g t, graph_add g (subj t, pred t, target_uri))
              (triples g None None (Some source_uri)) g in
  fold_left
    (λ g t,
       if decide (pred t ≠ RDF.type ∧ pred t ≠ RDFS.label)
       then graph_add g (target_uri, pred t, obj t)
       else g)
    (triples g (Some source_uri) None None) g.

(** The dictionary [get_entity_info] returns, key by key. *)
Record EntityInfo : Type := {
  types : list (string * Term);
  properties : list (Term * Term);
  references : list (Term * Term)
}.

(** [get_entity_info] *)
Definition get_entity_info (g : Graph) (uri : Term) : EntityInfo :=
  {| types := (λ t : Triple, ("type", obj t)) <$> triples g (Some uri) (Some RDF.type) None;
     properties :=
       (λ t : Triple, (pred t, obj t))
       <$> filter (λ t : Triple, pred t ≠ RDF.type ∧ pred t ≠ RDFS.label)
                  (triples g (Some uri) None None);
     references :=
       (λ t : Triple, (subj t, pred t))
       <$> filter (λ t : Triple, pred t ≠ RDF.type) (triples g None None (Some uri)) |}.

(** [Graph.remove] with a pattern. *)
Definition graph_remove_pattern (g : Graph) (s p o : option Term) : Graph :=
  filter (λ t, ¬ (pos_matches s (subj t) && pos_matches p (pred t) && pos_matches o (obj t)
                  = true)) g.

(** The fields of a [DuplicateMerger] once the file is loaded. *)
Record Merger : Type := {
  graph : Graph;
  duplicates : dict string (list Term)
}.

(** [DuplicateMerger.__init__], starting from the loaded graph. *)
Definition init (g : Graph) : Merger :=
  {| graph := g; duplicates := find_duplicates g |}.

Abbreviation M := (Method Merger).

Definition set_graph (g : Graph) (st : Merger) : Merger :=
  {| graph := g; duplicates := duplicates st |}.

(** What [_merge_entities] makes of the graph. *)
Definition merged_entities (g : Graph) (primary_uri duplicate_uri : Term) : Graph :=
  let g := transfer_relationships g duplicate_uri primary_uri in
  let g := graph_remove_pattern g (Some duplicate_uri) None None in
  graph_remove_pattern g None None (Some duplicate_uri).

(** [_merge_entities] *)
Definition _merge_entities (primary_uri duplicate_uri : Term) : M unit :=
  modify (λ st, set_graph (merged_entities (graph st) primary_uri duplicate_uri) st).

(** [_select_primary_uri]; the preferences map a label to the text of a
    URI. *)
Definition _select_primary_uri (label : string) (uris : list Term)
    (preferences : option (dict string string)) : option Term :=
  let first := head uris in
  match preferences with
  | Some prefs =>
      match prefs, dict_get prefs label with
      | _ :: _, Some preferred =>
          if decide (URIRef preferred ∈ uris) then Some (URIRef preferred) else first
      | _, _ => first
      end
  | None => first
  end.

(** The loop shared by [_merge_duplicate_set] and [merge_with_strategy]. *)
Definition merge_into (primary_uri : Term) (uris : list Term) : M unit :=
  for_each uris
    (λ uri, if decide (uri ≠ primary_uri) then _merge_entities primary_uri uri else mret tt).

(** [_merge_duplicate_set] *)
Definition _merge_duplicate_set (label : string) (uris : list Term)
    (preferences : option (dict string string)) : M unit :=
  primary_uri ← lift_option (_select_primary_uri label uris preferences);
  merge_into primary_uri uris.

(** The loop of [merge_all_duplicates]. *)
Definition merge_duplicate_sets (preferences : option (dict string string)) : M unit :=
  st ← get_self;
  for_each (duplicates st)
    (λ '(label, uris),
       if (1 <? length uris)%nat then _merge_duplicate_set label uris preferences
       else mret tt).

Definition connection_count (g : Graph) (uri : Term) : nat :=
  length (triples g None None (Some uri)) + length (triples g (Some uri) None None).

Definition property_count (g : Graph) (uri : Term) : nat :=
  length (triples g (Some uri) None None).

(** [_get_most_connected_uri] and [_get_uri_with_most_properties]: [max]
    over the dictionary of counts. *)
Definition max_by_count (count : Term → nat) (uris : list Term) : option Term :=
  fst <$> py_max snd (fold_left (λ d uri, dict_set d uri (count uri)) uris []).

(** The loop of [merge_with_strategy]. *)
Definition merge_by_strategy (strategy : string) : M unit :=
  st ← get_self;
  for_each (duplicates st)
    (λ '(label, uris),
       if (1 <? length uris)%nat then
         st ← get_self;
         primary_uri ←
           lift_option
             (if decide (strategy = "most_connected")
              then max_by_count (connection_count (graph st)) uris
              else if decide (strategy = "most_properties")
              then max_by_count (property_count (graph st)) uris
              else head uris);
         merge_into primary_uri uris
       else mret tt).

Section Saving.

(** What [save_ontology] takes from rdflib and from the file system
    without looking inside: [Graph.serialize(destination=output_file,
    format="turtle")], a method of the files that are there; it returns or
    raises, and leaves the files as it leaves them. *)
Context {Files : Type} (serialize_to : Graph → string → Method Files unit).

(** [save_ontology]: an exception of the writer is logged and raised
    again. *)
Definition save_ontology (g : Graph) (output_file : string) : Method Files unit :=
  try_except (serialize_to g output_file) raise.

(** The two methods that write work on the instance and on the files. *)
Definition on_self {A : Type} (m : M A) : Method (Merger * Files) A :=
  λ w, let r := m w.1 in ((r.1, w.2), r.2).

Definition on_files {A : Type} (m : Method Files A) : Method (Merger * Files) A :=
  λ w, let r := m w.2 in ((w.1, r.1), r.2).

(** [merge_all_duplicates]: without duplicates it returns at once and
    writes nothing. *)
Definition merge_all_duplicates (output_file : string)
    (preferences : option (dict string string)) : Method (Merger * Files) unit :=
  st ← on_self get_self;
  if duplicates st is [] then mret tt
  else
    on_self (merge_duplicate_sets preferences) ;;
    st ← on_self get_self;
    on_files (save_ontology (graph st) output_file).

(** [merge_with_strategy]: an unknown strategy raises; the file is written
    whether there are duplicates or not. *)
Definition merge_with_strategy (output_file strategy : string)
  : Method (Merger * Files) unit :=
  if bool_decide (strategy ∈ ["first"; "most_connected"; "most_properties"]) then
    on_self (merge_by_strategy strategy) ;;
    st ← on_self get_self;
    on_files (save_ontology (graph st) output_file)
  else raise.

End Saving.

End Duplicates.

(** * The report on duplicates: [DuplicateAnalyzer]
      ("1st ontology/src/duplicate_analyzer.py") *)

Module Analyzer.

(** The fields of a [DuplicateAnalyzer] once the file is loaded. *)
Record Analyzer : Type := {
  graph : Graph;
  duplicates : dict string (list Term)
}.

(** [DuplicateAnalyzer.__init__], starting from the loaded graph. *)
Definition init (g : Graph) : Analyzer :=
  {| graph := g; duplicates := Duplicates.find_duplicates g |}.

(** [stats[k] = f(stats[k])] for a key that is there. *)
Definition update (stats : dict string nat) (k : string) (f : nat → nat) : dict string nat :=
  dict_set stats k (f (default 0 (dict_get stats k))).

(** [get_duplicate_stats] *)
Definition get_duplicate_stats (st : Analyzer) : dict string nat :=
  fold_left
    (λ stats '(label, uris),
       if (1 <? length uris)%nat then
         let stats := update stats "duplicate_labels" (λ n, n + 1) in
         let stats := update stats "total_duplicates" (λ n, n + (length uris - 1)) in
         update stats "max_duplicates" (λ n, Nat.max n (length uris))
       else stats)
    (duplicates st)
    [ ("total_duplicates", 0); ("duplicate_labels", 0); ("max_duplicates", 0) ].

(** The inner loop of [find_conflicting_properties]: the set of the
    predicates of [uri] other than type and label, as texts. *)
Definition property_names (g : Graph) (uri : Term) : list string :=
  dedup_first
    ((λ t : Triple, str (pred t))
     <$> filter (λ t : Triple, pred t ≠ RDF.type ∧ pred t ≠ RDFS.label)
                (triples g (Some uri) None None)).

(** [set.union] and [set.intersection] called with the listed sets as
    arguments; without a set to start from they raise [TypeError]. *)
Definition union_all (sets : list (list string)) : option (list string) :=
  match sets with
  | [] => None
  | _ :: _ => Some (dedup_first (concat sets))
  end.

Definition intersection_all (sets : list (list string)) : option (list string) :=
  match sets with
  | [] => None
  | s :: sets' => Some (filter (λ x, Forall (λ s', x ∈ s') sets') s)
  end.

Section Conflicts.
(** [list(a_set)] for a set of texts: some rearrangement of its members. *)
Context (list_of_set : list string → list string).

(** [find_conflicting_properties]; [None] is an exception that escapes. *)
Definition find_conflicting_properties (st : Analyzer) : option (dict string (list string)) :=
  fold_left
    (λ conflicts '(label, uris),
       conflicts ← conflicts;
       if (1 <? length uris)%nat then
         let property_sets := property_names (graph st) <$> uris in
         all_properties ← union_all property_sets;
         common_properties ← intersection_all property_sets;
         let conflicting := filter (λ x, x ∉ common_properties) all_properties in
         if conflicting is [] then Some conflicts
         else Some (dict_set conflicts label (list_of_set conflicting))
       else Some conflicts)
    (duplicates st) (Some []).

End Conflicts.

End Analyzer.

(** ** Vocabulary of the statements below *)

(** The groups [find_similar_properties] returns, read off the filed
    properties (the second statement of its loop body). *)
Definition group_properties (all_properties : dict string (list PropEntry))
  : dict string (list Term) :=
  fold_left
    (λ similar_properties '(normalized, properties),
       if (1 <? length properties)%nat
       then dict_set similar_properties normalized
              (py_set ((λ prop : PropEntry, prop.1.1.1) <$> properties))
       else similar_properties)
    all_properties [].

(** What the inner loop of one group does to a mapping table. *)
Definition add_group (m : dict Term Term) (entities : list Term) (canonical : Term)
  : dict Term Term :=
  fold_left (λ m e, if decide (e ≠ canonical) then dict_set m e canonical else m) entities m.


(** The object as the rewriter writes it, in the words of the data model:
    a literal is kept, a node reference is mapped. *)
Definition map_object (st : Merger) (o : Term) : Term :=
  match o with
  | Literal _ _ => o
  | _ => apply_mapping st o
  end.

(** The statement [t] with [c] in the place of [n] as subject and as
    object. *)
Definition substitute (n c : Term) (t : Triple) : Triple :=
  (if decide (subj t = n) then c else subj t, pred t, if decide (obj t = n) then c else obj t).

(** Every key of both mapping tables is a [URIRef]. *)
Definition uri_keys (st : Merger) : Prop :=
  (∀ k, dict_mem (class_mappings st) k = true → is_URIRef k = true) ∧
  (∀ k, dict_mem (property_mappings st) k = true → is_URIRef k = true).

(** [k] is mapped: a key of one of the two tables. *)
Definition mapped (st : Merger) (k : Term) : bool :=
  dict_mem (class_mappings st) k || dict_mem (property_mappings st) k.

Section Groups.
Context {env : Env}.

(** What [map_group] does to a mapping table. *)
Definition add_members (ontologies : list Graph) (m : dict Term Term) (members : list Term)
  : dict Term Term :=
  let entities := set_iter members in
  if (1 <? length entities)%nat then
    match choose_canonical_entity entities ontologies with
    | Some canonical => add_group m entities canonical
    | None => m
    end
  else m.

(** What the loop over the groups does to a mapping table. *)
Definition add_groups (ontologies : list Graph) (m : dict Term Term)
    (groups : list (list Term)) : dict Term Term :=
  fold_left (add_members ontologies) groups m.

(** The instance [create_entity_mappings] leaves behind. *)
Definition with_mappings (similar_classes similar_properties : dict string (list Term))
    (ontologies : list Graph) (st : Merger) : Merger :=
  set_property_mappings
    (add_groups ontologies (property_mappings st) (snd <$> similar_properties))
    (set_class_mappings
       (add_groups ontologies (class_mappings st) (snd <$> similar_classes)) st).

(** The triple the inferencer writes for a candidate pair, if any. *)
Definition inverse_declaration (st : Merger) (pair : Term * Term) : option Triple :=
  let mapped_prop1 := apply_mapping st pair.1 in
  let mapped_prop2 := apply_mapping st pair.2 in
  if decide (mapped_prop1 ≠ mapped_prop2)
  then Some (mapped_prop1, OWL.inverseOf, mapped_prop2)
  else None.

(** A duplicate group is a set of at least two nodes; its canonical node
    is the one the selector returns for it. *)
Definition duplicate_group (members : list Term) : Prop :=
  (1 < length (set_iter members))%nat.

Definition canonical_of (ontologies : list Graph) (members : list Term) (c : Term) : Prop :=
  choose_canonical_entity (set_iter members) ontologies = Some c.

(** [x] is a member of some duplicate group of [groups] without being the
    canonical node of that group. *)
Definition non_canonical (ontologies : list Graph) (groups : list (list Term)) (x : Term)
  : Prop :=
  ∃ members c, members ∈ groups ∧ duplicate_group members ∧
               canonical_of ontologies members c ∧ x ∈ members ∧ x ≠ c.

(** No node belongs to two duplicate groups: two entries of the list that
    are duplicate groups and have a member in common are one and the same
    entry.  An entry with fewer than two members is no duplicate group and
    does not count. *)
Definition pairwise_disjoint (groups : list (list Term)) : Prop :=
  ∀ i j members1 members2 x,
    groups !! i = Some members1 → groups !! j = Some members2 →
    duplicate_group members1 → duplicate_group members2 →
    x ∈ members1 → x ∈ members2 → i = j.

(** The groups handed to [create_entity_mappings]: class groups, then
    property groups. *)
Definition groups_in (similar_classes similar_properties : dict string (list Term))
  : list (list Term) :=
  (snd <$> similar_classes) ++ (snd <$> similar_properties).

(** The groups a merge finds in its sources. *)
Definition groups_of (ontologies : list Graph) : list (list Term) :=
  groups_in (find_similar_classes ontologies)
            (group_properties (collect_properties ontologies)).

End Groups.

(** Every value stored in the dictionary satisfies [Q]. *)
Definition values_all {K V : Type} (Q : V → Prop) (d : dict K V) : Prop :=
  Forall (λ kv, Q kv.2) d.

(** A method that returns from every state. *)
Definition total {S A : Type} (m : Method S A) : Prop :=
  ∀ st, ∃ st' a, m st = (st', Some a).

(** The number of statements of [g] whose subject is [n]. *)
Definition subject_count (n : Term) (g : Graph) : nat :=
  length (filter (λ t : Triple, subj t = n) g).

(** [n] has a statement with predicate [p] in [g]. *)
Definition annotated (p n : Term) (g : Graph) : bool :=
  bool_decide (Exists (λ t : Triple, subj t = n ∧ pred t = p) g).

(** The score as the selector computes it: each graph adds its statements
    about [n], 2 if it labels [n] and 2 if it comments [n]. *)
Definition score_per_graph (n : Term) (ontologies : list Graph) : nat :=
  sum_list ((λ g, subject_count n g
                  + (if annotated RDFS.label n g then 2 else 0)
                  + (if annotated RDFS.comment n g then 2 else 0)) <$> ontologies).

(** The score with each bonus given once per node, however many graphs
    label or comment it. *)
Definition score_once_per_node (n : Term) (ontologies : list Graph) : nat :=
  sum_list (subject_count n <$> ontologies)
  + (if existsb (annotated RDFS.label n) ontologies then 2 else 0)
  + (if existsb (annotated RDFS.comment n) ontologies then 2 else 0).

(** ** Sources for the examples *)

Module Example.

Definition ex (name : string) : Term := URIRef ("http://www.example.org/test#" +:+ name).

Definition prefixes : string :=
  "@prefix : <http://www.example.org/test#> . @prefix owl: <http://www.w3.org/2002/07/owl#> . @prefix rdfs: <http://www.w3.org/2000/01/rdf-schema#> . ".

(** Two classes whose names normalise to "alert". *)
Definition alerts_ttl : string :=
  prefixes +:+ ":Alert a owl:Class . :AlertState a owl:Class .".

Definition alerts : Graph :=
  [ (ex "Alert", RDF.type, OWL.Class);
    (ex "AlertState", RDF.type, OWL.Class) ].

(** [:Alert] alone. *)
Definition alert : Graph :=
  [ (ex "Alert", RDF.type, OWL.Class) ].

(** [:Alert] again, now labelled "Warning", and a richer class with the
    same label. *)
Definition warnings_ttl : string :=
  prefixes +:+ ":Alert a owl:Class ; rdfs:label 'Warning' . :Warning a owl:Class ; rdfs:label 'Warning' ; rdfs:comment 'A signal to the driver' ; rdfs:subClassOf :Signal .".

Definition warnings : Graph :=
  [ (ex "Alert", RDF.type, OWL.Class);
    (ex "Alert", RDFS.label, Literal "Warning" None);
    (ex "Warning", RDF.type, OWL.Class);
    (ex "Warning", RDFS.label, Literal "Warning" None);
    (ex "Warning", RDFS.comment, Literal "A signal to the driver" None);
    (ex "Warning", RDFS.subClassOf, ex "Signal") ].

(** A property declared to be its own inverse. *)
Definition adjacent_ttl : string :=
  prefixes +:+ ":adjacentTo a owl:ObjectProperty ; owl:inverseOf :adjacentTo .".

Definition adjacent : Graph :=
  [ (ex "adjacentTo", RDF.type, OWL.ObjectProperty);
    (ex "adjacentTo", OWL.inverseOf, ex "adjacentTo") ].

(** Two properties with the same label; the second is used in a
    statement. *)
Definition detects_ttl : string :=
  prefixes +:+ ":detects a owl:ObjectProperty ; rdfs:label 'detects' .".

Definition detects : Graph :=
  [ (ex "detects", RDF.type, OWL.ObjectProperty);
    (ex "detects", RDFS.label, Literal "detects" None) ].

Definition senses_ttl : string :=
  prefixes +:+ ":senses a owl:ObjectProperty ; rdfs:label 'detects' . :Camera :senses :Driver .".

Definition senses : Graph :=
  [ (ex "senses", RDF.type, OWL.ObjectProperty);
    (ex "senses", RDFS.label, Literal "detects" None);
    (ex "Camera", ex "senses", ex "Driver") ].

(** One graph in which a class and an individual carry the same label. *)
Definition drowsiness : Graph :=
  [ (ex "Drowsiness", RDF.type, OWL.Class);
    (ex "Drowsiness", RDFS.label, Literal "Drowsiness" None);
    (ex "drowsiness_1", RDF.type, ex "DriverState");
    (ex "drowsiness_1", RDFS.label, Literal "Drowsiness" None);
    (ex "drowsiness_1", ex "observedIn", ex "Driver");
    (ex "Camera", ex "detects", ex "drowsiness_1") ].

(** A document cut off in the middle of a statement. *)
Definition broken_ttl : string := prefixes +:+ ":Alert a owl:Class ; rdfs:label".

(** The reader on the documents above; every other text is rejected. *)
Definition documents : dict string Graph :=
  [ (alerts_ttl, alerts); (warnings_ttl, warnings); (adjacent_ttl, adjacent);
    (detects_ttl, detects); (senses_ttl, senses) ].

Definition quote : string := String (ascii_of_nat 34) EmptyString.

Definition render_term (t : Term) : string :=
  match t with
  | URIRef iri => "<" +:+ iri +:+ ">"
  | BNode id => "_:" +:+ id
  | Literal lexical _ => quote +:+ lexical +:+ quote
  end.

(** One statement per line; this writer accepts every graph. *)
Fixpoint render (g : Graph) : string :=
  match g with
  | [] => ""
  | (s, p, o) :: g' =>
      render_term s +:+ " " +:+ render_term p +:+ " " +:+ render_term o +:+ " ." +:+ newline
      +:+ render g'
  end.

(** Files as a dictionary from names to texts, and a writer that accepts
    every graph and every name. *)
Definition write (g : Graph) (output_file : string) : Method (dict string string) unit :=
  modify (λ files, dict_set files output_file (render g)).

(** Sets hand out their members in insertion order. *)
Definition env : Env :=
  {| parse := dict_get documents;
     serialize := λ g, Some (render g);
     set_iter := λ l, l;
     set_iter_perm := λ l, reflexivity l |}.

(** The same, but sets hand out their members last inserted first. *)
Definition reversed_env : Env :=
  {| parse := dict_get documents;
     serialize := λ g, Some (render g);
     set_iter := reverse;
     set_iter_perm := reverse_Permutation |}.

End Example.

(** ** Vocabulary of the further properties *)

(** Every character of the text satisfies [P]. *)
Fixpoint all_chars (P : ascii → bool) (s : string) : bool :=
  match s with
  | EmptyString => true
  | String c s' => P c && all_chars P s'
  end.

(** The text does not start with a character that [f] strips. *)
Definition starts_clean (f : ascii → bool) (s : string) : bool :=
  match s with
  | EmptyString => true
  | String c _ => negb (f c)
  end.

(** Every white-space character of the text is a blank, and no two stand
    together. *)
Fixpoint well_spaced (s : string) : bool :=
  match s with
  | EmptyString => true
  | String c s' =>
      (if PyStr.is_space c
       then bool_decide (c = " "%char) && starts_clean PyStr.is_space s'
       else true)
      && well_spaced s'
  end.

(** Every entry of the dictionary satisfies [Q], which may look at the
    key. *)
Definition entries_all {K V : Type} (Q : K → V → Prop) (d : dict K V) : Prop :=
  Forall (λ kv, Q kv.1 kv.2) d.

(** [uri] is a URI-named class of one of the graphs, and its name there
    normalises to [k]. *)
Definition class_named (ontologies : list Graph) (k : string) (uri : Term) : Prop :=
  is_URIRef uri = true
  ∧ ∃ g, g ∈ ontologies ∧ (uri, RDF.type, OWL.Class) ∈ g
         ∧ normalize_name (label_or_fragment (get_label g uri) uri) = k.

(** The subjects of the label statements of [g] whose object is a literal
    with the text [label], in store order. *)
Definition label_sharers (g : Graph) (label : string) : list Term :=
  subj <$> filter (λ t : Triple, is_Literal (obj t) = true ∧ str (obj t) = label)
                  (triples g None (Some RDFS.label) None).

(** The body of the loop of [find_duplicates]. *)
Definition find_duplicates_step
  : dict string Term * dict string (list Term) → Triple
    → dict string Term * dict string (list Term) :=
  λ '(label_dict, duplicates) t,
    if is_Literal (obj t) then
      let label := str (obj t) in
      match dict_get label_dict label with
      | Some first =>
          let uris :=
            match dict_get duplicates label with
            | Some uris => uris
            | None => [first]
            end in
          (label_dict, dict_set duplicates label (uris ++ [subj t]))
      | None => (dict_set label_dict label (subj t), duplicates)
      end
    else (label_dict, duplicates).

(** What one round of [find_conflicting_properties] finds for a list of
    duplicates: the predicates that some of them have and not all. *)
Definition conflicting_of (g : Graph) (uris : list Term) : list string :=
  let property_sets := Analyzer.property_names g <$> uris in
  filter (λ x, x ∉ default [] (Analyzer.intersection_all property_sets))
         (default [] (Analyzer.union_all property_sets)).

(** * Properties *)

Open Scope nat_scope.

(** ** Strings: case *)

Lemma is_upper_lower_char (c : ascii) : PyStr.is_upper (PyStr.lower_char c) = false.
Proof. destruct c as [[] [] [] [] [] [] [] []]; reflexivity. Qed.

Lemma has_upper_lower (s : string) : PyStr.has_upper (PyStr.lower s) = false.
Proof.
  induction s as [|c s IH]; simpl; [done|].
  by rewrite is_upper_lower_char, IH.
Qed.

Lemma has_upper_app (a b : string) :
  PyStr.has_upper (a +:+ b) = PyStr.has_upper a || PyStr.has_upper b.
Proof.
  induction a as [|c a IH]; simpl; [done|].
  by rewrite IH, orb_assoc.
Qed.

Lemma startswith_has_upper (n h : string) :
  PyStr.startswith n h = true → PyStr.has_upper n = true → PyStr.has_upper h = true.
Proof.
  revert h. induction n as [|a n IH]; intros h Hs Hu; simpl in *; [done|].
  destruct h as [|b h]; [done|]. simpl.
  case_decide as Hab; [subst b|done].
  apply orb_true_iff in Hu as [Hu|Hu]; [by rewrite Hu|].
  rewrite (IH h Hs Hu). apply orb_true_r.
Qed.

(** A text that holds a capital letter does not occur in a text without
    one. *)
Lemma contains_has_upper (n h : string) :
  PyStr.contains n h = true → PyStr.has_upper n = true → PyStr.has_upper h = true.
Proof.
  intros Hc Hu. induction h as [|b h IH].
  - simpl in Hc. rewrite orb_false_r in Hc. eauto using startswith_has_upper.
  - simpl in Hc. apply orb_true_iff in Hc as [Hc|Hc].
    + eauto using startswith_has_upper.
    + simpl. rewrite (IH Hc). apply orb_true_r.
Qed.

Lemma contains_lower_false (n s : string) :
  PyStr.has_upper n = true → PyStr.contains n (PyStr.lower s) = false.
Proof.
  intros Hu. destruct (PyStr.contains n (PyStr.lower s)) eqn:Hc; [|done].
  pose proof (contains_has_upper _ _ Hc Hu) as Hl.
  by rewrite has_upper_lower in Hl.
Qed.

Lemma replace_from_has_upper (old new : string) (skip : nat) (s : string) :
  old ≠ "" → PyStr.has_upper new = true →
  PyStr.contains old (PyStr.drop skip s) = true →
  PyStr.has_upper (PyStr.replace_from old new skip s) = true.
Proof.
  intros Hne Hnew. revert skip.
  induction s as [|c s IH]; intros skip Hc.
  - destruct skip, old; simpl in Hc; done.
  - destruct skip as [|k]; simpl.
    + simpl in Hc. destruct (PyStr.startswith old (String c s)) eqn:Hs.
      * rewrite has_upper_app, Hnew. done.
      * simpl in Hc. simpl. rewrite (IH 0); [apply orb_true_r|done].
    + apply IH. done.
Qed.

(** Replacing an occurring token by one with a capital letter leaves a
    capital letter in the result. *)
Lemma replace_has_upper (old new s : string) :
  old ≠ "" → PyStr.has_upper new = true → PyStr.contains old s = true →
  PyStr.has_upper (PyStr.replace old new s) = true.
Proof.
  intros Hne Hnew Hc. destruct old as [|a old]; [done|].
  unfold PyStr.replace. by apply replace_from_has_upper.
Qed.

Lemma scan_properties_upper (wanted : string) (all_properties : dict string (list PropEntry)) :
  PyStr.has_upper wanted = true → scan_properties wanted all_properties = [].
Proof.
  intros Hu. unfold scan_properties.
  induction (concat (snd <$> all_properties)) as [|e l IH]; [done|].
  rewrite filter_cons, IH.
  rewrite (contains_lower_false _ _ Hu). by case_decide.
Qed.

Lemma inverse_patterns_case :
  Forall (λ fb : string * string, fb.1 ≠ "" ∧ PyStr.has_upper fb.2 = true) inverse_patterns.
Proof. repeat constructor; done. Qed.

(** The name searched for is built from the lowered property name by
    putting in a token that has a capital letter, and is looked for in
    lowered names; the backward tokens themselves are looked for in the
    lowered property name.  Neither can be found. *)
Lemma find_inverse_candidates_nil (prop_name : string)
    (all_properties : dict string (list PropEntry)) :
  find_inverse_candidates prop_name all_properties = [].
Proof.
  unfold find_inverse_candidates.
  generalize inverse_patterns_case.
  generalize inverse_patterns as patterns.
  induction patterns as [|[forward backward] patterns IH]; intros Hall; [done|].
  apply Forall_cons in Hall as [[Hne Hup] Hall]. simpl in Hne, Hup.
  simpl. destruct (PyStr.contains forward (PyStr.lower prop_name)) eqn:Hf.
  - rewrite scan_properties_upper; [by apply IH|].
    by apply replace_has_upper.
  - rewrite (contains_lower_false _ _ Hup). by apply IH.
Qed.

(** The pair of the scenario "detects / detectedBy": neither property
    finds the other. *)
Example detects_detectedBy_not_paired :
  let p := URIRef "http://www.example.org/test#detectsDrowsiness" in
  let q := URIRef "http://www.example.org/test#detectedByDrowsiness" in
  let all_properties : dict string (list PropEntry) :=
    [ ("detectsdrowsiness", [(p, 0, None, "detectsDrowsiness")]);
      ("detectedbydrowsiness", [(q, 1, None, "detectedByDrowsiness")]) ] in
  find_inverse_candidates "detectsDrowsiness" all_properties = [] ∧
  find_inverse_candidates "detectedByDrowsiness" all_properties = [].
Proof. split; reflexivity. Qed.

(** ** Running methods *)

Lemma bind_unfold {S A B : Type} (m : Method S A) (k : A → Method S B) (st : S) :
  (m ≫= k) st = match m st with
                | (st', Some a) => k a st'
                | (st', None) => (st', None)
                end.
Proof. reflexivity. Qed.

Lemma bind_run {S A B : Type} (m : Method S A) (k : A → Method S B) (st st' : S) (a : A) :
  m st = (st', Some a) → (m ≫= k) st = k a st'.
Proof. intros Hm. by rewrite bind_unfold, Hm. Qed.

(** A loop whose body always returns is a fold of the state. *)
Lemma for_each_fold {S A : Type} (l : list A) (body : A → Method S unit) (f : S → A → S) :
  (∀ x st, x ∈ l → body x st = (f st x, Some tt)) →
  ∀ st, for_each l body st = (fold_left f l st, Some tt).
Proof.
  induction l as [|x l IH]; intros Hbody st; [done|].
  simpl. rewrite (bind_run _ _ _ _ _ (Hbody x st (list_elem_of_here _ _))).
  apply IH. intros y st' Hy. apply Hbody. by apply list_elem_of_further.
Qed.

Lemma for_each_skip {S A : Type} (l : list A) (body : A → Method S unit) :
  (∀ x st, x ∈ l → body x st = (st, Some tt)) →
  ∀ st, for_each l body st = (st, Some tt).
Proof.
  intros Hbody st. rewrite (for_each_fold l body (λ st _, st)); [|done].
  f_equal. clear Hbody. by induction l as [|x l IH].
Qed.

Lemma for_fold_pure {S A B : Type} (l : list A) (acc : B) (body : B → A → Method S B)
    (f : B → A → B) :
  (∀ b x st, x ∈ l → body b x st = (st, Some (f b x))) →
  ∀ st, for_fold l acc body st = (st, Some (fold_left f l acc)).
Proof.
  revert acc. induction l as [|x l IH]; intros acc Hbody st; [done|].
  simpl. rewrite (bind_run _ _ _ _ _ (Hbody acc x st (list_elem_of_here _ _))).
  apply IH. intros b y st' Hy. apply Hbody. by apply list_elem_of_further.
Qed.

Section Running.
Context {env : Env}.

(** [find_similar_properties] returns the groups and, since no inverse
    candidate is ever found, writes nothing to the instance. *)
Lemma find_similar_properties_run (ontologies : list Graph) (st : Merger) :
  find_similar_properties ontologies st
  = (st, Some (group_properties (collect_properties ontologies))).
Proof.
  unfold find_similar_properties, group_properties.
  apply for_fold_pure. intros sim [normalized properties] st' _.
  rewrite (bind_run _ _ st' st' tt); [done|].
  apply for_each_skip. intros [[[prop_uri i] label] prop_name] st'' _.
  by rewrite find_inverse_candidates_nil.
Qed.

(** C6 (defect in the code): the inverse-candidate search pairs nothing,
    in either direction.  For every property name and every table of filed
    properties [find_inverse_candidates] returns no candidate, whatever
    forward or backward token the name contains, and so
    [find_similar_properties] leaves the instance, its file of inverse
    pairs included, as it found it. *)
Theorem inverse_search_pairs_nothing (prop_name : string)
    (all_properties : dict string (list PropEntry))
    (ontologies : list Graph) (st : Merger) :
  find_inverse_candidates prop_name all_properties = []
  ∧ (find_similar_properties ontologies st).1 = st.
Proof.
  split; [apply find_inverse_candidates_nil|].
  by rewrite find_similar_properties_run.
Qed.

End Running.

(** ** Dictionaries *)

Section DictFacts.
Context {K V : Type} `{EqDecision K}.
Implicit Types (d : dict K V) (k : K) (v : V).

Lemma dict_get_set d k v k' :
  dict_get (dict_set d k v) k' = if decide (k = k') then Some v else dict_get d k'.
Proof.
  induction d as [|[k0 v0] d IH]; simpl.
  - by repeat case_decide.
  - destruct (decide (k0 = k)) as [->|Hne]; simpl.
    + by repeat case_decide; subst.
    + rewrite IH. repeat case_decide; subst; done.
Qed.

Lemma dict_get_app d1 d2 k :
  dict_get (d1 ++ d2) k = match dict_get d1 k with Some v => Some v | None => dict_get d2 k end.
Proof.
  induction d1 as [|[k0 v0] d1 IH]; simpl; [done|]. by case_decide.
Qed.

Lemma dict_set_present d k v : dict_get d k = Some v → dict_set d k v = d.
Proof.
  induction d as [|[k0 v0] d IH]; simpl; [done|].
  case_decide; intros Hg; [by simplify_eq|]. by rewrite IH.
Qed.

Lemma dict_set_absent d k v : dict_get d k = None → dict_set d k v = d ++ [(k, v)].
Proof.
  induction d as [|[k0 v0] d IH]; simpl; [done|].
  case_decide; intros Hg; [done|]. by rewrite IH.
Qed.

Lemma dict_mem_set d k v k' :
  dict_mem (dict_set d k v) k' = bool_decide (k = k') || dict_mem d k'.
Proof.
  unfold dict_mem. rewrite dict_get_set.
  case_decide; [by rewrite bool_decide_true|by rewrite bool_decide_false].
Qed.

End DictFacts.

(** ** Canonical Selector *)

Section Selector.
Context {A : Type} (key : A → nat).

Lemma max_from_key_le (best : A) (l : list A) : key best ≤ key (max_from key best l).
Proof.
  revert best. induction l as [|x l IH]; intros best; simpl; [done|].
  destruct (key best <? key x)%nat eqn:Hlt; [|done].
  apply Nat.ltb_lt in Hlt. specialize (IH x). lia.
Qed.

(** Leaving out candidates that cannot beat the current best changes
    nothing. *)
Lemma max_from_filter (P : A → Prop) `{∀ x, Decision (P x)} (best : A) (l : list A) :
  (∀ y, y ∈ l → ¬ P y → key y ≤ key best) →
  max_from key best (filter P l) = max_from key best l.
Proof.
  revert best. induction l as [|x l IH]; intros best Hle; [done|].
  rewrite filter_cons. destruct (decide (P x)) as [HP|HP]; simpl.
  - destruct (key best <? key x)%nat eqn:Hlt; apply IH; intros y Hy HPy.
    + apply Nat.ltb_lt in Hlt.
      specialize (Hle y (list_elem_of_further _ _ _ Hy) HPy). lia.
    + apply Hle; [by apply list_elem_of_further|done].
  - assert (key x ≤ key best) as Hx by (apply Hle; [apply list_elem_of_here|done]).
    apply Nat.ltb_ge in Hx. rewrite Hx. apply IH.
    intros y Hy HPy. apply Hle; [by apply list_elem_of_further|done].
Qed.

(** The result stands at some place of the sequence, everything before it
    has a strictly smaller key, nothing after it has a greater one. *)
Lemma max_from_split (best : A) (l : list A) :
  ∃ pre post, best :: l = pre ++ max_from key best l :: post
    ∧ (∀ e, e ∈ pre → key e < key (max_from key best l))
    ∧ (∀ e, e ∈ post → key e ≤ key (max_from key best l)).
Proof.
  revert best. induction l as [|x l IH]; intros best; simpl.
  - exists [], []. split_and!; [done|by intros ? ?%elem_of_nil..].
  - destruct (key best <? key x)%nat eqn:Hlt.
    + apply Nat.ltb_lt in Hlt.
      destruct (IH x) as (pre & post & Heq & Hpre & Hpost).
      exists (best :: pre), post. split_and!; [by rewrite Heq| |done].
      intros e [->|He]%elem_of_cons; [|by apply Hpre].
      pose proof (max_from_key_le x l). lia.
    + apply Nat.ltb_ge in Hlt.
      destruct (IH best) as (pre & post & Heq & Hpre & Hpost).
      destruct pre as [|b pre]; simpl in Heq.
      * injection Heq as Hb Hl. exists [], (x :: post).
        split_and!; [by rewrite <- Hb, <- Hl|by intros ? ?%elem_of_nil|].
        intros e [->|He]%elem_of_cons; [by rewrite <- Hb|by apply Hpost].
      * injection Heq as <- Hl. exists (best :: x :: pre), post.
        split_and!; [simpl; by rewrite <- Hl|..|done].
        intros e [->|[->|He]%elem_of_cons]%elem_of_cons.
        -- apply Hpre, list_elem_of_here.
        -- assert (key best < key (max_from key best l))
             by apply Hpre, list_elem_of_here. lia.
        -- by apply Hpre, list_elem_of_further.
Qed.

(** There is one such place only. *)
Lemma first_best_unique (l pre post pre' post' : list A) (c c' : A) :
  l = pre ++ c :: post → l = pre' ++ c' :: post' →
  (∀ e, e ∈ pre → key e < key c) → (∀ e, e ∈ post → key e ≤ key c) →
  (∀ e, e ∈ pre' → key e < key c') → (∀ e, e ∈ post' → key e ≤ key c') →
  c = c'.
Proof.
  intros Hl Hl' Hpre Hpost Hpre' Hpost'.
  assert (l !! length pre = Some c) as Hc by (by rewrite Hl, list_lookup_middle).
  assert (l !! length pre' = Some c') as Hc' by (by rewrite Hl', list_lookup_middle).
  destruct (Nat.lt_trichotomy (length pre) (length pre')) as [Hlt|[Heq|Hlt]].
  - assert (c ∈ pre') as Hin.
    { rewrite Hl', lookup_app_l in Hc by done. by eapply list_elem_of_lookup_2. }
    assert (c' ∈ post) as Hin'.
    { rewrite Hl in Hc'. rewrite lookup_app_r in Hc' by lia.
      destruct (length pre' - length pre) as [|n] eqn:Hn; [lia|].
      simpl in Hc'. by eapply list_elem_of_lookup_2. }
    specialize (Hpre' _ Hin). specialize (Hpost _ Hin'). lia.
  - rewrite Heq in Hc. congruence.
  - assert (c' ∈ pre) as Hin.
    { rewrite Hl, lookup_app_l in Hc' by done. by eapply list_elem_of_lookup_2. }
    assert (c ∈ post') as Hin'.
    { rewrite Hl' in Hc. rewrite lookup_app_r in Hc by lia.
      destruct (length pre - length pre') as [|n] eqn:Hn; [lia|].
      simpl in Hc. by eapply list_elem_of_lookup_2. }
    specialize (Hpre _ Hin). specialize (Hpost' _ Hin'). lia.
Qed.

End Selector.

Lemma max_from_pairs (f : Term → nat) (best : Term) (l : list Term) :
  max_from snd (best, f best) ((λ e, (e, f e)) <$> l) = (max_from f best l, f (max_from f best l)).
Proof.
  revert best. induction l as [|x l IH]; intros best; simpl; [done|].
  destruct (f best <? f x)%nat; apply IH.
Qed.

Lemma max_from_dedup_first (f : Term → nat) (best : Term) (l : list Term) :
  max_from f best (dedup_first l) = max_from f best l.
Proof.
  revert best. induction l as [|x l IH]; intros best; simpl; [done|].
  destruct (f best <? f x)%nat eqn:Hlt.
  - rewrite max_from_filter; [apply IH|]. intros y _ Hy.
    apply dec_stable in Hy. by subst.
  - rewrite max_from_filter; [apply IH|]. intros y _ Hy.
    apply dec_stable in Hy. subst. by apply Nat.ltb_ge.
Qed.

(** Filling a dictionary with [d[e] = f(e)] along a list keeps what was
    there and puts the new keys behind, in the order of their first
    occurrence. *)
Lemma fold_dict_set (f : Term → nat) (l : list Term) (d : dict Term nat) :
  (∀ k v, dict_get d k = Some v → v = f k) →
  fold_left (λ d e, dict_set d e (f e)) l d
  = d ++ ((λ e, (e, f e)) <$> filter (λ e, dict_get d e = None) (dedup_first l)).
Proof.
  revert d. induction l as [|x l IH]; intros d Hd; simpl.
  - by rewrite app_nil_r.
  - rewrite filter_cons. destruct (decide (dict_get d x = None)) as [Hx|Hx].
    + rewrite dict_set_absent by done. rewrite IH.
      * rewrite <- app_assoc. simpl. do 3 f_equal.
        rewrite list_filter_filter. apply list_filter_iff. intros y.
        rewrite dict_get_app. simpl. destruct (dict_get d y); [naive_solver|].
        destruct (decide (x = y)); naive_solver.
      * intros k v. rewrite dict_get_app. destruct (dict_get d k) eqn:Hk.
        -- intros [= <-]. by apply Hd.
        -- simpl. destruct (decide (x = k)); [naive_solver|done].
    + destruct (dict_get d x) as [v|] eqn:Hg; [|done].
      rewrite (Hd _ _ Hg) in Hg. rewrite dict_set_present by done.
      rewrite IH by done. do 2 f_equal.
      rewrite list_filter_filter_l; [done|]. intros y Hy ->. congruence.
Qed.

Lemma entity_scores_eq (entities : list Term) (ontologies : list Graph) :
  entity_scores entities ontologies
  = (λ e, (e, entity_score e ontologies)) <$> dedup_first entities.
Proof.
  unfold entity_scores.
  rewrite (fold_dict_set (λ e, entity_score e ontologies)) by done.
  simpl. f_equal. induction (dedup_first entities) as [|x l IH]; [done|].
  by rewrite filter_cons_True, IH.
Qed.

(** The dictionary of scores is only a detour: the selector returns the
    first member of the list whose score no other member exceeds. *)
Lemma choose_canonical_entity_py_max (entities : list Term) (ontologies : list Graph) :
  choose_canonical_entity entities ontologies
  = py_max (λ e, entity_score e ontologies) entities.
Proof.
  unfold choose_canonical_entity. rewrite entity_scores_eq.
  destruct entities as [|x l]; [done|].
  cbn [dedup_first fmap list_fmap py_max option_fmap option_map].
  rewrite (max_from_pairs (λ e, entity_score e ontologies)). cbn [fst].
  f_equal. rewrite <- (max_from_dedup_first _ x l). apply max_from_filter.
  intros y _ Hy. apply dec_stable in Hy. by subst.
Qed.

Lemma max_from_ext {A : Type} (f g : A → nat) (best : A) (l : list A) :
  (∀ e, e ∈ best :: l → f e = g e) → max_from f best l = max_from g best l.
Proof.
  revert best. induction l as [|x l IH]; intros best Hfg; simpl; [done|].
  rewrite <- (Hfg best), <- (Hfg x) by (repeat constructor).
  destruct (f best <? f x); apply IH; intros e He; apply Hfg;
    apply elem_of_cons in He as [->|He]; repeat constructor; done.
Qed.

Lemma max_from_elem_of {A : Type} (key : A → nat) (best : A) (l : list A) :
  max_from key best l ∈ best :: l.
Proof.
  destruct (max_from_split key best l) as (pre & post & -> & _).
  apply elem_of_app. right. apply list_elem_of_here.
Qed.

Lemma triples_subject (g : Graph) (n : Term) :
  triples g (Some n) None None = filter (λ t : Triple, subj t = n) g.
Proof.
  unfold triples. apply list_filter_iff. intros t. simpl.
  rewrite !andb_true_r, bool_decide_eq_true. naive_solver.
Qed.

Lemma triples_subject_predicate (g : Graph) (n p : Term) :
  triples g (Some n) (Some p) None = filter (λ t : Triple, subj t = n ∧ pred t = p) g.
Proof.
  unfold triples. apply list_filter_iff. intros t. simpl.
  rewrite andb_true_r, andb_true_iff, !bool_decide_eq_true. naive_solver.
Qed.

Lemma filter_nil_Exists {A : Type} (P : A → Prop) `{∀ x, Decision (P x)} (l : list A) :
  (if filter P l is [] then 0 else 2) = (if bool_decide (Exists P l) then 2 else 0).
Proof.
  induction l as [|x l IH]; [done|].
  rewrite filter_cons. destruct (decide (P x)) as [HP|HP].
  - rewrite bool_decide_true; [done|]. by constructor.
  - rewrite IH. destruct (decide (Exists P l)) as [He|He].
    + rewrite !bool_decide_true; [done| |done]. by constructor.
    + rewrite !bool_decide_false; [done| |done].
      intros [?|?]%Exists_cons; done.
Qed.

Lemma triples_annotated (g : Graph) (n p : Term) :
  (if triples g (Some n) (Some p) None is [] then 0 else 2)
  = (if annotated p n g then 2 else 0).
Proof. rewrite triples_subject_predicate. apply filter_nil_Exists. Qed.

Lemma fold_sum {A : Type} (f : A → nat) (l : list A) (acc : nat) :
  fold_left (λ score x, score + f x) l acc = acc + sum_list (f <$> l).
Proof.
  revert acc. induction l as [|x l IH]; intros acc; csimpl; [lia|].
  rewrite IH. lia.
Qed.

Lemma entity_score_per_graph (n : Term) (ontologies : list Graph) :
  entity_score n ontologies = score_per_graph n ontologies.
Proof.
  unfold entity_score, score_per_graph. rewrite fold_sum. simpl.
  f_equal. apply list_fmap_ext. intros _ g _. unfold graph_score.
  by rewrite triples_subject, !triples_annotated.
Qed.

(** C4 (amended): the score of a candidate [n] is the sum, over the source
    graphs, of the number of statements with [n] as subject, plus 2 for
    every graph in which [n] has a label and 2 for every graph in which it
    has a comment; the selector returns a member of the group, and no
    member has a higher score. *)
Theorem selector_score_per_graph (entities : list Term) (ontologies : list Graph) :
  (∀ n, entity_score n ontologies = score_per_graph n ontologies)
  ∧ (∀ c, choose_canonical_entity entities ontologies = Some c →
          c ∈ entities
          ∧ ∀ e, e ∈ entities → entity_score e ontologies ≤ entity_score c ontologies)
  ∧ (entities = [] ↔ choose_canonical_entity entities ontologies = None).
Proof.
  split_and!.
  - intros n. apply entity_score_per_graph.
  - intros c Hc. split.
    + rewrite choose_canonical_entity_py_max in Hc.
      destruct entities as [|x l]; [done|]. injection Hc as <-.
      apply max_from_elem_of.
    + rewrite choose_canonical_entity_py_max in Hc.
      destruct entities as [|x l]; [done|]. injection Hc as <-.
      intros e He.
      destruct (max_from_split (λ e, entity_score e ontologies) x l)
        as (pre & post & Heq & Hpre & Hpost).
      rewrite Heq in He.
      apply elem_of_app in He as [He|[->|He]%elem_of_cons]; [|done|by apply Hpost].
      specialize (Hpre _ He). simpl in Hpre. lia.
  - rewrite choose_canonical_entity_py_max. by destruct entities.
Qed.

(** C4 as claimed fails: a node labelled in two source graphs gets the
    label bonus twice. *)
Lemma score_bonus_not_once_per_node :
  let n := URIRef "http://www.example.org/test#Driver" in
  let g1 : Graph := [ (n, RDFS.label, Literal "Driver" None) ] in
  let g2 : Graph := [ (n, RDFS.label, Literal "Driver" None) ] in
  entity_score n [g1; g2] = 6 ∧ score_once_per_node n [g1; g2] = 4
  ∧ entity_score n [g1; g2] ≠ score_once_per_node n [g1; g2].
Proof. split_and!; [reflexivity|reflexivity|by vm_compute]. Qed.

(** C5 (amended): the selector is determined by the list of members it is
    handed and by their scores: two lists of source graphs that give the
    members the same scores give the same canonical node; and the node
    returned is the one member such that every member before it in the list
    has a strictly lower score and no member after it a higher one, that is
    the first in the list of the members that tie on the highest score. *)
Theorem selector_deterministic_first_in_list (entities : list Term)
    (ontologies ontologies' : list Graph) :
  ((∀ e, e ∈ entities → entity_score e ontologies = entity_score e ontologies') →
   choose_canonical_entity entities ontologies = choose_canonical_entity entities ontologies')
  ∧ (∀ c, choose_canonical_entity entities ontologies = Some c ↔
          ∃ pre post, entities = pre ++ c :: post
            ∧ (∀ e, e ∈ pre → entity_score e ontologies < entity_score c ontologies)
            ∧ (∀ e, e ∈ post → entity_score e ontologies ≤ entity_score c ontologies)).
Proof.
  assert (∀ c, choose_canonical_entity entities ontologies = Some c →
          ∃ pre post, entities = pre ++ c :: post
            ∧ (∀ e, e ∈ pre → entity_score e ontologies < entity_score c ontologies)
            ∧ (∀ e, e ∈ post → entity_score e ontologies ≤ entity_score c ontologies))
    as Hfirst.
  { intros c. rewrite choose_canonical_entity_py_max.
    destruct entities as [|x l]; [done|]. intros [= <-].
    apply (max_from_split (λ e, entity_score e ontologies)). }
  split.
  - intros Hsame. rewrite !choose_canonical_entity_py_max.
    destruct entities as [|x l]; [done|]. simpl. f_equal.
    by apply max_from_ext.
  - intros c. split; [apply Hfirst|].
    intros (pre & post & Heq & Hpre & Hpost).
    destruct (choose_canonical_entity entities ontologies) as [c'|] eqn:Hc.
    + destruct (Hfirst c' eq_refl) as (pre' & post' & Heq' & Hpre' & Hpost').
      f_equal.
      by eapply (first_best_unique (λ e, entity_score e ontologies) entities pre' post' pre post).
    + rewrite choose_canonical_entity_py_max in Hc.
      destruct entities; [by destruct pre|done].
Qed.

(** C5 as claimed fails: [:Alert] is found before [:AlertState], both
    score 1, and which of the two becomes canonical follows the order in
    which the set of the group hands out its members: [:Alert] when that is
    the order of insertion, [:AlertState] when it is the reverse. *)
Lemma tie_follows_set_order :
  let a := Example.ex "Alert" in
  let b := Example.ex "AlertState" in
  let ontologies := [Example.alerts] in
  let st1 := (merge_graphs (env := Example.env) ontologies (init default_base_uri)).1 in
  let st2 := (merge_graphs (env := Example.reversed_env) ontologies (init default_base_uri)).1 in
  collect_classes ontologies = [ ("alert", [ (a, 0, None); (b, 0, None) ]) ]
  ∧ entity_score a ontologies = 1 ∧ entity_score b ontologies = 1
  ∧ class_mappings st1 = [ (b, a) ]
  ∧ class_mappings st2 = [ (a, b) ]
  ∧ canonical_of (env := Example.reversed_env) ontologies [a; b] b
  ∧ ¬ canonical_of (env := Example.reversed_env) ontologies [a; b] a.
Proof. split_and!; [reflexivity..|by vm_compute]. Qed.

(** A tie: both members score 1, the one handed over first is returned. *)
Example selector_tie_first :
  let a := URIRef "http://www.example.org/test#Alert" in
  let b := URIRef "http://www.example.org/test#AlertState" in
  let g : Graph := [ (a, RDF.type, OWL.Class); (b, RDF.type, OWL.Class) ] in
  choose_canonical_entity [a; b] [g] = Some a ∧ choose_canonical_entity [b; a] [g] = Some b.
Proof. split; reflexivity. Qed.

(** ** Graphs *)

Lemma elem_of_graph_add (g : Graph) (t x : Triple) :
  x ∈ graph_add g t ↔ x ∈ g ∨ x = t.
Proof.
  unfold graph_add. destruct (decide (t ∈ g)) as [Hin|Hin].
  - naive_solver.
  - rewrite elem_of_app, list_elem_of_singleton. naive_solver.
Qed.

Lemma NoDup_graph_add (g : Graph) (t : Triple) : NoDup g → NoDup (graph_add g t).
Proof.
  intros Hg. unfold graph_add. destruct (decide (t ∈ g)) as [Hin|Hin]; [done|].
  apply NoDup_app. split_and!; [done| |apply NoDup_singleton].
  intros x Hx ->%list_elem_of_singleton. done.
Qed.

(** Adding the images of a list of items, one after the other. *)
Lemma elem_of_fold_graph_add {A : Type} (f : A → Triple) (l : list A) (g : Graph) (x : Triple) :
  x ∈ fold_left (λ g a, graph_add g (f a)) l g ↔ x ∈ g ∨ ∃ a, a ∈ l ∧ x = f a.
Proof.
  revert g. induction l as [|a l IH]; intros g; simpl.
  - split; [by left|]. intros [?|(a & Ha & _)]; [done|]. by apply elem_of_nil in Ha.
  - rewrite IH, elem_of_graph_add. split.
    + intros [ [? | ->] | (b & Hb & ->) ]; [by left|right..].
      * exists a. split; [apply list_elem_of_here|done].
      * exists b. split; [by apply list_elem_of_further|done].
    + intros [? | (b & [-> | Hb]%elem_of_cons & ->) ]; [by left; left|by left; right|].
      right. by exists b.
Qed.

(** ** The stages of a merge, as functions of the instance *)

Lemma set_merged_graph_id (st : Merger) : set_merged_graph (merged_graph st) st = st.
Proof. by destruct st. Qed.

Lemma set_class_mappings_id (st : Merger) : set_class_mappings (class_mappings st) st = st.
Proof. by destruct st. Qed.

Lemma set_property_mappings_id (st : Merger) :
  set_property_mappings (property_mappings st) st = st.
Proof. by destruct st. Qed.

(** The inner loop of a group, for either table. *)
Lemma fold_group (get : Merger → dict Term Term) (set : dict Term Term → Merger → Merger) :
  (∀ d st, get (set d st) = d) →
  (∀ d d' st, set d (set d' st) = set d st) →
  (∀ st, set (get st) st = st) →
  ∀ (entities : list Term) (c : Term) (st : Merger),
    fold_left (λ st e, if decide (e ≠ c) then set (dict_set (get st) e c) st else st)
              entities st
    = set (add_group (get st) entities c) st.
Proof.
  intros Hget Hset Hid entities c. unfold add_group.
  induction entities as [|e entities IH]; intros st; simpl; [by rewrite Hid|].
  rewrite IH. destruct (decide (e ≠ c)); [|done].
  by rewrite Hget, Hset.
Qed.

Section Stages.
Context {env : Env}.

Lemma choose_canonical_entity_is_Some (entities : list Term) (ontologies : list Graph) :
  1 < length entities → is_Some (choose_canonical_entity entities ontologies).
Proof.
  rewrite choose_canonical_entity_py_max. destruct entities; simpl; [lia|eauto].
Qed.

Lemma map_group_class_run (ontologies : list Graph) (members : list Term) (st : Merger) :
  map_group map_class ontologies members st
  = (set_class_mappings (add_members ontologies (class_mappings st) members) st, Some tt).
Proof.
  unfold map_group, add_members.
  destruct (1 <? length (set_iter members)) eqn:Hlen.
  - apply Nat.ltb_lt in Hlen.
    destruct (choose_canonical_entity_is_Some _ ontologies Hlen) as [c Hc].
    rewrite Hc. unfold lift_option. rewrite (bind_run _ _ st st c) by done.
    rewrite (for_each_fold _ _
      (λ st e, if decide (e ≠ c)
               then set_class_mappings (dict_set (class_mappings st) e c) st else st)).
    + by rewrite (fold_group class_mappings set_class_mappings)
        by (done || by intros []).
    + intros e st' _. by destruct (decide (e ≠ c)).
  - by rewrite set_class_mappings_id.
Qed.

Lemma map_group_property_run (ontologies : list Graph) (members : list Term) (st : Merger) :
  map_group map_property ontologies members st
  = (set_property_mappings (add_members ontologies (property_mappings st) members) st,
     Some tt).
Proof.
  unfold map_group, add_members.
  destruct (1 <? length (set_iter members)) eqn:Hlen.
  - apply Nat.ltb_lt in Hlen.
    destruct (choose_canonical_entity_is_Some _ ontologies Hlen) as [c Hc].
    rewrite Hc. unfold lift_option. rewrite (bind_run _ _ st st c) by done.
    rewrite (for_each_fold _ _
      (λ st e, if decide (e ≠ c)
               then set_property_mappings (dict_set (property_mappings st) e c) st else st)).
    + by rewrite (fold_group property_mappings set_property_mappings)
        by (done || by intros []).
    + intros e st' _. by destruct (decide (e ≠ c)).
  - by rewrite set_property_mappings_id.
Qed.

(** The loop over the groups, for either table. *)
Lemma fold_groups (get : Merger → dict Term Term) (set : dict Term Term → Merger → Merger)
    (ontologies : list Graph) :
  (∀ d st, get (set d st) = d) →
  (∀ d d' st, set d (set d' st) = set d st) →
  (∀ st, set (get st) st = st) →
  ∀ (groups : dict string (list Term)) (st : Merger),
    fold_left (λ st (kv : string * list Term), set (add_members ontologies (get st) kv.2) st)
              groups st
    = set (add_groups ontologies (get st) (snd <$> groups)) st.
Proof.
  intros Hget Hset Hid groups. unfold add_groups.
  induction groups as [|[k v] groups IH]; intros st; simpl; [by rewrite Hid|].
  by rewrite IH, Hget, Hset.
Qed.

(** [create_entity_mappings] never raises. *)
Lemma create_entity_mappings_run (similar_classes similar_properties : dict string (list Term))
    (ontologies : list Graph) (st : Merger) :
  create_entity_mappings similar_classes similar_properties ontologies st
  = (with_mappings similar_classes similar_properties ontologies st, Some tt).
Proof.
  unfold create_entity_mappings, with_mappings.
  rewrite (bind_run _ _ st
    (set_class_mappings
       (add_groups ontologies (class_mappings st) (snd <$> similar_classes)) st) tt).
  - rewrite (for_each_fold _ _
      (λ st (kv : string * list Term),
         set_property_mappings (add_members ontologies (property_mappings st) kv.2) st)).
    + by rewrite (fold_groups property_mappings set_property_mappings)
        by (done || by intros []).
    + intros [k v] st' _. apply map_group_property_run.
  - rewrite (for_each_fold _ _
      (λ st (kv : string * list Term),
         set_class_mappings (add_members ontologies (class_mappings st) kv.2) st)).
    + by rewrite (fold_groups class_mappings set_class_mappings)
        by (done || by intros []).
    + intros [k v] st' _. apply map_group_class_run.
Qed.

(** [add_graph_with_mappings] adds the rewritten triples and touches
    nothing else. *)
Lemma add_graph_with_mappings_run (graph : Graph) (i : nat) (st : Merger) :
  add_graph_with_mappings graph i st
  = (set_merged_graph
       (fold_left (λ g t, graph_add g (rewrite_triple st t)) graph (merged_graph st)) st,
     Some tt).
Proof.
  unfold add_graph_with_mappings.
  rewrite (for_each_fold _ _
    (λ st' t, set_merged_graph (graph_add (merged_graph st') (rewrite_triple st' t)) st'))
    by done.
  f_equal. induction graph as [|t graph IH] in st |- *; simpl.
  - by rewrite set_merged_graph_id.
  - rewrite IH. by destruct st.
Qed.

Lemma add_inverse_property_declarations_run (st : Merger) :
  add_inverse_property_declarations st
  = (set_merged_graph
       (fold_left (λ g t, graph_add g t)
                  (omap (inverse_declaration st) (inverse_properties st))
                  (merged_graph st)) st,
     Some tt).
Proof.
  unfold add_inverse_property_declarations.
  rewrite (bind_run _ _ st st st) by done.
  rewrite (for_each_fold _ _
    (λ st' pair, match inverse_declaration st' pair with
                 | Some t => set_merged_graph (graph_add (merged_graph st') t) st'
                 | None => st'
                 end)).
  - f_equal. generalize (inverse_properties st) as pairs.
    intros pairs. induction pairs as [|pair pairs IH] in st |- *; simpl.
    + by rewrite set_merged_graph_id.
    + destruct (inverse_declaration st pair) as [t|] eqn:Ht; simpl.
      * rewrite IH. unfold inverse_declaration in *. by destruct st.
      * apply IH.
  - intros [p1 p2] st' _. rewrite (bind_run _ _ st' st' st') by done.
    unfold inverse_declaration. simpl. by destruct (decide (_ ≠ _)).
Qed.

Lemma restrictions_to_remove_nil (g : Graph) : restrictions_to_remove g = [].
Proof.
  unfold restrictions_to_remove.
  induction (triples g None (Some RDFS.subClassOf) None) as [|t l IH]; [done|].
  simpl. by repeat destruct (_ : bool).
Qed.

(** The clean-up pass removes nothing. *)
Lemma clean_redundant_restrictions_run (st : Merger) :
  clean_redundant_restrictions st = (st, Some tt).
Proof.
  unfold clean_redundant_restrictions.
  rewrite (bind_run _ _ st st st) by done.
  by rewrite restrictions_to_remove_nil.
Qed.

End Stages.

Section Merge.
Context {env : Env}.

Lemma elem_of_enumerate_from {A : Type} (l : list A) (k : nat) (x : A) :
  x ∈ l ↔ ∃ i, (i, x) ∈ enumerate_from k l.
Proof.
  revert k. induction l as [|y l IH]; intros k; simpl.
  - split; [by intros ?%elem_of_nil|by intros [i ?%elem_of_nil] ].
  - rewrite elem_of_cons, (IH (S k)). split.
    + intros [-> | [i Hi] ]; [exists k; apply list_elem_of_here|].
      exists i. by apply list_elem_of_further.
    + intros [i [ [= -> ->] | Hi]%elem_of_cons]; [by left|right; by exists i].
Qed.

(** The loop that adds the source graphs: only the merged graph changes,
    and it gains exactly the rewritten triples. *)
Lemma add_graphs_run (l : list (nat * Graph)) (st : Merger) :
  ∃ g', for_each l (λ '(i, graph), add_graph_with_mappings graph i) st
        = (set_merged_graph g' st, Some tt)
      ∧ ∀ x, x ∈ g' ↔ x ∈ merged_graph st
                      ∨ ∃ (ig : nat * Graph) t, ig ∈ l ∧ t ∈ ig.2 ∧ x = rewrite_triple st t.
Proof.
  induction l as [|[i g] l IH] in st |- *; simpl.
  - exists (merged_graph st). rewrite set_merged_graph_id. split; [done|].
    intros x. split; [by left|]. intros [?|(ig & t & ?%elem_of_nil & _)]; done.
  - rewrite (bind_run _ _ _ _ _ (add_graph_with_mappings_run g i st)).
    destruct (IH (set_merged_graph
      (fold_left (λ acc t, graph_add acc (rewrite_triple st t)) g (merged_graph st)) st))
      as (g' & Hrun & Hg').
    exists g'. split; [rewrite Hrun; by destruct st|].
    intros x. rewrite Hg'. simpl. rewrite elem_of_fold_graph_add. split.
    + intros [ [? | (t & Ht & ->)] | (ig & t & Hig & Ht & ->) ]; [by left|right..].
      * exists (i, g), t. split_and!; [apply list_elem_of_here|done..].
      * exists ig, t. split_and!; [by apply list_elem_of_further|done..].
    + intros [? | (ig & t & [-> | Hig]%elem_of_cons & Ht & ->) ].
      * by left; left.
      * left; right. by exists t.
      * right. by exists ig, t.
Qed.

(** What one merge does to the instance.  It never raises; the mapping
    tables gain the entries of the groups found in the sources; the merged
    graph keeps what it held and gains the rewritten source triples and the
    inverse declarations of the pairs on file. *)
Lemma merge_graphs_spec (ontologies : list Graph) (st : Merger) :
  ∃ g', merge_graphs ontologies st
        = (set_merged_graph g'
             (with_mappings (find_similar_classes ontologies)
                (group_properties (collect_properties ontologies)) ontologies st),
           Some tt)
      ∧ ∀ x, x ∈ g' ↔
          x ∈ merged_graph st
          ∨ (∃ g t, g ∈ ontologies ∧ t ∈ g
               ∧ x = rewrite_triple
                       (with_mappings (find_similar_classes ontologies)
                          (group_properties (collect_properties ontologies)) ontologies st) t)
          ∨ (∃ pair, pair ∈ inverse_properties st
               ∧ inverse_declaration
                   (with_mappings (find_similar_classes ontologies)
                      (group_properties (collect_properties ontologies)) ontologies st) pair
                 = Some x).
Proof.
  unfold merge_graphs.
  rewrite (bind_run _ _ _ _ _ (find_similar_properties_run ontologies st)).
  rewrite (bind_run _ _ _ _ _ (create_entity_mappings_run _ _ ontologies st)).
  set (st1 := with_mappings _ _ ontologies st).
  destruct (add_graphs_run (enumerate ontologies) st1) as (g2 & Hrun & Hg2).
  rewrite (bind_run _ _ _ _ _ Hrun).
  rewrite (bind_run _ _ _ _ _ (add_inverse_property_declarations_run _)).
  rewrite clean_redundant_restrictions_run. simpl.
  eexists. split; [reflexivity|].
  intros x. rewrite elem_of_fold_graph_add. simpl. rewrite Hg2. split.
  - intros [ [? | (ig & t & Hig & Ht & ->)] | (t & Ht & ->) ].
    + by left.
    + right; left. exists ig.2, t. split_and!; [|done..].
      apply (elem_of_enumerate_from _ 0). exists ig.1. by destruct ig.
    + right; right. apply list_elem_of_omap in Ht as (pair & Hpair & Hdecl).
      by exists pair.
  - intros [? | [ (g & t & Hg & Ht & ->) | (pair & Hpair & Hdecl) ] ].
    + by left; left.
    + left; right. apply (elem_of_enumerate_from _ 0) in Hg as [i Hi].
      by exists (i, g), t.
    + right. exists x. split; [|done]. apply list_elem_of_omap. by exists pair.
Qed.

End Merge.

(** ** The mapping tables after [create_entity_mappings] *)

Lemma dict_get_add_group (m : dict Term Term) (entities : list Term) (c x : Term) :
  dict_get (add_group m entities c) x
  = if decide (x ∈ entities ∧ x ≠ c) then Some c else dict_get m x.
Proof.
  unfold add_group. induction entities as [|e entities IH] in m |- *.
  - destruct (decide (x ∈ [] ∧ x ≠ c)) as [ [?%elem_of_nil _] |]; done.
  - cbn [fold_left]. rewrite IH.
    destruct (decide (x ∈ entities ∧ x ≠ c)) as [ [Hin Hne] |Hn].
    + rewrite decide_True; [done|]. split; [by apply list_elem_of_further|done].
    + destruct (decide (e ≠ c)) as [Hec|Hec].
      * rewrite dict_get_set. destruct (decide (e = x)) as [->|Hex].
        -- rewrite decide_True; [done|]. split; [apply list_elem_of_here|done].
        -- rewrite decide_False; [done|].
           intros [ [-> | Hin]%elem_of_cons Hne]; [done|]. by apply Hn.
      * apply dec_stable in Hec. subst e. rewrite decide_False; [done|].
        intros [ [-> | Hin]%elem_of_cons Hne]; [done|]. by apply Hn.
Qed.

Section Tables.
Context {env : Env}.

Lemma elem_of_set_iter (l : list Term) (x : Term) : x ∈ set_iter l ↔ x ∈ l.
Proof. by rewrite (set_iter_perm l). Qed.

Lemma canonical_of_elem_of (ontologies : list Graph) (members : list Term) (c : Term) :
  canonical_of ontologies members c → c ∈ members.
Proof.
  unfold canonical_of. rewrite choose_canonical_entity_py_max. intros Hc.
  apply elem_of_set_iter. destruct (set_iter members) as [|x l]; [done|].
  injection Hc as <-. apply max_from_elem_of.
Qed.

(** One group: an entry of the table afterwards was there before or maps
    a member of the group to its canonical node. *)
Lemma dict_get_add_members (ontologies : list Graph) (m : dict Term Term)
    (members : list Term) (x v : Term) :
  dict_get (add_members ontologies m members) x = Some v →
  dict_get m x = Some v
  ∨ (duplicate_group members ∧ canonical_of ontologies members v ∧ x ∈ members ∧ x ≠ v).
Proof.
  unfold add_members, duplicate_group, canonical_of.
  destruct (1 <? length (set_iter members)) eqn:Hlen; [|by left].
  apply Nat.ltb_lt in Hlen.
  destruct (choose_canonical_entity (set_iter members) ontologies) as [c|]; [|by left].
  rewrite dict_get_add_group.
  destruct (decide (x ∈ set_iter members ∧ x ≠ c)) as [ [Hin Hne] |Hn]; [|by left].
  intros [= <-]. right. by rewrite <- elem_of_set_iter.
Qed.

(** One group: the keys afterwards are the keys before and the
    non-canonical members of the group. *)
Lemma dict_mem_add_members (ontologies : list Graph) (m : dict Term Term)
    (members : list Term) (x : Term) :
  dict_mem (add_members ontologies m members) x = true ↔
  dict_mem m x = true
  ∨ ∃ c, duplicate_group members ∧ canonical_of ontologies members c ∧ x ∈ members ∧ x ≠ c.
Proof.
  unfold add_members, duplicate_group, canonical_of.
  destruct (1 <? length (set_iter members)) eqn:Hlen.
  - apply Nat.ltb_lt in Hlen.
    destruct (choose_canonical_entity_is_Some _ ontologies Hlen) as [c Hc].
    rewrite Hc. unfold dict_mem. rewrite dict_get_add_group.
    destruct (decide (x ∈ set_iter members ∧ x ≠ c)) as [ [Hin Hne] |Hn].
    + split; [|done]. intros _. right. exists c. by rewrite <- elem_of_set_iter.
    + split; [by left|]. intros [?|(c' & _ & [= <-] & Hin & Hne)]; [done|].
      exfalso. apply Hn. by rewrite elem_of_set_iter.
  - apply Nat.ltb_ge in Hlen. split; [by left|].
    intros [?|(c & ? & _)]; [done|lia].
Qed.

(** Every entry of the table comes from the table as it was or maps a
    member of a group to the canonical node of that group. *)
Lemma dict_get_add_groups (ontologies : list Graph) (m : dict Term Term)
    (groups : list (list Term)) (x v : Term) :
  dict_get (add_groups ontologies m groups) x = Some v →
  dict_get m x = Some v
  ∨ ∃ members, members ∈ groups ∧ duplicate_group members
               ∧ canonical_of ontologies members v ∧ x ∈ members ∧ x ≠ v.
Proof.
  unfold add_groups. induction groups as [|g groups IH] in m |- *; simpl; [by left|].
  intros [Hg | (members & Hin & Hrest)]%IH.
  - apply dict_get_add_members in Hg as [Hg | Hg]; [by left|].
    right. exists g. split; [apply list_elem_of_here|done].
  - right. exists members. split; [by apply list_elem_of_further|done].
Qed.

(** Every key stays a key, and every non-canonical member of a group
    becomes one. *)
Lemma dict_mem_add_groups (ontologies : list Graph) (m : dict Term Term)
    (groups : list (list Term)) (x : Term) :
  dict_mem (add_groups ontologies m groups) x = true ↔
  dict_mem m x = true ∨ non_canonical ontologies groups x.
Proof.
  unfold add_groups, non_canonical.
  induction groups as [|g groups IH] in m |- *; simpl.
  - split; [by left|]. intros [?|(members & c & ?%elem_of_nil & _)]; done.
  - rewrite IH, dict_mem_add_members. split.
    + intros [ [? | (c & Hc)] | (members & c & Hin & Hrest) ]; [by left|right..].
      * exists g, c. split; [apply list_elem_of_here|done].
      * exists members, c. split; [by apply list_elem_of_further|done].
    + intros [? | (members & c & [-> | Hin]%elem_of_cons & Hrest) ].
      * by left; left.
      * left; right. by exists c.
      * right. by exists members, c.
Qed.

End Tables.

(** ** Only [URIRef]s are grouped *)

Lemma fold_left_invariant {A B : Type} (P : B → Prop) (f : B → A → B) (l : list A) (b : B) :
  P b → (∀ b x, P b → x ∈ l → P (f b x)) → P (fold_left f l b).
Proof.
  induction l as [|x l IH] in b |- *; intros Hb Hstep; simpl; [done|].
  apply IH.
  - apply Hstep; [done|apply list_elem_of_here].
  - intros b' y Hb' Hy. apply Hstep; [done|by apply list_elem_of_further].
Qed.

Section ValuesAll.
Context {K V : Type} `{EqDecision K} (Q : V → Prop).

Lemma values_all_set (d : dict K V) (k : K) (v : V) :
  values_all Q d → Q v → values_all Q (dict_set d k v).
Proof.
  unfold values_all. intros Hd Hv. induction d as [|[k0 v0] d IH]; simpl.
  - by repeat constructor.
  - apply Forall_cons in Hd as [Hv0 Hd].
    destruct (decide (k0 = k)); constructor; auto.
Qed.

Lemma values_all_get (d : dict K V) (k : K) (v : V) :
  values_all Q d → dict_get d k = Some v → Q v.
Proof.
  unfold values_all. intros Hd. induction d as [|[k0 v0] d IH]; simpl; [done|].
  apply Forall_cons in Hd as [Hv0 Hd].
  destruct (decide (k0 = k)); [by intros [= <-]|auto].
Qed.

Lemma values_all_elem_of (d : dict K V) (v : V) :
  values_all Q d → v ∈ (snd <$> d) → Q v.
Proof.
  unfold values_all. rewrite Forall_forall.
  intros Hd (kv & -> & Hkv)%list_elem_of_fmap. by apply Hd.
Qed.

End ValuesAll.

Lemma values_all_append {V : Type} (Q : V → Prop) (d : dict string (list V)) (k : string) (x : V) :
  values_all (Forall Q) d → Q x → values_all (Forall Q) (dict_append d k x).
Proof.
  intros Hd Hx. unfold dict_append. destruct (dict_get d k) as [l|] eqn:Hg.
  - apply values_all_set; [done|]. apply Forall_app. split; [|by repeat constructor].
    by eapply values_all_get.
  - apply values_all_set; [done|]. by repeat constructor.
Qed.

Lemma elem_of_dedup_first {A : Type} `{EqDecision A} (l : list A) (x : A) :
  x ∈ dedup_first l ↔ x ∈ l.
Proof.
  induction l as [|y l IH]; simpl; [done|].
  rewrite !elem_of_cons, list_elem_of_filter, IH.
  destruct (decide (x = y)); naive_solver.
Qed.

Lemma NoDup_dedup_first {A : Type} `{EqDecision A} (l : list A) : NoDup (dedup_first l).
Proof.
  induction l as [|y l IH]; simpl; constructor.
  - rewrite list_elem_of_filter. naive_solver.
  - by apply NoDup_filter.
Qed.

Lemma collect_classes_uris (ontologies : list Graph) :
  values_all (Forall (λ e : ClassEntry, is_URIRef e.1.1 = true)) (collect_classes ontologies).
Proof.
  unfold collect_classes. apply fold_left_invariant; [constructor|].
  intros all [i graph] Hall _. apply fold_left_invariant; [done|].
  intros all' class_uri Hall' _. destruct (is_URIRef class_uri) eqn:Huri; [|done].
  by apply values_all_append.
Qed.

Lemma find_similar_classes_uris (ontologies : list Graph) :
  values_all (Forall (λ x, is_URIRef x = true)) (find_similar_classes ontologies).
Proof.
  unfold find_similar_classes.
  apply (fold_left_invariant (values_all (Forall (λ x, is_URIRef x = true))));
    [constructor|].
  intros similar [normalized classes] Hsim Hin.
  destruct (1 <? length classes); [|done].
  apply values_all_set; [done|]. apply Forall_forall. intros x Hx.
  apply elem_of_dedup_first, list_elem_of_fmap in Hx as (e & -> & He).
  pose proof (collect_classes_uris ontologies) as Hall.
  unfold values_all in Hall. rewrite Forall_forall in Hall.
  specialize (Hall _ Hin). simpl in Hall. rewrite Forall_forall in Hall. by apply Hall.
Qed.

Section GroupedUris.
Context {env : Env}.

Lemma collect_properties_uris (ontologies : list Graph) :
  values_all (Forall (λ e : PropEntry, is_URIRef e.1.1.1 = true))
             (collect_properties ontologies).
Proof.
  unfold collect_properties. apply fold_left_invariant; [constructor|].
  intros all [i graph] Hall _. apply fold_left_invariant; [done|].
  intros all' prop_uri Hall' _. destruct (is_URIRef prop_uri) eqn:Huri; [|done].
  by apply values_all_append.
Qed.

Lemma group_properties_uris (ontologies : list Graph) :
  values_all (Forall (λ x, is_URIRef x = true))
             (group_properties (collect_properties ontologies)).
Proof.
  unfold group_properties.
  apply (fold_left_invariant (values_all (Forall (λ x, is_URIRef x = true))));
    [constructor|].
  intros similar [normalized properties] Hsim Hin.
  destruct (1 <? length properties); [|done].
  apply values_all_set; [done|]. apply Forall_forall. intros x Hx.
  apply elem_of_dedup_first, list_elem_of_fmap in Hx as (e & -> & He).
  pose proof (collect_properties_uris ontologies) as Hall.
  unfold values_all in Hall. rewrite Forall_forall in Hall.
  specialize (Hall _ Hin). simpl in Hall. rewrite Forall_forall in Hall. by apply Hall.
Qed.

Lemma groups_of_uris (ontologies : list Graph) (members : list Term) (x : Term) :
  members ∈ groups_of ontologies → x ∈ members → is_URIRef x = true.
Proof.
  unfold groups_of, groups_in. intros [Hm|Hm]%elem_of_app Hx.
  - pose proof (values_all_elem_of _ _ _ (find_similar_classes_uris ontologies) Hm) as Hall.
    rewrite Forall_forall in Hall. by apply Hall.
  - pose proof (values_all_elem_of _ _ _ (group_properties_uris ontologies) Hm) as Hall.
    rewrite Forall_forall in Hall. by apply Hall.
Qed.

Lemma non_canonical_app (ontologies : list Graph) (groups1 groups2 : list (list Term)) (x : Term) :
  non_canonical ontologies (groups1 ++ groups2) x ↔
  non_canonical ontologies groups1 x ∨ non_canonical ontologies groups2 x.
Proof.
  unfold non_canonical. setoid_rewrite elem_of_app. naive_solver.
Qed.

(** The keys after [create_entity_mappings]: the keys before and the
    non-canonical members of the groups. *)
Lemma mapped_with_mappings (similar_classes similar_properties : dict string (list Term))
    (ontologies : list Graph) (st : Merger) (x : Term) :
  mapped (with_mappings similar_classes similar_properties ontologies st) x = true ↔
  mapped st x = true
  ∨ non_canonical ontologies (groups_in similar_classes similar_properties) x.
Proof.
  unfold mapped, with_mappings, groups_in. simpl.
  rewrite !orb_true_iff, !dict_mem_add_groups, non_canonical_app. tauto.
Qed.

Lemma with_mappings_uri_keys (ontologies : list Graph) (st : Merger) :
  uri_keys st →
  uri_keys (with_mappings (find_similar_classes ontologies)
              (group_properties (collect_properties ontologies)) ontologies st).
Proof.
  intros [Hc Hp]. split; simpl; intros k [Hk | (members & c & Hm & _ & _ & Hin & _)]%dict_mem_add_groups;
    [by apply Hc| |by apply Hp|].
  - apply (groups_of_uris ontologies members); [|done].
    apply elem_of_app. by left.
  - apply (groups_of_uris ontologies members); [|done].
    apply elem_of_app. by right.
Qed.

Lemma apply_mapping_not_uri (st : Merger) (x : Term) :
  uri_keys st → is_URIRef x = false → apply_mapping st x = x.
Proof.
  intros [Hc Hp] Hx. unfold apply_mapping.
  destruct (dict_get (class_mappings st) x) eqn:Hgc.
  { specialize (Hc x). unfold dict_mem in Hc. rewrite Hgc in Hc.
    rewrite Hc in Hx by done. done. }
  destruct (dict_get (property_mappings st) x) eqn:Hgp; [|done].
  specialize (Hp x). unfold dict_mem in Hp. rewrite Hgp in Hp.
  rewrite Hp in Hx by done. done.
Qed.

Lemma apply_mapping_unmapped (st : Merger) (x : Term) :
  mapped st x = false → apply_mapping st x = x.
Proof.
  unfold mapped, dict_mem, apply_mapping.
  destruct (dict_get (class_mappings st) x); [done|].
  by destruct (dict_get (property_mappings st) x).
Qed.

End GroupedUris.

(** ** Canonical nodes and the mapping *)

Lemma elem_of_concat_intro {A : Type} (ls : list (list A)) (l : list A) (x : A) :
  l ∈ ls → x ∈ l → x ∈ concat ls.
Proof.
  induction ls as [|l0 ls IH]; simpl; [by intros ?%elem_of_nil|].
  intros [-> | Hl]%elem_of_cons Hx; apply elem_of_app; [by left|right; by apply IH].
Qed.

Section Canonical.
Context {env : Env}.

Lemma pairwise_disjoint_same (groups : list (list Term)) (g1 g2 : list Term) (x : Term) :
  pairwise_disjoint groups → g1 ∈ groups → g2 ∈ groups →
  duplicate_group g1 → duplicate_group g2 → x ∈ g1 → x ∈ g2 → g1 = g2.
Proof.
  intros Hdisj [i Hi]%list_elem_of_lookup [j Hj]%list_elem_of_lookup Hd1 Hd2 Hx1 Hx2.
  pose proof (Hdisj i j g1 g2 x Hi Hj Hd1 Hd2 Hx1 Hx2) as <-. congruence.
Qed.

(** A way to check it: going through the duplicate groups of the list, no
    node is met twice. *)
Lemma pairwise_disjoint_NoDup (groups : list (list Term)) :
  NoDup (concat (filter (λ members, 1 < length (set_iter members)) groups)) →
  pairwise_disjoint groups.
Proof.
  unfold pairwise_disjoint, duplicate_group.
  induction groups as [|g groups IH]; intros Hnodup i j g1 g2 x Hi Hj Hd1 Hd2 Hx1 Hx2.
  { by rewrite lookup_nil in Hi. }
  assert (∀ g', g' ∈ groups → 1 < length (set_iter g') → x ∈ g' →
                x ∈ concat (filter (λ members, 1 < length (set_iter members)) groups))
    as Hconcat.
  { intros g' Hg' Hd' Hx'. apply (elem_of_concat_intro _ g'); [|done].
    by apply list_elem_of_filter. }
  destruct (decide (1 < length (set_iter g))) as [Hg|Hg].
  - rewrite filter_cons_True in Hnodup by done. simpl in Hnodup.
    apply NoDup_app in Hnodup as (_ & Hsep & Hrest).
    destruct i as [|i], j as [|j]; simpl in Hi, Hj; [done| | |].
    + injection Hi as <-. destruct (Hsep x Hx1).
      apply (Hconcat g2); [|done..]. apply list_elem_of_lookup. by exists j.
    + injection Hj as <-. destruct (Hsep x Hx2).
      apply (Hconcat g1); [|done..]. apply list_elem_of_lookup. by exists i.
    + f_equal. by apply (IH Hrest i j g1 g2 x).
  - rewrite filter_cons_False in Hnodup by done.
    destruct i as [|i], j as [|j]; simpl in Hi, Hj; [done| | |].
    + injection Hi as <-. done.
    + injection Hj as <-. done.
    + f_equal. by apply (IH Hnodup i j g1 g2 x).
Qed.

(** With disjoint groups and tables that started empty, the canonical node
    of a duplicate group is not a key of either table. *)
Lemma canonical_not_mapped (similar_classes similar_properties : dict string (list Term))
    (ontologies : list Graph) (st : Merger) (members : list Term) (c : Term) :
  class_mappings st = [] → property_mappings st = [] →
  pairwise_disjoint (groups_in similar_classes similar_properties) →
  members ∈ groups_in similar_classes similar_properties →
  duplicate_group members →
  canonical_of ontologies members c →
  mapped (with_mappings similar_classes similar_properties ontologies st) c = false.
Proof.
  intros Hcm Hpm Hdisj Hmem Hdup Hcan.
  destruct (mapped _ c) eqn:Hmapped; [|done]. exfalso.
  apply mapped_with_mappings in Hmapped
    as [Hst | (members' & c' & Hmem' & Hdup' & Hcan' & Hin & Hne)].
  - unfold mapped in Hst. by rewrite Hcm, Hpm in Hst.
  - pose proof (canonical_of_elem_of _ _ _ Hcan) as Hc.
    pose proof (pairwise_disjoint_same _ _ _ _ Hdisj Hmem Hmem' Hdup Hdup' Hc Hin) as <-.
    unfold canonical_of in *. congruence.
Qed.

(** With tables that started empty, what a node is mapped to is the node
    itself, or the canonical node of a group the node belongs to. *)
Lemma apply_mapping_with_mappings (similar_classes similar_properties : dict string (list Term))
    (ontologies : list Graph) (st : Merger) (x : Term) :
  class_mappings st = [] → property_mappings st = [] →
  let st' := with_mappings similar_classes similar_properties ontologies st in
  (mapped st' x = false ∧ apply_mapping st' x = x)
  ∨ ∃ members, members ∈ groups_in similar_classes similar_properties
               ∧ duplicate_group members
               ∧ canonical_of ontologies members (apply_mapping st' x)
               ∧ x ∈ members.
Proof.
  intros Hcm Hpm st'. unfold groups_in.
  destruct (mapped st' x) eqn:Hmapped.
  - right. unfold mapped, dict_mem, apply_mapping in *. subst st'. simpl in *.
    destruct (dict_get (add_groups _ (class_mappings st) _) x) as [v|] eqn:Hc.
    + apply dict_get_add_groups in Hc as [Hc | (members & Hmem & Hdup & Hcan & Hin & _)].
      { by rewrite Hcm in Hc. }
      exists members. split_and!; [|done..]. apply elem_of_app. by left.
    + destruct (dict_get (add_groups _ (property_mappings st) _) x) as [v|] eqn:Hp; [|done].
      apply dict_get_add_groups in Hp as [Hp | (members & Hmem & Hdup & Hcan & Hin & _)].
      { by rewrite Hpm in Hp. }
      exists members. split_and!; [|done..]. apply elem_of_app. by right.
  - left. split; [done|]. by apply apply_mapping_unmapped.
Qed.

(** Nothing a node is mapped to is itself mapped. *)
Lemma apply_mapping_not_mapped (similar_classes similar_properties : dict string (list Term))
    (ontologies : list Graph) (st : Merger) (x : Term) :
  class_mappings st = [] → property_mappings st = [] →
  pairwise_disjoint (groups_in similar_classes similar_properties) →
  let st' := with_mappings similar_classes similar_properties ontologies st in
  mapped st' (apply_mapping st' x) = false.
Proof.
  intros Hcm Hpm Hdisj st'.
  destruct (apply_mapping_with_mappings similar_classes similar_properties ontologies st x Hcm Hpm)
    as [ [Hun Heq] | (members & Hmem & Hdup & Hcan & _) ].
  - fold st' in Heq. by rewrite Heq.
  - by eapply canonical_not_mapped.
Qed.

(** C3 (amended): when no node belongs to two duplicate groups (sets of
    two or more nodes; class groups and property groups taken together) the
    mapping the selector produces in empty tables is idempotent, and the
    canonical node of every duplicate group is not a key of the mapping
    tables. *)
Theorem mapping_idempotent_for_disjoint_groups
    (similar_classes similar_properties : dict string (list Term))
    (ontologies : list Graph) (st : Merger) :
  class_mappings st = [] → property_mappings st = [] →
  pairwise_disjoint (groups_in similar_classes similar_properties) →
  let st' := (create_entity_mappings similar_classes similar_properties ontologies st).1 in
  (∀ n, apply_mapping st' (apply_mapping st' n) = apply_mapping st' n)
  ∧ (∀ members c, members ∈ groups_in similar_classes similar_properties →
                  duplicate_group members →
                  canonical_of ontologies members c → mapped st' c = false).
Proof.
  intros Hcm Hpm Hdisj. rewrite create_entity_mappings_run. simpl. split.
  - intros n. apply apply_mapping_unmapped. by apply apply_mapping_not_mapped.
  - intros members c Hmem Hdup Hcan. by eapply canonical_not_mapped.
Qed.

End Canonical.

(** An engine just created and two entries that share [:Alert]: the first
    holds [:Alert] alone (a class met twice under one name) and is no
    duplicate group, the second is the duplicate group of [:Alert] and
    [:Warning]. *)
Lemma mapping_idempotent_for_disjoint_groups_witness :
  let similar_classes : dict string (list Term) :=
    [ ("alert", [Example.ex "Alert"]);
      ("warning", [Example.ex "Alert"; Example.ex "Warning"]) ] in
  let ontologies := [Example.alerts; Example.warnings] in
  let st := init default_base_uri in
  let st' := (create_entity_mappings (env := Example.env) similar_classes []
                ontologies st).1 in
  (class_mappings st = [] ∧ property_mappings st = []
   ∧ pairwise_disjoint (env := Example.env) (groups_in similar_classes []))
  ∧ class_mappings st' = [ (Example.ex "Alert", Example.ex "Warning") ]
  ∧ (∀ n, apply_mapping st' (apply_mapping st' n) = apply_mapping st' n)
  ∧ (∀ members c, members ∈ groups_in similar_classes [] →
                  duplicate_group (env := Example.env) members →
                  canonical_of (env := Example.env) ontologies members c →
                  mapped st' c = false).
Proof.
  intros similar_classes ontologies st st'.
  assert (pairwise_disjoint (env := Example.env) (groups_in similar_classes [])) as Hdisj.
  { apply (pairwise_disjoint_NoDup (env := Example.env)).
    apply (bool_decide_unpack _). vm_compute. exact I. }
  split; [by split_and!|]. split; [reflexivity|].
  exact (mapping_idempotent_for_disjoint_groups (env := Example.env)
           similar_classes [] ontologies st eq_refl eq_refl Hdisj).
Defined.

(** C3 as claimed fails: [:Alert] is canonical for the group "alert" and a
    non-canonical member of the group "warning", so it is a key of the
    mapping table, and mapping [:AlertState] twice does not give what
    mapping it once gives. *)
Lemma mapping_not_idempotent :
  let st' := (merge_graphs (env := Example.env) [Example.alerts; Example.warnings]
                (init default_base_uri)).1 in
  find_similar_classes [Example.alerts; Example.warnings]
  = [ ("alert", [Example.ex "Alert"; Example.ex "AlertState"]);
      ("warning", [Example.ex "Alert"; Example.ex "Warning"]) ]
  ∧ canonical_of (env := Example.env) [Example.alerts; Example.warnings]
      [Example.ex "Alert"; Example.ex "AlertState"] (Example.ex "Alert")
  ∧ mapped st' (Example.ex "Alert") = true
  ∧ apply_mapping st' (Example.ex "AlertState") = Example.ex "Alert"
  ∧ apply_mapping st' (apply_mapping st' (Example.ex "AlertState")) = Example.ex "Warning"
  ∧ apply_mapping st' (apply_mapping st' (Example.ex "AlertState"))
    ≠ apply_mapping st' (Example.ex "AlertState").
Proof. split_and!; [reflexivity..|by vm_compute]. Qed.

(** ** The in-place merge of duplicates *)

Lemma elem_of_triples (g : Graph) (s p o : option Term) (t : Triple) :
  t ∈ triples g s p o ↔
  t ∈ g ∧ pos_matches s (subj t) && pos_matches p (pred t) && pos_matches o (obj t) = true.
Proof. unfold triples. rewrite list_elem_of_filter. tauto. Qed.

Lemma elem_of_fold_graph_add_if {A : Type} (P : A → Prop) `{∀ a, Decision (P a)}
    (f : A → Triple) (l : list A) (g : Graph) (x : Triple) :
  x ∈ fold_left (λ g a, if decide (P a) then graph_add g (f a) else g) l g ↔
  x ∈ g ∨ ∃ a, a ∈ l ∧ P a ∧ x = f a.
Proof.
  revert g. induction l as [|a l IH]; intros g; simpl.
  - split; [by left|]. intros [?|(a & Ha & _)]; [done|]. by apply elem_of_nil in Ha.
  - rewrite IH. destruct (decide (P a)) as [HP|HP].
    + rewrite elem_of_graph_add. split.
      * intros [ [? | ->] | (b & Hb & HPb & ->) ]; [by left|right..].
        -- exists a. split_and!; [apply list_elem_of_here|done..].
        -- exists b. split_and!; [by apply list_elem_of_further|done..].
      * intros [? | (b & [-> | Hb]%elem_of_cons & HPb & ->) ];
          [by left; left|by left; right|].
        right. by exists b.
    + split.
      * intros [? | (b & Hb & HPb & ->) ]; [by left|right].
        exists b. split_and!; [by apply list_elem_of_further|done..].
      * intros [? | (b & [-> | Hb]%elem_of_cons & HPb & ->) ]; [by left|done|].
        right. by exists b.
Qed.

Lemma elem_of_graph_remove_pattern (g : Graph) (s p o : option Term) (t : Triple) :
  t ∈ Duplicates.graph_remove_pattern g s p o ↔
  t ∈ g ∧ pos_matches s (subj t) && pos_matches p (pred t) && pos_matches o (obj t) = false.
Proof.
  unfold Duplicates.graph_remove_pattern. rewrite list_elem_of_filter.
  destruct (pos_matches s (subj t) && pos_matches p (pred t) && pos_matches o (obj t));
    naive_solver.
Qed.

Lemma pos_matches_some (x y : Term) : pos_matches (Some x) y = true ↔ x = y.
Proof. simpl. apply bool_decide_eq_true. Qed.

Lemma elem_of_triples_subject (g : Graph) (n : Term) (t : Triple) :
  t ∈ triples g (Some n) None None ↔ t ∈ g ∧ subj t = n.
Proof.
  rewrite elem_of_triples. simpl. rewrite !andb_true_r, bool_decide_eq_true. naive_solver.
Qed.

Lemma elem_of_triples_object (g : Graph) (n : Term) (t : Triple) :
  t ∈ triples g None None (Some n) ↔ t ∈ g ∧ obj t = n.
Proof. rewrite elem_of_triples. simpl. rewrite bool_decide_eq_true. naive_solver. Qed.

(** What [transfer_relationships] puts into the graph. *)
Lemma elem_of_transfer_relationships (g : Graph) (source_uri target_uri : Term) (x : Triple) :
  x ∈ g
  ∨ (∃ t, t ∈ g ∧ obj t = source_uri ∧ x = (subj t, pred t, target_uri))
  ∨ (∃ t, (t ∈ g ∨ ∃ t0, t0 ∈ g ∧ obj t0 = source_uri ∧ t = (subj t0, pred t0, target_uri))
          ∧ subj t = source_uri ∧ pred t ≠ RDF.type ∧ pred t ≠ RDFS.label
          ∧ x = (target_uri, pred t, obj t)) →
  x ∈ Duplicates.transfer_relationships g source_uri target_uri.
Proof.
  unfold Duplicates.transfer_relationships.
  set (g1 := fold_left (λ g t, graph_add g (subj t, pred t, target_uri))
                       (triples g None None (Some source_uri)) g).
  assert (∀ t, t ∈ g ∨ (∃ t0, t0 ∈ g ∧ obj t0 = source_uri
                              ∧ t = (subj t0, pred t0, target_uri)) → t ∈ g1) as Hg1.
  { intros t Ht. subst g1.
    apply (elem_of_fold_graph_add (λ t : Triple, (subj t, pred t, target_uri))).
    destruct Ht as [Ht | (t0 & Ht0 & Hobj & ->) ]; [by left|right].
    exists t0. split; [|done]. apply elem_of_triples. split; [done|].
    simpl. by apply bool_decide_eq_true. }
  intros Hx.
  apply (elem_of_fold_graph_add_if (λ t : Triple, pred t ≠ RDF.type ∧ pred t ≠ RDFS.label)
           (λ t : Triple, (target_uri, pred t, obj t))).
  destruct Hx as [Hx | [ (t & Ht & Hobj & ->) | (t & Ht & Hsubj & Hty & Hla & ->) ] ].
  - left. apply Hg1. by left.
  - left. apply Hg1. right. by exists t.
  - right. exists t. split_and!; [|done..].
    apply elem_of_triples. split; [by apply Hg1|].
    simpl. rewrite !andb_true_r. by apply bool_decide_eq_true.
Qed.

(** What [transfer_relationships] leaves in the graph, and nothing else. *)
Lemma elem_of_transfer_relationships_inv (g : Graph) (source_uri target_uri : Term)
    (x : Triple) :
  x ∈ Duplicates.transfer_relationships g source_uri target_uri →
  x ∈ g
  ∨ (∃ t, t ∈ g ∧ obj t = source_uri ∧ x = (subj t, pred t, target_uri))
  ∨ (∃ t, (t ∈ g ∨ ∃ t0, t0 ∈ g ∧ obj t0 = source_uri ∧ t = (subj t0, pred t0, target_uri))
          ∧ subj t = source_uri ∧ pred t ≠ RDF.type ∧ pred t ≠ RDFS.label
          ∧ x = (target_uri, pred t, obj t)).
Proof.
  unfold Duplicates.transfer_relationships.
  set (g1 := fold_left (λ g t, graph_add g (subj t, pred t, target_uri))
                       (triples g None None (Some source_uri)) g).
  assert (∀ t, t ∈ g1 → t ∈ g ∨ (∃ t0, t0 ∈ g ∧ obj t0 = source_uri
                              ∧ t = (subj t0, pred t0, target_uri))) as Hg1.
  { intros t Ht. subst g1.
    apply (elem_of_fold_graph_add (λ t : Triple, (subj t, pred t, target_uri))) in Ht.
    destruct Ht as [Ht | (t0 & [Ht0 Hobj]%elem_of_triples_object & ->) ]; [by left|right].
    by exists t0. }
  intros Hx.
  apply (elem_of_fold_graph_add_if (λ t : Triple, pred t ≠ RDF.type ∧ pred t ≠ RDFS.label)
           (λ t : Triple, (target_uri, pred t, obj t))) in Hx.
  destruct Hx as [Hx | (t & [Ht Hsubj]%elem_of_triples_subject & [Hty Hla] & ->) ].
  - apply Hg1 in Hx as [Hx | Hx]; [by left|by right; left].
  - right; right. exists t. split_and!; [by apply Hg1|done..].
Qed.

(** After [_merge_entities], a statement about the duplicate [n] is found
    with the primary node [c] in the place of [n], unless it is one of the
    type and label statements of [n]. *)
Lemma merged_entities_substitutes (g : Graph) (c n : Term) (t : Triple) :
  c ≠ n → t ∈ g → subj t = n ∨ obj t = n →
  (subj t = n → pred t ≠ RDF.type ∧ pred t ≠ RDFS.label) →
  substitute n c t ∈ Duplicates.merged_entities g c n.
Proof.
  intros Hcn Ht Hn Hpred. unfold Duplicates.merged_entities, substitute.
  destruct t as [ [s p] o]. unfold subj, pred, obj in *. simpl in *.
  assert (∀ x : Triple, x.1.1 ≠ n → x.2 ≠ n →
            x ∈ Duplicates.transfer_relationships g n c →
            x ∈ Duplicates.graph_remove_pattern
                  (Duplicates.graph_remove_pattern
                     (Duplicates.transfer_relationships g n c) (Some n) None None)
                  None None (Some n)) as Hkept.
  { intros x Hxs Hxo Hx. rewrite !elem_of_graph_remove_pattern. simpl.
    rewrite !andb_true_r. unfold subj, obj.
    split_and!; [done|by apply bool_decide_eq_false..]. }
  destruct (decide (s = n)) as [->|Hs], (decide (o = n)) as [->|Ho].
  - destruct (Hpred eq_refl) as [Hty Hla].
    apply Hkept; [done..|]. apply elem_of_transfer_relationships.
    right; right. exists (n, p, c). unfold subj, pred, obj. simpl.
    split_and!; [|done..]. right. by exists (n, p, n).
  - destruct (Hpred eq_refl) as [Hty Hla].
    apply Hkept; [done..|]. apply elem_of_transfer_relationships.
    right; right. exists (n, p, o). unfold subj, pred, obj. simpl.
    split_and!; [by left|done..].
  - apply Hkept; [done..|]. apply elem_of_transfer_relationships.
    right; left. by exists (s, p, n).
  - by destruct Hn.
Qed.

(** The graph after [_merge_entities], for a duplicate [n] other than the
    primary node [c]: the statements of the graph with [c] in the place of
    [n], the type and label statements of [n] left out. *)
Lemma elem_of_merged_entities (g : Graph) (c n : Term) (x : Triple) :
  c ≠ n →
  x ∈ Duplicates.merged_entities g c n ↔
  ∃ t, t ∈ g ∧ ¬ (subj t = n ∧ (pred t = RDF.type ∨ pred t = RDFS.label))
       ∧ x = substitute n c t.
Proof.
  intros Hcn. split.
  - unfold Duplicates.merged_entities. rewrite !elem_of_graph_remove_pattern. simpl.
    rewrite !andb_true_r, !bool_decide_eq_false.
    intros [ [Hx Hs] Ho].
    apply elem_of_transfer_relationships_inv in Hx
      as [Hx | [ (t & Ht & Hobj & ->) | (t & Ht & Hsubj & Hty & Hla & ->) ] ].
    + exists x. split_and!; [done|by intros [? _]|].
      unfold substitute. rewrite !decide_False by done. by destruct x as [ [? ?] ?].
    + exists t. unfold subj in Hs. simpl in Hs. split_and!; [done|by intros [? _]|].
      unfold substitute. rewrite decide_False by done. by rewrite decide_True by done.
    + unfold obj in Ho. simpl in Ho.
      destruct Ht as [Ht | (t0 & Ht0 & Hobj0 & ->) ].
      * exists t. split_and!; [done|by intros [_ [?|?] ]|].
        unfold substitute. rewrite decide_True by done. by rewrite decide_False by done.
      * exists t0. unfold subj, pred in Hsubj, Hty, Hla. simpl in Hsubj, Hty, Hla.
        split_and!; [done|by intros [_ [?|?] ]|].
        unfold substitute, pred, obj. simpl.
        rewrite decide_True by done. by rewrite decide_True by done.
  - intros (t & Ht & Hkeep & ->).
    destruct (decide (subj t = n ∨ obj t = n)) as [Hn|Hn].
    + apply merged_entities_substitutes; [done..|].
      intros Hs. split; intros Hp; apply Hkeep; auto.
    + assert (subj t ≠ n ∧ obj t ≠ n) as [Hs Ho] by tauto.
      unfold substitute. rewrite !decide_False by done.
      replace (subj t, pred t, obj t) with t by by destruct t as [ [? ?] ?].
      unfold Duplicates.merged_entities. rewrite !elem_of_graph_remove_pattern. simpl.
      rewrite !andb_true_r, !bool_decide_eq_false. split_and!; [|done..].
      apply elem_of_transfer_relationships. by left.
Qed.

(** ** Graph Rewriter *)

Lemma uri_keys_init (base : string) : uri_keys (init base).
Proof. split; intros k; discriminate. Qed.

Section Rewriter.
Context {env : Env}.

Lemma rewrite_triple_map_object (st : Merger) (s p o : Term) :
  uri_keys st →
  rewrite_triple st (s, p, o) = (apply_mapping st s, apply_mapping st p, map_object st o).
Proof.
  intros Hkeys. unfold rewrite_triple, map_object.
  destruct o as [iri|id|lexical lang]; simpl; [done| |done].
  by rewrite (apply_mapping_not_uri st (BNode id)).
Qed.

Lemma merge_graphs_rewritten (ontologies : list Graph) (st : Merger) (g : Graph) (t : Triple) :
  let st' := (merge_graphs ontologies st).1 in
  g ∈ ontologies → t ∈ g → rewrite_triple st' t ∈ merged_graph st'.
Proof.
  destruct (merge_graphs_spec ontologies st) as (g' & -> & Hg'). simpl.
  intros Hg Ht. apply Hg'. right; left. by exists g, t.
Qed.

Lemma merge_graphs_uri_keys (ontologies : list Graph) (st : Merger) :
  uri_keys st → uri_keys (merge_graphs ontologies st).1.
Proof.
  destruct (merge_graphs_spec ontologies st) as (g' & -> & _). simpl.
  intros Hkeys. by apply (with_mappings_uri_keys ontologies) in Hkeys.
Qed.

(** Every source statement is in the merged graph in its rewritten form. *)
Lemma merge_graphs_maps_statements (ontologies : list Graph) (st : Merger)
    (g : Graph) (s p o : Term) :
  uri_keys st →
  let st' := (merge_graphs ontologies st).1 in
  g ∈ ontologies → (s, p, o) ∈ g →
  (apply_mapping st' s, apply_mapping st' p, map_object st' o) ∈ merged_graph st'.
Proof.
  intros Hkeys st' Hg Ht.
  rewrite <- rewrite_triple_map_object by by apply merge_graphs_uri_keys.
  by apply (merge_graphs_rewritten ontologies st g).
Qed.

(** C1 (amended): for every statement (s, p, o) of every source graph the
    merged graph holds (map(s), map(p), map(o)) when o is a node reference
    and (map(s), map(p), o) when o is a literal, map being the mapping
    tables extended with the identity.  Every statement of the merged graph
    was there before the merge, or is such a rewritten source statement, or
    is the declaration the inferencer writes for an inverse pair on file.
    When, in addition, the tables and the file of inverse pairs started
    empty and no node belongs to two duplicate groups, no statement the
    merge has added to the merged graph has a non-canonical member of a
    duplicate group as subject, predicate or object. *)
Theorem rewriter_applies_mapping (ontologies : list Graph) (st : Merger) :
  uri_keys st →
  let st' := (merge_graphs ontologies st).1 in
  (∀ g s p o, g ∈ ontologies → (s, p, o) ∈ g →
     (apply_mapping st' s, apply_mapping st' p, map_object st' o) ∈ merged_graph st')
  ∧ (∀ x, x ∈ merged_graph st' →
       x ∈ merged_graph st
       ∨ (∃ g s p o, g ∈ ontologies ∧ (s, p, o) ∈ g
            ∧ x = (apply_mapping st' s, apply_mapping st' p, map_object st' o))
       ∨ (∃ pair, pair ∈ inverse_properties st ∧ inverse_declaration st' pair = Some x))
  ∧ (class_mappings st = [] → property_mappings st = [] → inverse_properties st = [] →
     pairwise_disjoint (groups_of ontologies) →
     ∀ x y, x ∈ merged_graph st' → x ∉ merged_graph st →
       y ∈ [subj x; pred x; obj x] →
       ¬ non_canonical ontologies (groups_of ontologies) y).
Proof.
  intros Hkeys st'.
  assert (∀ x, x ∈ merged_graph st' →
            x ∈ merged_graph st
            ∨ (∃ g s p o, g ∈ ontologies ∧ (s, p, o) ∈ g
                 ∧ x = (apply_mapping st' s, apply_mapping st' p, map_object st' o))
            ∨ (∃ pair, pair ∈ inverse_properties st
                 ∧ inverse_declaration st' pair = Some x)) as Hbound.
  { pose proof (merge_graphs_uri_keys ontologies st Hkeys) as Hkeys'. fold st' in Hkeys'.
    subst st'. destruct (merge_graphs_spec ontologies st) as (g' & Hrun & Hg').
    rewrite Hrun in *. simpl in *. intros x Hx.
    apply Hg' in Hx as [Hx | [ (g & [ [s p] o] & Hg & Ht & ->) | (pair & Hpair & Hdecl) ] ].
    - by left.
    - right; left. exists g, s, p, o. split_and!; [done..|].
      rewrite <- rewrite_triple_map_object by done. by destruct st.
    - right; right. exists pair. split; [done|].
      unfold inverse_declaration in *. by destruct st. }
  split_and!; [|done|].
  - intros g s p o Hg Ht. by apply (merge_graphs_maps_statements ontologies st g).
  - intros Hcm Hpm Hinv Hdisj x y Hx Hold Hy Hnon.
    apply Hbound in Hx as [Hx | [ (g & s & p & o & Hg & Ht & ->) | (pair & Hpair & _) ] ];
      [done| |by rewrite Hinv in Hpair; apply elem_of_nil in Hpair].
    subst st'. destruct (merge_graphs_spec ontologies st) as (g' & Hrun & _).
    rewrite Hrun in Hy. simpl in Hy.
    set (st1 := with_mappings _ _ ontologies st) in *.
    assert (mapped st1 y = true) as Hmapped.
    { apply mapped_with_mappings. by right. }
    assert (∀ z, y = apply_mapping st1 z → False) as Himage.
    { intros z ->.
      pose proof (apply_mapping_not_mapped _ _ ontologies st z Hcm Hpm Hdisj) as Hno.
      simpl in Hno. fold st1 in Hno. congruence. }
    unfold subj, pred, obj in Hy. simpl in Hy.
    apply elem_of_cons in Hy as [Hy|Hy]; [by eapply Himage|].
    apply elem_of_cons in Hy as [Hy|Hy]; [by eapply Himage|].
    apply list_elem_of_singleton in Hy.
    destruct o as [iri|id|lexical lang]; simpl in Hy; [by eapply Himage..|].
    destruct Hnon as (members & c & Hmem & _ & _ & Hin & _).
    pose proof (groups_of_uris ontologies members y Hmem Hin) as Huri.
    by rewrite Hy in Huri.
Qed.

(** When a node n is mapped to the canonical node c, every source
    statement with n as subject is in the merged graph with c as subject,
    and every source statement with n as object is there with c as object
    (the other terms of the statement being mapped as well). *)
Lemma merge_graphs_union (ontologies : list Graph) (st : Merger) :
  uri_keys st →
  let st' := (merge_graphs ontologies st).1 in
  ∀ n c, mapped st' n = true → apply_mapping st' n = c →
  ∀ g p x, g ∈ ontologies →
    ((n, p, x) ∈ g → (c, apply_mapping st' p, map_object st' x) ∈ merged_graph st')
    ∧ ((x, p, n) ∈ g → (apply_mapping st' x, apply_mapping st' p, c) ∈ merged_graph st').
Proof.
  intros Hkeys st' n c Hmapped <- g p x Hg.
  split; intros Ht.
  - by apply (merge_graphs_maps_statements ontologies st g).
  - pose proof (merge_graphs_maps_statements ontologies st g x p n Hkeys Hg Ht) as Hrw.
    fold st' in Hrw.
    assert (is_URIRef n = true) as Huri.
    { destruct (merge_graphs_uri_keys ontologies st Hkeys) as [Hc Hp]. fold st' in Hc, Hp.
      unfold mapped in Hmapped. apply orb_true_iff in Hmapped as [?|?]; auto. }
    by destruct n.
Qed.

(** C2 (amended): in the merged graph of a merge, when a node n is mapped
    to the canonical node c, every source statement with n as subject or as
    object is there with c in the place of n (the other terms of the
    statement being mapped as well).  In the in-place merge of a duplicate n
    into another node c of one graph, the graph becomes the set of its
    statements with c in the place of n as subject and as object, the
    statements with subject n and predicate [rdf:type] or [rdfs:label] left
    out: such a statement is not carried over, its form with c in the place
    of n is in the result only where one of the other statements yields it.
    [transfer_relationships] itself adds that form for every other
    statement that mentions n. *)
Theorem union_preserved :
  (∀ ontologies st, uri_keys st →
     let st' := (merge_graphs ontologies st).1 in
     ∀ n c, mapped st' n = true → apply_mapping st' n = c →
     ∀ g p x, g ∈ ontologies →
       ((n, p, x) ∈ g → (c, apply_mapping st' p, map_object st' x) ∈ merged_graph st')
       ∧ ((x, p, n) ∈ g → (apply_mapping st' x, apply_mapping st' p, c) ∈ merged_graph st'))
  ∧ (∀ g c n, c ≠ n →
       (∀ x, x ∈ Duplicates.merged_entities g c n ↔
             ∃ t, t ∈ g ∧ ¬ (subj t = n ∧ (pred t = RDF.type ∨ pred t = RDFS.label))
                  ∧ x = substitute n c t)
       ∧ (∀ t, t ∈ g → subj t = n → pred t = RDF.type ∨ pred t = RDFS.label →
            substitute n c t ∈ Duplicates.merged_entities g c n →
            ∃ t', t' ∈ g ∧ t' ≠ t
                  ∧ ¬ (subj t' = n ∧ (pred t' = RDF.type ∨ pred t' = RDFS.label))
                  ∧ substitute n c t' = substitute n c t)
       ∧ (∀ t, t ∈ g → subj t = n ∨ obj t = n →
            ¬ (subj t = n ∧ (pred t = RDF.type ∨ pred t = RDFS.label)) →
            substitute n c t ∈ Duplicates.transfer_relationships g n c)).
Proof.
  split.
  - apply merge_graphs_union.
  - intros g c n Hcn. split_and!.
    + intros x. by apply elem_of_merged_entities.
    + intros t Ht Hs Hp Hin.
      apply elem_of_merged_entities in Hin as (t' & Ht' & Hkeep & Heq); [|done].
      exists t'. split_and!; [done| |done..]. intros ->. by apply Hkeep.
    + intros t Ht Hn Hkeep.
      assert (subj t = n → pred t ≠ RDF.type ∧ pred t ≠ RDFS.label) as Hpred.
      { intros Hs. split; intros Hp; apply Hkeep; auto. }
      apply elem_of_transfer_relationships. unfold substitute.
      destruct (decide (subj t = n)) as [Hs|Hs], (decide (obj t = n)) as [Ho|Ho].
      * destruct (Hpred Hs) as [Hty Hla]. right; right.
        exists (subj t, pred t, c). split_and!; [|done..]. right. by exists t.
      * destruct (Hpred Hs) as [Hty Hla]. right; right.
        exists t. split_and!; [by left|done..].
      * right; left. by exists t.
      * by destruct Hn.
Qed.

End Rewriter.

(** A new engine and three sources.  [:Alert] is met twice under the name
    "alert", which gives an entry with one member and no duplicate group;
    the one duplicate group is that of [:Alert] and [:Warning], and
    [:Alert] is mapped to [:Warning]. *)
Lemma rewriter_applies_mapping_witness :
  let ontologies := [Example.alert; Example.alert; Example.warnings] in
  let st := init default_base_uri in
  let st' := (merge_graphs (env := Example.env) ontologies st).1 in
  (uri_keys st ∧ class_mappings st = [] ∧ property_mappings st = []
   ∧ inverse_properties st = []
   ∧ pairwise_disjoint (env := Example.env) (groups_of (env := Example.env) ontologies))
  ∧ groups_of (env := Example.env) ontologies
    = [ [Example.ex "Alert"]; [Example.ex "Alert"; Example.ex "Warning"] ]
  ∧ (Example.ex "Warning", RDF.type, OWL.Class) ∈ merged_graph st'
  ∧ (∀ g s p o, g ∈ ontologies → (s, p, o) ∈ g →
       (apply_mapping st' s, apply_mapping st' p, map_object st' o) ∈ merged_graph st')
  ∧ (∀ x, x ∈ merged_graph st' →
       x ∈ merged_graph st
       ∨ (∃ g s p o, g ∈ ontologies ∧ (s, p, o) ∈ g
            ∧ x = (apply_mapping st' s, apply_mapping st' p, map_object st' o))
       ∨ (∃ pair, pair ∈ inverse_properties st
            ∧ inverse_declaration st' pair = Some x))
  ∧ (∀ x y, x ∈ merged_graph st' → x ∉ merged_graph st →
       y ∈ [subj x; pred x; obj x] →
       ¬ non_canonical (env := Example.env) ontologies
           (groups_of (env := Example.env) ontologies) y).
Proof.
  intros ontologies st st'.
  assert (pairwise_disjoint (env := Example.env) (groups_of (env := Example.env) ontologies))
    as Hdisj.
  { apply (pairwise_disjoint_NoDup (env := Example.env)).
    apply (bool_decide_unpack _). vm_compute. exact I. }
  pose proof (rewriter_applies_mapping (env := Example.env) ontologies st (uri_keys_init _))
    as (Hmaps & Hbound & Hclean).
  split; [split_and!; [apply uri_keys_init|done..]|].
  split; [reflexivity|].
  split; [apply (bool_decide_unpack _); by vm_compute|].
  split_and!; [exact Hmaps|exact Hbound|].
  exact (Hclean eq_refl eq_refl eq_refl Hdisj).
Defined.

(** C1 as claimed fails: the statement of [:AlertState] is rewritten to
    one about [:Alert], and [:Alert] is a non-canonical member of the group
    "warning", whose canonical node is [:Warning]. *)
Lemma rewritten_statement_references_non_canonical :
  let ontologies := [Example.alerts; Example.warnings] in
  let st' := (merge_graphs (env := Example.env) ontologies (init default_base_uri)).1 in
  (Example.ex "AlertState", RDF.type, OWL.Class) ∈ Example.alerts
  ∧ rewrite_triple st' (Example.ex "AlertState", RDF.type, OWL.Class)
    = (Example.ex "Alert", RDF.type, OWL.Class)
  ∧ (Example.ex "Alert", RDF.type, OWL.Class) ∈ merged_graph st'
  ∧ non_canonical (env := Example.env) ontologies
      (groups_of (env := Example.env) ontologies) (Example.ex "Alert").
Proof.
  split_and!.
  - apply (bool_decide_unpack _). by vm_compute.
  - reflexivity.
  - apply (bool_decide_unpack _). by vm_compute.
  - exists [Example.ex "Alert"; Example.ex "Warning"], (Example.ex "Warning").
    split_and!.
    + apply (bool_decide_unpack _). by vm_compute.
    + unfold duplicate_group. simpl. lia.
    + reflexivity.
    + apply list_elem_of_here.
    + discriminate.
Qed.

(** [:Alert] is mapped to [:Warning], and its label is found under
    [:Warning]; [:drowsiness_1] is merged into [:Drowsiness]: what was
    observed of the one is stated of the other, and the graph that results
    is made of the substituted statements, type and label of
    [:drowsiness_1] left out. *)
Lemma union_preserved_witness :
  let ontologies := [Example.alerts; Example.warnings] in
  let st' := (merge_graphs (env := Example.env) ontologies (init default_base_uri)).1 in
  let c := Example.ex "Drowsiness" in
  let n := Example.ex "drowsiness_1" in
  (Example.ex "Warning", RDFS.label, Literal "Warning" None) ∈ merged_graph st'
  ∧ (c, Example.ex "observedIn", Example.ex "Driver")
    ∈ Duplicates.transfer_relationships Example.drowsiness n c
  ∧ (∀ x, x ∈ Duplicates.merged_entities Example.drowsiness c n ↔
          ∃ t, t ∈ Example.drowsiness
               ∧ ¬ (subj t = n ∧ (pred t = RDF.type ∨ pred t = RDFS.label))
               ∧ x = substitute n c t).
Proof.
  intros ontologies st' c n. split_and!.
  - refine (proj1 (proj1 (union_preserved (env := Example.env)) ontologies
              (init default_base_uri) (uri_keys_init _)
              (Example.ex "Alert") (Example.ex "Warning")
              eq_refl eq_refl Example.warnings RDFS.label (Literal "Warning" None) _) _).
    + apply (bool_decide_unpack _). by vm_compute.
    + apply (bool_decide_unpack _). by vm_compute.
  - refine (proj2 (proj2 (proj2 (union_preserved (env := Example.env))
                            Example.drowsiness c n _))
              (n, Example.ex "observedIn", Example.ex "Driver") _ _ _).
    + discriminate.
    + apply (bool_decide_unpack _). by vm_compute.
    + by left.
    + intros [_ [?|?] ]; discriminate.
  - refine (proj1 (proj2 (union_preserved (env := Example.env))
                     Example.drowsiness c n _)).
    discriminate.
Defined.

(** C2 as claimed fails: in the in-place merge, [:drowsiness_1] is merged
    into [:Drowsiness] and its type statement is not carried over. *)
Lemma type_statement_not_carried_over :
  let g' := Duplicates.graph
              (Duplicates.merge_with_strategy Example.write "merged.ttl" "first"
                 (Duplicates.init Example.drowsiness, [])).1.1 in
  Duplicates.find_duplicates Example.drowsiness
  = [ ("Drowsiness", [Example.ex "Drowsiness"; Example.ex "drowsiness_1"]) ]
  ∧ (Example.ex "drowsiness_1", RDF.type, Example.ex "DriverState") ∈ Example.drowsiness
  ∧ ((Example.ex "Drowsiness", RDF.type, Example.ex "DriverState") ∉ g')
  ∧ g' = [ (Example.ex "Drowsiness", RDF.type, OWL.Class);
           (Example.ex "Drowsiness", RDFS.label, Literal "Drowsiness" None);
           (Example.ex "Camera", Example.ex "detects", Example.ex "Drowsiness");
           (Example.ex "Drowsiness", Example.ex "observedIn", Example.ex "Driver") ].
Proof.
  split_and!; [reflexivity| | |reflexivity].
  - apply (bool_decide_unpack _). by vm_compute.
  - apply (bool_decide_eq_false_1 _). by vm_compute.
Qed.

(** ** Inverse-Relation Inferencer *)

Section Inferencer.
Context {env : Env}.

Lemma inverse_declaration_distinct (st : Merger) (pair : Term * Term) (t : Triple) :
  inverse_declaration st pair = Some t →
  t = (apply_mapping st pair.1, OWL.inverseOf, apply_mapping st pair.2)
  ∧ apply_mapping st pair.1 ≠ apply_mapping st pair.2.
Proof.
  unfold inverse_declaration.
  destruct (decide (apply_mapping st pair.1 ≠ apply_mapping st pair.2)); [|done].
  by intros [= <-].
Qed.

(** C7 (amended): the inferencer never relates a property to itself.
    Every statement [add_inverse_property_declarations] adds is
    (map(p1), inverse-of, map(p2)) for a pair (p1, p2) on file with
    map(p1) and map(p2) distinct; when the members of every pair on file
    are mapped to the same canonical property it adds nothing; and a
    statement (p, inverse-of, p) in the graph after a merge was in the
    graph before the merge or is the rewriting of a source statement. *)
Theorem inferencer_adds_no_self_inverse :
  (∀ st t, t ∈ merged_graph (add_inverse_property_declarations st).1 →
     t ∈ merged_graph st
     ∨ ∃ p1 p2, (p1, p2) ∈ inverse_properties st
                ∧ t = (apply_mapping st p1, OWL.inverseOf, apply_mapping st p2)
                ∧ apply_mapping st p1 ≠ apply_mapping st p2)
  ∧ (∀ st, (∀ p1 p2, (p1, p2) ∈ inverse_properties st →
                     apply_mapping st p1 = apply_mapping st p2) →
           merged_graph (add_inverse_property_declarations st).1 = merged_graph st)
  ∧ (∀ ontologies st p,
       (p, OWL.inverseOf, p) ∈ merged_graph (merge_graphs ontologies st).1 →
       (p, OWL.inverseOf, p) ∈ merged_graph st
       ∨ ∃ g t, g ∈ ontologies ∧ t ∈ g
                ∧ rewrite_triple (merge_graphs ontologies st).1 t = (p, OWL.inverseOf, p)).
Proof.
  split_and!.
  - intros st t. rewrite add_inverse_property_declarations_run. simpl.
    intros [Ht | (t' & (pair & Hpair & Hdecl)%list_elem_of_omap & ->) ]%elem_of_fold_graph_add;
      [by left|].
    right. apply inverse_declaration_distinct in Hdecl as [-> Hne].
    exists pair.1, pair.2. by destruct pair.
  - intros st Hsame. rewrite add_inverse_property_declarations_run. simpl.
    assert (omap (inverse_declaration st) (inverse_properties st) = []) as ->; [|done].
    induction (inverse_properties st) as [|[p1 p2] pairs IH]; [done|]. simpl.
    unfold inverse_declaration at 1. simpl.
    rewrite decide_False.
    + apply IH. intros q1 q2 Hq. apply Hsame. by apply list_elem_of_further.
    + intros Hne. apply Hne, Hsame, list_elem_of_here.
  - intros ontologies st p.
    destruct (merge_graphs_spec ontologies st) as (g' & -> & Hg'). simpl.
    intros [Hst | [ (g & t & Hg & Ht & Heq) | (pair & _ & Hdecl) ] ]%Hg'.
    + by left.
    + right. by exists g, t.
    + apply inverse_declaration_distinct in Hdecl as [ [= -> Hp2] Hne]. done.
Qed.

End Inferencer.

(** C7 as claimed fails: a source that declares a property to be its own
    inverse is copied by the rewriter, and the merged graph relates the
    property to itself. *)
Lemma merged_graph_keeps_self_inverse :
  let st' := (merge_graphs (env := Example.env) [Example.adjacent] (init default_base_uri)).1 in
  (Example.ex "adjacentTo", OWL.inverseOf, Example.ex "adjacentTo") ∈ Example.adjacent
  ∧ (Example.ex "adjacentTo", OWL.inverseOf, Example.ex "adjacentTo") ∈ merged_graph st'.
Proof. split; apply (bool_decide_unpack _); by vm_compute. Qed.

(** ** The merge as a whole *)

Section Whole.
Context {env : Env}.

(** The parsing loop leaves the instance alone and raises as soon as the
    reader rejects a document. *)
Lemma parse_all_from (ontology_contents : list string) (acc : list Graph) (st : Merger) :
  for_fold ontology_contents acc
    (λ ontologies content, graph ← lift_option (parse content); mret (ontologies ++ [graph])) st
  = (st, (λ graphs, acc ++ graphs) <$> mapM parse ontology_contents).
Proof.
  induction ontology_contents as [|content contents IH] in acc |- *; simpl.
  - by rewrite app_nil_r.
  - rewrite bind_unfold. destruct (parse content) as [graph|]; simpl; [|done].
    rewrite IH. destruct (mapM parse contents) as [graphs|]; simpl; [|done].
    by rewrite <- app_assoc.
Qed.

Lemma parse_all_run (ontology_contents : list string) (st : Merger) :
  parse_all ontology_contents st = (st, mapM parse ontology_contents).
Proof.
  unfold parse_all. rewrite parse_all_from.
  by destruct (mapM parse ontology_contents).
Qed.

(** [merge_ontologies] in one piece: [None] when some document is
    rejected, with the instance untouched; otherwise what the writer makes
    of the graph the merge leaves on the instance, its text or, when it
    raises, [None]. *)
Lemma merge_ontologies_run (ontology_contents competency_questions : list string)
    (st : Merger) :
  merge_ontologies ontology_contents competency_questions st
  = match mapM parse ontology_contents with
    | Some ontologies =>
        let st' := (merge_graphs ontologies st).1 in
        (st', Some (serialize (merged_graph st')))
    | None => (st, Some None)
    end.
Proof.
  unfold merge_ontologies, try_except. rewrite bind_unfold, parse_all_run.
  destruct (mapM parse ontology_contents) as [ontologies|]; [|done].
  destruct (merge_graphs_spec ontologies st) as (g' & Hrun & _).
  rewrite (bind_run _ _ _ _ _ Hrun). rewrite Hrun.
  rewrite (bind_run get_self _ _ _ _ eq_refl). rewrite bind_unfold. simpl.
  by destruct (serialize g').
Qed.


(** C9 (defect in the code): one document the reader rejects makes
    [merge_ontologies] return [None]; nothing of the other sources is
    merged, the instance is as it was before the call. *)
Theorem merge_aborted_by_bad_source (ontology_contents competency_questions : list string)
    (st : Merger) :
  (∃ content, content ∈ ontology_contents ∧ parse content = None) →
  merge_ontologies ontology_contents competency_questions st = (st, Some None).
Proof.
  intros (content & Hin & Hbad). rewrite merge_ontologies_run.
  rewrite (mapM_None_2 parse ontology_contents); [done|].
  apply Exists_exists. by exists content.
Qed.

(** C10 (defect in the code): [merge_ontologies] clears nothing.  Every
    statement the merged graph held before the call is in it after the
    call, every key of the mapping tables is still a key, and the pairs on
    file stay on file. *)
Theorem merge_keeps_earlier_results (ontology_contents competency_questions : list string)
    (st : Merger) :
  let st' := (merge_ontologies ontology_contents competency_questions st).1 in
  (∀ t, t ∈ merged_graph st → t ∈ merged_graph st')
  ∧ (∀ k, mapped st k = true → mapped st' k = true)
  ∧ inverse_properties st' = inverse_properties st.
Proof.
  rewrite merge_ontologies_run.
  destruct (mapM parse ontology_contents) as [ontologies|]; simpl; [|done].
  destruct (merge_graphs_spec ontologies st) as (g' & -> & Hg'). simpl.
  split_and!; [|intros k Hk|done].
  - intros t Ht. apply Hg'. by left.
  - apply mapped_with_mappings. by left.
Qed.

End Whole.


(** Two sources, the second cut off in mid-statement: no result, although
    the first source alone merges. *)
Lemma merge_aborted_by_bad_source_witness :
  merge_ontologies (env := Example.env) [Example.alerts_ttl; Example.broken_ttl] []
    (init default_base_uri)
  = (init default_base_uri, Some None)
  ∧ is_Some ((merge_ontologies (env := Example.env) [Example.alerts_ttl] []
                (init default_base_uri)).2 ≫= id).
Proof.
  split.
  - apply (merge_aborted_by_bad_source (env := Example.env)).
    exists Example.broken_ttl. split; [|by vm_compute].
    apply (bool_decide_unpack _). by vm_compute.
  - vm_compute. eauto.
Defined.

(** One engine, two calls: the second call merges no source at all and
    still returns the statements and the mapping of the first. *)
Example second_merge_returns_first :
  let first := merge_ontologies (env := Example.env)
                 [Example.alerts_ttl; Example.warnings_ttl] [] (init default_base_uri) in
  let second := merge_ontologies (env := Example.env) [] [] first.1 in
  second.2 = first.2
  ∧ (Example.ex "Warning", RDFS.subClassOf, Example.ex "Signal") ∈ merged_graph second.1
  ∧ apply_mapping second.1 (Example.ex "AlertState") = Example.ex "Alert"
  ∧ dict_get (get_statistics second.1) "total_triples" = Some 6
  ∧ dict_get (get_statistics second.1) "class_mappings" = Some 2.
Proof.
  split_and!; [reflexivity| |reflexivity..].
  apply (bool_decide_unpack _). by vm_compute.
Qed.

(** ** The incremental merger: bad sources and earlier calls *)

Lemma total_ret {S A : Type} (a : A) : total (S := S) (mret a).
Proof. intros st. by exists st, a. Qed.

Lemma total_modify {S : Type} (f : S → S) : total (modify f).
Proof. intros st. by exists (f st), tt. Qed.

Lemma total_bind {S A B : Type} (m : Method S A) (k : A → Method S B) :
  total m → (∀ a, total (k a)) → total (m ≫= k).
Proof.
  intros Hm Hk st. destruct (Hm st) as (st' & a & Hrun).
  rewrite (bind_run _ _ _ _ _ Hrun). apply Hk.
Qed.

Lemma total_get_self {S B : Type} (k : S → Method S B) :
  (∀ st, total (k st)) → total (get_self ≫= k).
Proof. intros Hk st. rewrite (bind_run _ _ st st st) by done. apply Hk. Qed.

Lemma total_for_each {S A : Type} (l : list A) (body : A → Method S unit) :
  (∀ x, total (body x)) → total (for_each l body).
Proof.
  intros Hbody. induction l as [|x l IH]; simpl; [apply total_ret|].
  by apply total_bind.
Qed.

Lemma total_try_except {S A : Type} (m handler : Method S A) :
  total handler → total (try_except m handler).
Proof.
  intros Hh st. unfold try_except. destruct (m st) as [st' [a|] ]; [by exists st', a|].
  apply Hh.
Qed.

Lemma for_each_app {S A : Type} (l1 l2 : list A) (body : A → Method S unit) (st : S) :
  for_each (l1 ++ l2) body st = (for_each l1 body ;; for_each l2 body) st.
Proof.
  induction l1 as [|x l1 IH] in st |- *; simpl; [done|].
  rewrite !bind_unfold. destruct (body x st) as [st' [ [] |] ]; [|done].
  rewrite IH. by rewrite bind_unfold.
Qed.

(** An item whose round changes nothing can be left out of the loop. *)
Lemma for_each_skip_one {S A : Type} (l1 : list A) (x : A) (l2 : list A)
    (body : A → Method S unit) :
  (∀ st, body x st = (st, Some tt)) →
  ∀ st, for_each (l1 ++ x :: l2) body st = for_each (l1 ++ l2) body st.
Proof.
  intros Hskip. induction l1 as [|y l1 IH]; intros st; simpl.
  - by rewrite (bind_run _ _ _ _ _ (Hskip st)).
  - rewrite !bind_unfold. destruct (body y st) as [st' [ [] |] ]; [apply IH|done].
Qed.

Lemma insert_desc_not_nil {A : Type} (key : A → nat) (x : A) (l : list A) :
  Improved.insert_desc key x l ≠ [].
Proof. destruct l as [|y l]; simpl; [done|]. by destruct (key x <? key y). Qed.

Section ImprovedMerger.
Context {env : Env}.

(** A document the reader rejects is passed over: [add_ontology] answers
    [False] and the instance is as before. *)
Lemma improved_add_ontology_rejected (turtle_content : string) (st : Improved.Merger) :
  parse turtle_content = None →
  Improved.add_ontology turtle_content st = (st, Some false).
Proof.
  intros Hbad. unfold Improved.add_ontology, try_except.
  by rewrite bind_unfold, Hbad.
Qed.

Lemma improved_add_ontology_total (turtle_content : string) :
  total (Improved.add_ontology turtle_content).
Proof. apply total_try_except, total_ret. Qed.

Lemma improved_file_label_total (s : Term) (normalized_label : string) :
  total (Improved.file_label s normalized_label).
Proof.
  apply total_get_self. intros st.
  destruct (dict_get _ _); apply total_modify.
Qed.

Lemma improved_consolidate_total : total Improved.consolidate_entity_descriptions.
Proof.
  apply total_get_self. intros st. apply total_for_each. intros [source target].
  apply total_get_self. intros st'. apply total_for_each. intros comment.
  destruct (decide _); [apply total_ret|apply total_modify].
Qed.

Lemma improved_replace_entity_total (entity keep_entity : Term) :
  total (Improved.replace_entity entity keep_entity).
Proof.
  apply total_bind; [apply total_modify|]. intros _.
  apply total_get_self. intros st. apply total_bind.
  - apply total_for_each. intros [ [s p] o].
    apply total_bind; [apply total_modify|]. intros _. apply total_modify.
  - intros _. apply total_get_self. intros st'. apply total_for_each. intros [ [s p] o].
    apply total_bind; [apply total_modify|]. intros _. apply total_modify.
Qed.

Lemma improved_merge_similar_total : total Improved.merge_similar_entities.
Proof.
  apply total_get_self. intros st. apply total_for_each. intros [label entities].
  destruct (length entities <=? 1) eqn:Hlen; [apply total_ret|].
  apply total_get_self. intros st'.
  destruct entities as [|e entities]; [done|].
  unfold Improved.sorted_desc. simpl foldr.
  destruct (Improved.insert_desc _ e _) as [|keep rest] eqn:Hsorted.
  { by apply insert_desc_not_nil in Hsorted. }
  simpl. apply total_bind; [apply total_ret|]. intros keep_entity.
  apply total_for_each. intros entity.
  destruct (decide _); [apply improved_replace_entity_total|apply total_ret].
Qed.

(** The incremental merger starts every merge from a fresh instance: what
    was on the instance before the call has no part in the outcome. *)
Lemma improved_merge_resets (ontologies : dict string string) (st : Improved.Merger) :
  Improved.merge_ontologies ontologies st
  = Improved.merge_ontologies ontologies (Improved.init (Improved.base_uri st)).
Proof. reflexivity. Qed.

(** The incremental merger passes a rejected document over: the merge is
    the merge of the other documents. *)
Lemma improved_merge_skips_bad_source (before after : dict string string)
    (ontology_id content : string) (st : Improved.Merger) :
  parse content = None →
  Improved.merge_ontologies (before ++ (ontology_id, content) :: after) st
  = Improved.merge_ontologies (before ++ after) st.
Proof.
  intros Hbad. unfold Improved.merge_ontologies, try_except.
  rewrite !(bind_run (modify _) _ st _ tt) by done.
  rewrite !(bind_unfold (for_each _ _)).
  rewrite (for_each_skip_one before (ontology_id, content) after); [done|].
  intros st1.
  by rewrite (bind_run _ _ _ _ _ (improved_add_ontology_rejected content st1 Hbad)).
Qed.

(** The incremental merger never raises, and returns what the writer
    makes of the merged graph it leaves on the instance. *)
Lemma improved_merge_returns (ontologies : dict string string) (st : Improved.Merger) :
  ∃ st', Improved.merge_ontologies ontologies st
         = (st', Some (serialize (Improved.merged_graph st'))).
Proof.
  unfold Improved.merge_ontologies, try_except.
  assert (total (for_each ontologies
            (λ '(ontology_id, content),
               success ← Improved.add_ontology content; mret (M := Method Improved.Merger) tt)
          ;; Improved.consolidate_entity_descriptions
          ;; Improved.merge_similar_entities)) as Htotal.
  { apply total_bind.
    - apply total_for_each. intros [ontology_id content].
      apply total_bind; [apply improved_add_ontology_total|]. intros _. apply total_ret.
    - intros _. apply total_bind; [apply improved_consolidate_total|].
      intros _. apply improved_merge_similar_total. }
  rewrite bind_unfold. simpl.
  destruct (Htotal (Improved.init (Improved.base_uri st))) as (st' & [] & Hrun).
  rewrite bind_unfold in Hrun. rewrite bind_unfold.
  destruct (for_each ontologies _ _) as [st1 [ [] |] ]; [|done].
  rewrite bind_unfold in Hrun. rewrite bind_unfold.
  destruct (Improved.consolidate_entity_descriptions st1) as [st2 [ [] |] ]; [|done].
  rewrite bind_unfold. rewrite Hrun.
  rewrite (bind_run get_self _ _ _ _ eq_refl). rewrite bind_unfold. simpl.
  exists st'. by destruct (serialize (Improved.merged_graph st')).
Qed.

End ImprovedMerger.

(** The incremental merger on three documents, the second cut off in
    mid-statement: the outcome is that of the two good documents, and a
    text is returned. *)
Example improved_merge_with_bad_source :
  let st := Improved.init "http://example.org/adaptive-hmi#" in
  Improved.merge_ontologies (env := Example.env)
    [ ("ontology_1", Example.detects_ttl); ("ontology_2", Example.broken_ttl);
      ("ontology_3", Example.senses_ttl) ] st
  = Improved.merge_ontologies (env := Example.env)
      [ ("ontology_1", Example.detects_ttl); ("ontology_3", Example.senses_ttl) ] st
  ∧ is_Some ((Improved.merge_ontologies (env := Example.env)
                [ ("ontology_1", Example.detects_ttl); ("ontology_2", Example.broken_ttl);
                  ("ontology_3", Example.senses_ttl) ] st).2 ≫= id).
Proof.
  split.
  - apply (improved_merge_skips_bad_source (env := Example.env)
             [ ("ontology_1", Example.detects_ttl) ] [ ("ontology_3", Example.senses_ttl) ]).
    by vm_compute.
  - vm_compute. eauto.
Qed.

(** The incremental merger maps subjects and objects, not predicates:
    [:senses] is mapped to [:detects], and the statement that uses it as
    predicate is written with [:senses]. *)
Example improved_predicate_not_mapped :
  let st := Improved.init "http://example.org/adaptive-hmi#" in
  let st' := (Improved.merge_ontologies (env := Example.env)
                [ ("ontology_1", Example.detects_ttl); ("ontology_2", Example.senses_ttl) ]
                st).1 in
  Improved.entity_mappings st' = [ (Example.ex "senses", Example.ex "detects") ]
  ∧ (Example.ex "Camera", Example.ex "senses", Example.ex "Driver") ∈ Improved.merged_graph st'
  ∧ ((Example.ex "Camera", Example.ex "detects", Example.ex "Driver") ∉ Improved.merged_graph st').
Proof.
  split_and!; [reflexivity|..].
  - apply (bool_decide_unpack _). by vm_compute.
  - apply (bool_decide_eq_false_1 _). by vm_compute.
Qed.

(** ** The chain of the examples, whatever the order of sets *)

Section AnySetOrder.
Context {env : Env}.

Lemma set_iter_nil : set_iter (@nil Term) = [].
Proof. apply Permutation_nil_r, set_iter_perm. Qed.

Lemma set_iter_pair (a b : Term) : set_iter [a; b] = [a; b] ∨ set_iter [a; b] = [b; a].
Proof. apply Permutation.Permutation_length_2_inv. symmetry. apply set_iter_perm. Qed.

(** The scores of the sources "alerts" and "warnings" leave no tie, so
    the chain [:AlertState] to [:Alert] to [:Warning] arises in whatever
    order the sets hand out their members: the mapping is not idempotent,
    and the merged graph holds a statement about the merged-away
    [:Alert]. *)
Lemma alerts_warnings_chain :
  let ontologies := [Example.alerts; Example.warnings] in
  let st' := (merge_graphs ontologies (init default_base_uri)).1 in
  apply_mapping st' (Example.ex "AlertState") = Example.ex "Alert"
  ∧ apply_mapping st' (Example.ex "Alert") = Example.ex "Warning"
  ∧ (Example.ex "Alert", RDF.type, OWL.Class) ∈ merged_graph st'
  ∧ canonical_of ontologies [Example.ex "Alert"; Example.ex "Warning"] (Example.ex "Warning").
Proof.
  intros ontologies st'.
  pose proof (set_iter_pair (Example.ex "Alert") (Example.ex "AlertState")) as H1.
  pose proof (set_iter_pair (Example.ex "Alert") (Example.ex "Warning")) as H2.
  assert (apply_mapping st' (Example.ex "AlertState") = Example.ex "Alert"
          ∧ apply_mapping st' (Example.ex "Alert") = Example.ex "Warning") as [Hb Ha].
  { subst st'.
    destruct (merge_graphs_spec ontologies (init default_base_uri)) as (g' & -> & _).
    cbn [fst]. unfold apply_mapping, with_mappings.
    cbn [class_mappings property_mappings set_merged_graph set_property_mappings
         set_class_mappings].
    assert (find_similar_classes ontologies
            = [ ("alert", [Example.ex "Alert"; Example.ex "AlertState"]);
                ("warning", [Example.ex "Alert"; Example.ex "Warning"]) ]) as ->
      by reflexivity.
    unfold add_groups. cbn [fmap list_fmap snd fold_left]. unfold add_members.
    destruct H1 as [-> | ->], H2 as [-> | ->]; by vm_compute. }
  split_and!; [done..| |].
  - pose proof (merge_graphs_rewritten ontologies (init default_base_uri) Example.alerts
                  (Example.ex "AlertState", RDF.type, OWL.Class)) as Hin.
    fold st' in Hin. cbn [rewrite_triple is_URIRef] in Hin.
    rewrite Hb in Hin.
    assert (apply_mapping st' RDF.type = RDF.type ∧ apply_mapping st' OWL.Class = OWL.Class)
      as [Htype Hclass].
    { subst st'.
      destruct (merge_graphs_spec ontologies (init default_base_uri)) as (g' & -> & _).
      cbn [fst]. unfold apply_mapping, with_mappings.
      cbn [class_mappings property_mappings set_merged_graph set_property_mappings
           set_class_mappings].
      assert (find_similar_classes ontologies
              = [ ("alert", [Example.ex "Alert"; Example.ex "AlertState"]);
                  ("warning", [Example.ex "Alert"; Example.ex "Warning"]) ]) as ->
        by reflexivity.
      assert (collect_properties ontologies = []) as ->.
      { assert (∀ g, g = Example.alerts ∨ g = Example.warnings →
                  py_set (subjects g (Some RDF.type) (Some OWL.ObjectProperty)
                          ++ subjects g (Some RDF.type) (Some OWL.DatatypeProperty)) = [])
          as Hnone by (intros g [-> | ->]; by vm_compute).
        unfold collect_properties, ontologies.
        cbn [enumerate enumerate_from fold_left].
        rewrite !Hnone by auto. by rewrite !set_iter_nil. }
      unfold add_groups. cbn [fmap list_fmap snd fold_left]. unfold add_members.
      destruct H1 as [-> | ->], H2 as [-> | ->]; by vm_compute. }
    rewrite Htype, Hclass in Hin.
    apply Hin; apply (bool_decide_unpack _); by vm_compute.
  - unfold canonical_of. destruct H2 as [-> | ->]; reflexivity.
Qed.

End AnySetOrder.


(** * Further properties *)

(** ** Texts: reversal, stripping, white space *)

Lemma str_app_cons (c : ascii) (s t : string) : String c s +:+ t = String c (s +:+ t).
Proof. done. Qed.

Lemma str_app_empty_l (t : string) : "" +:+ t = t.
Proof. done. Qed.

Lemma str_app_empty_r (s : string) : s +:+ "" = s.
Proof. induction s as [|c s IH]; [done|]. by rewrite str_app_cons, IH. Qed.

Lemma str_app_assoc (a b c : string) : (a +:+ b) +:+ c = a +:+ (b +:+ c).
Proof. induction a as [|x a IH]; [done|]. by rewrite !str_app_cons, IH. Qed.

Lemma rev_onto_app (s acc : string) : PyStr.rev_onto s acc = PyStr.rev s +:+ acc.
Proof.
  unfold PyStr.rev. revert acc. induction s as [|c s IH]; intros acc; simpl; [done|].
  rewrite IH, (IH (String c "")). by rewrite str_app_assoc, str_app_cons, str_app_empty_l.
Qed.

Lemma str_rev_app (a b : string) : PyStr.rev (a +:+ b) = PyStr.rev b +:+ PyStr.rev a.
Proof.
  induction a as [|c a IH].
  - by rewrite str_app_empty_l, str_app_empty_r.
  - rewrite str_app_cons. unfold PyStr.rev at 1 3. simpl.
    rewrite !rev_onto_app, IH. by rewrite str_app_assoc.
Qed.

Lemma str_rev_rev (s : string) : PyStr.rev (PyStr.rev s) = s.
Proof.
  induction s as [|c s IH]; [done|].
  unfold PyStr.rev at 2. simpl. by rewrite rev_onto_app, str_rev_app, IH.
Qed.

Lemma has_upper_rev_onto (s acc : string) :
  PyStr.has_upper (PyStr.rev_onto s acc) = PyStr.has_upper s || PyStr.has_upper acc.
Proof.
  revert acc. induction s as [|c s IH]; intros acc; simpl; [done|].
  rewrite IH. simpl. by destruct (PyStr.is_upper c), (PyStr.has_upper s), (PyStr.has_upper acc).
Qed.

Lemma has_upper_rev (s : string) : PyStr.has_upper (PyStr.rev s) = PyStr.has_upper s.
Proof. unfold PyStr.rev. rewrite has_upper_rev_onto. simpl. apply orb_false_r. Qed.

Lemma all_chars_app (P : ascii → bool) (a b : string) :
  all_chars P (a +:+ b) = all_chars P a && all_chars P b.
Proof.
  induction a as [|c a IH]; [done|]. rewrite str_app_cons. simpl. rewrite IH.
  by destruct (P c).
Qed.

Lemma all_chars_rev (P : ascii → bool) (s : string) :
  all_chars P (PyStr.rev s) = all_chars P s.
Proof.
  induction s as [|c s IH]; [done|].
  unfold PyStr.rev. simpl. rewrite rev_onto_app, all_chars_app, IH. simpl.
  by destruct (P c), (all_chars P s).
Qed.

(** [lstrip] cuts a run of stripped characters off the front. *)
Lemma lstrip_by_split (f : ascii → bool) (s : string) :
  ∃ pre, s = pre +:+ PyStr.lstrip_by f s ∧ all_chars f pre = true.
Proof.
  induction s as [|c s (pre & Hs & Hpre)]; simpl; [by exists ""|].
  destruct (f c) eqn:Hc.
  - exists (String c pre). rewrite str_app_cons. simpl. rewrite Hc, Hpre. by rewrite <- Hs.
  - by exists "".
Qed.

Lemma lstrip_by_starts_clean (f : ascii → bool) (s : string) :
  starts_clean f (PyStr.lstrip_by f s) = true.
Proof.
  induction s as [|c s IH]; simpl; [done|]. destruct (f c) eqn:Hc; [done|]. simpl.
  by rewrite Hc.
Qed.

Lemma lstrip_by_clean (f : ascii → bool) (s : string) :
  starts_clean f s = true → PyStr.lstrip_by f s = s.
Proof. destruct s as [|c s]; simpl; [done|]. by destruct (f c). Qed.

(** [rstrip] cuts a run of stripped characters off the end. *)
Lemma rstrip_by_split (f : ascii → bool) (s : string) :
  ∃ post, s = PyStr.rstrip_by f s +:+ post ∧ all_chars f post = true.
Proof.
  unfold PyStr.rstrip_by.
  destruct (lstrip_by_split f (PyStr.rev s)) as (pre & Hs & Hpre).
  exists (PyStr.rev pre). split; [|by rewrite all_chars_rev].
  rewrite <- str_rev_app, <- Hs. by rewrite str_rev_rev.
Qed.

Lemma starts_clean_prefix (f : ascii → bool) (a b : string) :
  starts_clean f (a +:+ b) = true → a ≠ "" → starts_clean f a = true.
Proof. by destruct a. Qed.

(** Stripping a stripped text changes nothing, whatever the class of
    stripped characters. *)
Lemma strip_by_idempotent (f : ascii → bool) (s : string) :
  let r := PyStr.rstrip_by f (PyStr.lstrip_by f s) in
  PyStr.lstrip_by f r = r ∧ PyStr.rstrip_by f r = r.
Proof.
  intros r. split.
  - apply lstrip_by_clean.
    destruct (decide (r = "")) as [->|Hne]; [done|].
    destruct (rstrip_by_split f (PyStr.lstrip_by f s)) as (post & Hs & _).
    fold r in Hs. apply (starts_clean_prefix f r post); [|done].
    rewrite <- Hs. apply lstrip_by_starts_clean.
  - subst r. unfold PyStr.rstrip_by. rewrite str_rev_rev.
    by rewrite (lstrip_by_clean f (PyStr.lstrip_by f _)) by apply lstrip_by_starts_clean.
Qed.

Lemma strip_idempotent (s : string) : PyStr.strip (PyStr.strip s) = PyStr.strip s.
Proof.
  unfold PyStr.strip.
  destruct (strip_by_idempotent PyStr.is_space s) as [Hl Hr]. by rewrite Hl, Hr.
Qed.

(** What holds for the parts of a text that has it holds for the stripped
    text. *)
Lemma strip_keeps (Q : string → bool) (s : string) :
  (∀ a b, Q (a +:+ b) = true → Q a = true ∧ Q b = true) →
  Q s = true → Q (PyStr.strip s) = true.
Proof.
  intros Hparts Hs. unfold PyStr.strip.
  destruct (lstrip_by_split PyStr.is_space s) as (pre & Hpre & _).
  destruct (rstrip_by_split PyStr.is_space (PyStr.lstrip_by PyStr.is_space s))
    as (post & Hpost & _).
  rewrite Hpre in Hs. apply Hparts in Hs as [_ Hs].
  rewrite Hpost in Hs. by apply Hparts in Hs as [Hs _].
Qed.

Lemma no_upper_parts (a b : string) :
  negb (PyStr.has_upper (a +:+ b)) = true →
  negb (PyStr.has_upper a) = true ∧ negb (PyStr.has_upper b) = true.
Proof.
  rewrite has_upper_app. by destruct (PyStr.has_upper a), (PyStr.has_upper b).
Qed.

Lemma all_chars_parts (P : ascii → bool) (a b : string) :
  all_chars P (a +:+ b) = true → all_chars P a = true ∧ all_chars P b = true.
Proof. rewrite all_chars_app. apply andb_true_iff. Qed.

Lemma well_spaced_parts (a b : string) :
  well_spaced (a +:+ b) = true → well_spaced a = true ∧ well_spaced b = true.
Proof.
  induction a as [|c a IH]; [done|]. rewrite str_app_cons. simpl.
  intros [Hc Hab]%andb_true_iff. destruct (IH Hab) as [Ha Hb]. split; [|done].
  rewrite Ha, andb_true_r. destruct (PyStr.is_space c); [|done].
  apply andb_true_iff in Hc as [Hc Hclean]. rewrite Hc. simpl.
  by destruct a as [|c' a].
Qed.

Lemma has_upper_strip (s : string) :
  PyStr.has_upper s = false → PyStr.has_upper (PyStr.strip s) = false.
Proof.
  intros Hs. apply negb_true_iff.
  apply (strip_keeps (λ x, negb (PyStr.has_upper x))); [apply no_upper_parts|].
  by rewrite Hs.
Qed.

Lemma lower_no_upper (s : string) : PyStr.has_upper s = false → PyStr.lower s = s.
Proof.
  induction s as [|c s IH]; simpl; [done|].
  intros [Hc Hs]%orb_false_iff. rewrite IH by done. unfold PyStr.lower_char. by rewrite Hc.
Qed.

Lemma lower_lower (s : string) : PyStr.lower (PyStr.lower s) = PyStr.lower s.
Proof. apply lower_no_upper, has_upper_lower. Qed.

Lemma lower_empty (s : string) : PyStr.lower s = "" ↔ s = "".
Proof. by destruct s. Qed.

Lemma keep_chars_all (P : ascii → bool) (s : string) :
  all_chars P s = true → PyStr.keep_chars P s = s.
Proof.
  induction s as [|c s IH]; simpl; [done|].
  intros [Hc Hs]%andb_true_iff. by rewrite Hc, IH.
Qed.

Lemma all_chars_keep_chars (P : ascii → bool) (s : string) :
  all_chars P (PyStr.keep_chars P s) = true.
Proof.
  induction s as [|c s IH]; simpl; [done|].
  destruct (P c) eqn:Hc; [|done]. simpl. by rewrite Hc.
Qed.

Lemma has_upper_keep_chars (P : ascii → bool) (s : string) :
  PyStr.has_upper s = false → PyStr.has_upper (PyStr.keep_chars P s) = false.
Proof.
  induction s as [|c s IH]; simpl; [done|].
  intros [Hc Hs]%orb_false_iff. destruct (P c); [|by apply IH]. simpl. by rewrite Hc, IH.
Qed.

(** What collapsing the runs of white space gives: a well-spaced text,
    with no capital letter and no character of a new kind. *)
Lemma collapse_spaces_from_spec (in_run : bool) (s : string) :
  let r := PyStr.collapse_spaces_from in_run s in
  well_spaced r = true
  ∧ (in_run = true → starts_clean PyStr.is_space r = true)
  ∧ (PyStr.has_upper s = false → PyStr.has_upper r = false)
  ∧ (∀ P : ascii → bool, P " "%char = true → all_chars P s = true → all_chars P r = true).
Proof.
  revert in_run. induction s as [|c s IH]; intros in_run; simpl; [done|].
  destruct (PyStr.is_space c) eqn:Hc.
  - destruct in_run.
    + destruct (IH true) as (Hw & Hclean & Hup & HP). split_and!; [done|by auto| |].
      * intros [_ ?]%orb_false_iff. by apply Hup.
      * intros P HPs [_ ?]%andb_true_iff. by apply HP.
    + destruct (IH true) as (Hw & Hclean & Hup & HP). simpl. split_and!.
      * by rewrite Hw, Hclean.
      * done.
      * intros [_ ?]%orb_false_iff. by apply Hup.
      * intros P HPs [_ ?]%andb_true_iff. rewrite HPs. by apply HP.
  - destruct (IH false) as (Hw & Hclean & Hup & HP). simpl. rewrite Hc. split_and!.
    + done.
    + done.
    + intros [Hcu ?]%orb_false_iff. rewrite Hcu. by apply Hup.
    + intros P HPs [HPc ?]%andb_true_iff. rewrite HPc. by apply HP.
Qed.

Lemma collapse_spaces_from_well_spaced (in_run : bool) (s : string) :
  well_spaced s = true → (in_run = true → starts_clean PyStr.is_space s = true) →
  PyStr.collapse_spaces_from in_run s = s.
Proof.
  revert in_run. induction s as [|c s IH]; intros in_run; simpl; [done|].
  intros [Hc Hs]%andb_true_iff Hstart.
  destruct (PyStr.is_space c) eqn:Hsp.
  - apply andb_true_iff in Hc as [Hc Hclean]. apply bool_decide_eq_true in Hc.
    destruct in_run; [by specialize (Hstart eq_refl)|].
    rewrite IH by done. by subst.
  - by rewrite IH.
Qed.

Lemma has_upper_drop (n : nat) (s : string) :
  PyStr.has_upper s = false → PyStr.has_upper (PyStr.drop n s) = false.
Proof.
  revert s. induction n as [|n IH]; intros s Hs; [done|].
  destruct s as [|c s]; [done|]. simpl in *. apply orb_false_iff in Hs as [_ Hs]. by apply IH.
Qed.

Lemma has_upper_chop (n : nat) (s : string) :
  PyStr.has_upper s = false → PyStr.has_upper (PyStr.chop n s) = false.
Proof.
  intros Hs. unfold PyStr.chop. rewrite has_upper_rev. apply has_upper_drop.
  by rewrite has_upper_rev.
Qed.

Lemma has_upper_sub_prefix (alts : list string) (name : string) :
  PyStr.has_upper name = false → PyStr.has_upper (sub_prefix alts name) = false.
Proof.
  intros Hs. induction alts as [|a alts IH]; [done|]. cbn [sub_prefix].
  destruct (PyStr.startswith a name); [|done].
  match goal with |- context [if ?b then _ else _] => destruct b end;
    [apply (has_upper_drop 1)|]; apply has_upper_drop; exact Hs.
Qed.

Lemma has_upper_match_suffix (alts : list string) (name r : string) :
  PyStr.has_upper name = false → match_suffix alts name = Some r →
  PyStr.has_upper r = false.
Proof.
  intros Hs. induction alts as [|a alts IH]; [done|]. cbn [match_suffix].
  destruct (PyStr.endswith a name); [|done].
  intros [= <-]. match goal with |- context [if ?b then _ else _] => destruct b end;
    [apply (has_upper_chop 1)|]; apply has_upper_chop; exact Hs.
Qed.

Lemma has_upper_sub_suffix (alts : list string) (name : string) :
  PyStr.has_upper name = false → PyStr.has_upper (sub_suffix alts name) = false.
Proof.
  intros Hs. unfold sub_suffix.
  destruct (match_suffix alts name) as [r|] eqn:Hr; [by apply (has_upper_match_suffix alts name)|].
  destruct (PyStr.endswith newline name); [|done].
  destruct (match_suffix alts (PyStr.chop 1 name)) as [r|] eqn:Hr'; [|done].
  rewrite has_upper_app.
  rewrite (has_upper_match_suffix alts (PyStr.chop 1 name) r); [done| |done].
  by apply has_upper_chop.
Qed.

(** ** Name and label normalisation *)

(** X1: [normalize_name] does not see the case of letters: a name and its
    lower-case form have the same normalised name.  The normalised name
    holds no capital letter and neither starts nor ends with white space
    (stripping it again changes nothing). *)
Theorem normalize_name_ignores_case (name : string) :
  normalize_name (PyStr.lower name) = normalize_name name
  ∧ PyStr.has_upper (normalize_name name) = false
  ∧ PyStr.strip (normalize_name name) = normalize_name name.
Proof.
  unfold normalize_name.
  destruct (decide (name = "")) as [->|Hne]; [done|].
  rewrite decide_False by (by rewrite lower_empty).
  rewrite lower_lower. split_and!; [done| |apply strip_idempotent].
  apply has_upper_strip, has_upper_sub_suffix, has_upper_sub_prefix, has_upper_lower.
Qed.

(** X2: [normalize_text] is idempotent, normalising a normalised text
    changes nothing; it does not see the case of letters, and its result
    holds no capital letter and is stripped. *)
Theorem normalize_text_idempotent (text : string) :
  Improved.normalize_text (Improved.normalize_text text) = Improved.normalize_text text
  ∧ Improved.normalize_text (PyStr.lower text) = Improved.normalize_text text
  ∧ PyStr.has_upper (Improved.normalize_text text) = false
  ∧ PyStr.strip (Improved.normalize_text text) = Improved.normalize_text text.
Proof.
  set (P := λ c, PyStr.is_word c || PyStr.is_space c).
  assert (∀ t, Improved.normalize_text t
               = PyStr.strip (PyStr.collapse_spaces (PyStr.keep_chars P (PyStr.lower t))))
    as Hdef.
  { intros t. unfold Improved.normalize_text. by destruct (decide (t = "")) as [->|]. }
  pose proof (collapse_spaces_from_spec false (PyStr.keep_chars P (PyStr.lower text)))
    as (Hw & _ & Hup & HP).
  fold (PyStr.collapse_spaces (PyStr.keep_chars P (PyStr.lower text))) in Hw, Hup, HP.
  set (r := PyStr.collapse_spaces (PyStr.keep_chars P (PyStr.lower text))) in *.
  assert (PyStr.has_upper (PyStr.strip r) = false) as Hup'.
  { apply has_upper_strip, Hup, has_upper_keep_chars, has_upper_lower. }
  assert (all_chars P (PyStr.strip r) = true) as HP'.
  { apply (strip_keeps (all_chars P)); [apply all_chars_parts|].
    apply HP; [done|]. apply all_chars_keep_chars. }
  assert (well_spaced (PyStr.strip r) = true) as Hw'.
  { by apply (strip_keeps well_spaced); [apply well_spaced_parts|]. }
  split_and!.
  - rewrite (Hdef (Improved.normalize_text text)), (Hdef text). fold r.
    rewrite lower_no_upper by done. rewrite keep_chars_all by done.
    unfold PyStr.collapse_spaces. rewrite collapse_spaces_from_well_spaced by done.
    apply strip_idempotent.
  - by rewrite !Hdef, lower_lower.
  - by rewrite Hdef.
  - rewrite Hdef. apply strip_idempotent.
Qed.

(** ** Labels and comments *)

Lemma first_literal_Some (objects : list Term) (l : string) :
  first_literal objects = Some l → ∃ lang, Literal l lang ∈ objects.
Proof.
  induction objects as [|o objects IH]; simpl; [done|].
  destruct o as [iri|id|lexical lang]; simpl.
  - intros [lang Hin]%IH. exists lang. by right.
  - intros [lang Hin]%IH. exists lang. by right.
  - intros [= <-]. exists lang. left.
Qed.

Lemma first_literal_None (objects : list Term) :
  first_literal objects = None ↔ ∀ o, o ∈ objects → is_Literal o = false.
Proof.
  induction objects as [|o objects IH]; simpl.
  - split; [by intros _ o ?%elem_of_nil|done].
  - destruct (is_Literal o) eqn:Ho.
    + split; [done|]. intros Hall. specialize (Hall o (list_elem_of_here _ _)). congruence.
    + rewrite IH. split.
      * intros Hall o' [-> | Hin]%elem_of_cons; [done|by apply Hall].
      * intros Hall o' Hin. apply Hall. by right.
Qed.

Lemma elem_of_objects (g : Graph) (s p o : Term) :
  o ∈ obj <$> triples g (Some s) (Some p) None ↔ (s, p, o) ∈ g.
Proof.
  rewrite list_elem_of_fmap. split.
  - intros ([ [s' p'] o'] & -> & [Ht Hm]%elem_of_triples).
    simpl in Hm. rewrite andb_true_r in Hm. apply andb_true_iff in Hm as [Hs Hp].
    apply bool_decide_eq_true in Hs, Hp. unfold subj, pred in *. simpl in *. by subst.
  - intros Ht. exists (s, p, o). split; [done|]. apply elem_of_triples. split; [done|].
    unfold pos_matches, subj, pred. simpl. by rewrite !bool_decide_eq_true_2.
Qed.

Lemma elem_of_subjects (g : Graph) (p o x : Term) :
  x ∈ subjects g (Some p) (Some o) ↔ (x, p, o) ∈ g.
Proof.
  unfold subjects. rewrite list_elem_of_fmap. split.
  - intros ([ [s' p'] o'] & -> & [Ht Hm]%elem_of_triples).
    simpl in Hm. apply andb_true_iff in Hm as [Hp Ho].
    apply bool_decide_eq_true in Hp, Ho. unfold pred, obj in *. simpl in *. by subst.
  - intros Ht. exists (x, p, o). split; [done|]. apply elem_of_triples. split; [done|].
    unfold pos_matches, pred, obj. simpl. by rewrite !bool_decide_eq_true_2.
Qed.

Lemma elem_of_subjects_any (g : Graph) (x : Term) :
  x ∈ subjects g None None ↔ ∃ p o, (x, p, o) ∈ g.
Proof.
  unfold subjects. rewrite list_elem_of_fmap. split.
  - intros ([ [s p] o] & -> & [Ht _]%elem_of_triples). by exists p, o.
  - intros (p & o & Ht). exists (x, p, o). split; [done|]. by apply elem_of_triples.
Qed.

(** X3: [get_label] returns the text of a literal that the graph gives
    the node as [rdfs:label], and returns [None] exactly when the node has
    no literal label; the same holds for [get_comment] and
    [rdfs:comment]. *)
Theorem get_label_reads_a_literal_label (graph : Graph) (uri : Term) :
  (∀ l, get_label graph uri = Some l → ∃ lang, (uri, RDFS.label, Literal l lang) ∈ graph)
  ∧ (get_label graph uri = None ↔
     ∀ o, (uri, RDFS.label, o) ∈ graph → is_Literal o = false)
  ∧ (∀ c, get_comment graph uri = Some c →
          ∃ lang, (uri, RDFS.comment, Literal c lang) ∈ graph)
  ∧ (get_comment graph uri = None ↔
     ∀ o, (uri, RDFS.comment, o) ∈ graph → is_Literal o = false).
Proof.
  unfold get_label, get_comment. split_and!.
  - intros l [lang Hin]%first_literal_Some. exists lang. by apply elem_of_objects.
  - rewrite first_literal_None. by setoid_rewrite elem_of_objects.
  - intros l [lang Hin]%first_literal_Some. exists lang. by apply elem_of_objects.
  - rewrite first_literal_None. by setoid_rewrite elem_of_objects.
Qed.

(** ** The groups of the Similarity Matcher *)

Section EntriesAll.
Context {K V : Type} `{EqDecision K} (Q : K → V → Prop).

Lemma entries_all_set (d : dict K V) (k : K) (v : V) :
  entries_all Q d → Q k v → entries_all Q (dict_set d k v).
Proof.
  intros Hd Hv. induction Hd as [|[k' v'] d Hkv Hd IH]; simpl.
  - by apply Forall_singleton.
  - destruct (decide (k' = k)) as [->|]; by constructor.
Qed.

Lemma entries_all_get (d : dict K V) (k : K) (v : V) :
  entries_all Q d → dict_get d k = Some v → Q k v.
Proof.
  intros Hd. induction Hd as [|[k' v'] d Hkv Hd IH]; simpl; [done|].
  destruct (decide (k' = k)) as [->|]; [|done]. by intros [= <-].
Qed.

End EntriesAll.

Lemma entries_all_append {V : Type} (Q : string → V → Prop) (d : dict string (list V))
    (k : string) (x : V) :
  entries_all (λ k, Forall (Q k)) d → Q k x →
  entries_all (λ k, Forall (Q k)) (dict_append d k x).
Proof.
  intros Hd Hx. unfold dict_append.
  destruct (dict_get d k) as [l|] eqn:Hl.
  - apply entries_all_set; [done|]. apply Forall_app. split; [|by apply Forall_singleton].
    by apply (entries_all_get (λ k, Forall (Q k)) d k l).
  - apply entries_all_set; [done|]. by apply Forall_singleton.
Qed.

(** Every class on file is filed under the normalised name it has in the
    graph it was read from. *)
Lemma collect_classes_named (ontologies : list Graph) :
  entries_all (λ k, Forall (λ e : ClassEntry, class_named ontologies k e.1.1))
              (collect_classes ontologies).
Proof.
  unfold collect_classes. apply fold_left_invariant; [constructor|].
  intros d [i g] Hd Hig. apply fold_left_invariant; [done|].
  intros d' x Hd' Hx. destruct (is_URIRef x) eqn:Huri; [|done].
  apply (entries_all_append (λ k (e : ClassEntry), class_named ontologies k e.1.1)); [done|].
  split; [done|]. exists g. split_and!; [|by apply elem_of_subjects|done].
  apply (elem_of_enumerate_from _ 0). by exists i.
Qed.

(** X4: every group that [find_similar_classes] returns under the key [k]
    is a non-empty set without repetition, and each of its members is a
    URI-named node that one of the source graphs declares an [owl:Class]
    and whose name in that graph (its label, or the fragment of its URI)
    normalises to [k]. *)
Theorem similar_classes_share_normalized_name (ontologies : list Graph) (k : string)
    (members : list Term) :
  dict_get (find_similar_classes ontologies) k = Some members →
  NoDup members ∧ members ≠ []
  ∧ ∀ x, x ∈ members →
      is_URIRef x = true
      ∧ ∃ g, g ∈ ontologies ∧ (x, RDF.type, OWL.Class) ∈ g
             ∧ normalize_name (label_or_fragment (get_label g x) x) = k.
Proof.
  apply (entries_all_get
    (λ k members, NoDup members ∧ members ≠ [] ∧ ∀ x, x ∈ members → class_named ontologies k x)).
  unfold find_similar_classes. apply fold_left_invariant; [constructor|].
  intros d [normalized classes] Hd Hin.
  destruct (1 <? length classes) eqn:Hlen; [|done]. apply Nat.ltb_lt in Hlen.
  apply entries_all_set; [done|]. unfold py_set. split_and!.
  - apply NoDup_dedup_first.
  - destruct classes; [simpl in Hlen; lia|done].
  - intros x [e [-> He] ]%elem_of_dedup_first%list_elem_of_fmap.
    pose proof (collect_classes_named ontologies) as Hall.
    unfold entries_all in Hall. rewrite Forall_forall in Hall.
    specialize (Hall _ Hin). simpl in Hall. rewrite Forall_forall in Hall. by apply Hall.
Qed.

(** The sources "alerts" and "warnings": the group filed under "alert". *)
Lemma similar_classes_share_normalized_name_witness :
  let ontologies := [Example.alerts; Example.warnings] in
  let members := [Example.ex "Alert"; Example.ex "AlertState"] in
  dict_get (find_similar_classes ontologies) "alert" = Some members
  ∧ NoDup members ∧ members ≠ []
  ∧ ∀ x, x ∈ members →
      is_URIRef x = true
      ∧ ∃ g, g ∈ ontologies ∧ (x, RDF.type, OWL.Class) ∈ g
             ∧ normalize_name (label_or_fragment (get_label g x) x) = "alert".
Proof.
  intros ontologies members.
  assert (dict_get (find_similar_classes ontologies) "alert" = Some members) as H
    by reflexivity.
  split; [exact H|]. exact (similar_classes_share_normalized_name ontologies "alert" members H).
Defined.

(** ** Essential entities *)

Lemma elem_of_set_add (s : list Term) (x y : Term) : y ∈ set_add s x ↔ y ∈ s ∨ y = x.
Proof.
  unfold set_add. destruct (decide (x ∈ s)); [naive_solver|].
  by rewrite elem_of_app, list_elem_of_singleton.
Qed.

Lemma NoDup_set_add (s : list Term) (x : Term) : NoDup s → NoDup (set_add s x).
Proof.
  intros Hs. unfold set_add. destruct (decide (x ∈ s)) as [Hin|Hin]; [done|].
  apply NoDup_app. split_and!; [done| |apply NoDup_singleton].
  intros y Hy ->%list_elem_of_singleton. done.
Qed.

(** A loop that only ever adds to what it has: what it holds in the end. *)
Lemma elem_of_fold_adding {A B : Type} (F : list B → A → list B) (Q : A → B → Prop)
    (l : list A) :
  (∀ acc a x, x ∈ F acc a ↔ x ∈ acc ∨ Q a x) →
  ∀ acc x, x ∈ fold_left F l acc ↔ x ∈ acc ∨ ∃ a, a ∈ l ∧ Q a x.
Proof.
  intros HF. induction l as [|a l IH]; intros acc x; simpl.
  - split; [by left|]. intros [?|(a & ?%elem_of_nil & _)]; done.
  - rewrite IH, HF. split.
    + intros [ [?|?] | (b & Hb & HQ) ]; [by left|right..].
      * exists a. split; [left|done].
      * exists b. split; [by right|done].
    + intros [? | (b & [-> | Hb]%elem_of_cons & HQ) ]; [by left; left|by left; right|].
      right. by exists b.
Qed.

Lemma word_runs_from_no_upper (cur s : string) :
  PyStr.has_upper cur = false → PyStr.has_upper s = false →
  Forall (λ w, PyStr.has_upper w = false) (PyRe.word_runs_from cur s).
Proof.
  assert (∀ cur, PyStr.has_upper cur = false →
            Forall (λ w, PyStr.has_upper w = false) (PyRe.close_run cur)) as Hclose.
  { intros [|c cur'] Hc; simpl; [constructor|]. apply Forall_singleton.
    by rewrite has_upper_rev. }
  revert cur. induction s as [|c s IH]; intros cur Hcur Hs; simpl; [by apply Hclose|].
  simpl in Hs. apply orb_false_iff in Hs as [Hc Hs].
  destruct (PyStr.is_word c).
  - apply IH; [|done]. simpl. by rewrite Hc, Hcur.
  - apply Forall_app. split; [by apply Hclose|]. by apply IH.
Qed.

(** A text without a capital letter holds no capitalised word. *)
Lemma capitalized_words_no_upper (s : string) :
  PyStr.has_upper s = false → PyRe.capitalized_words s = [].
Proof.
  intros Hs. unfold PyRe.capitalized_words. apply elem_of_nil_inv.
  intros w [Hcap Hw]%list_elem_of_filter.
  pose proof (word_runs_from_no_upper "" s eq_refl Hs) as Hall.
  rewrite Forall_forall in Hall. specialize (Hall w Hw).
  destruct w as [|c [|c' w] ]; simpl in Hcap; [done..|].
  apply andb_true_iff in Hcap as [Hc _]. simpl in Hall. by rewrite Hc in Hall.
Qed.

(** X5: [identify_essential_entities] returns, without repetition,
    exactly the URI-named nodes that are the subject of a statement of
    some source graph and whose text, lowered, contains the lowered form
    of a capitalised word of some competency question.  Questions without
    a capital letter select nothing. *)
Theorem essential_entities_are_named_subjects (ontologies : list Graph)
    (competency_questions : list string) :
  let essential := identify_essential_entities ontologies competency_questions in
  NoDup essential
  ∧ (∀ x, x ∈ essential ↔
       is_URIRef x = true
       ∧ ∃ cq word g, cq ∈ competency_questions ∧ word ∈ PyRe.capitalized_words cq
           ∧ g ∈ ontologies ∧ (∃ p o, (x, p, o) ∈ g)
           ∧ PyStr.contains (PyStr.lower word) (PyStr.lower (str x)) = true)
  ∧ ((∀ cq, cq ∈ competency_questions → PyStr.has_upper cq = false) → essential = []).
Proof.
  intros essential.
  assert (∀ x, x ∈ essential ↔
       is_URIRef x = true
       ∧ ∃ cq word g, cq ∈ competency_questions ∧ word ∈ PyRe.capitalized_words cq
           ∧ g ∈ ontologies ∧ (∃ p o, (x, p, o) ∈ g)
           ∧ PyStr.contains (PyStr.lower word) (PyStr.lower (str x)) = true) as Hchar.
  { intros x. subst essential. unfold identify_essential_entities.
    rewrite (elem_of_fold_adding _
      (λ cq x, is_URIRef x = true
               ∧ ∃ word g, word ∈ PyRe.capitalized_words cq ∧ g ∈ ontologies
                   ∧ (∃ p o, (x, p, o) ∈ g)
                   ∧ PyStr.contains (PyStr.lower word) (PyStr.lower (str x)) = true)).
    - split.
      + intros [?%elem_of_nil | (cq & Hcq & Huri & word & g & H) ]; [done|].
        split; [done|]. by exists cq, word, g.
      + intros (Huri & cq & word & g & Hcq & H). right. exists cq. split; [done|].
        split; [done|]. by exists word, g.
    - intros acc cq y.
      rewrite (elem_of_fold_adding _
        (λ word x, is_URIRef x = true
                   ∧ ∃ g, g ∈ ontologies ∧ (∃ p o, (x, p, o) ∈ g)
                       ∧ PyStr.contains (PyStr.lower word) (PyStr.lower (str x)) = true)).
      + split.
        * intros [? | (word & Hw & Huri & g & H) ]; [by left|right].
          split; [done|]. by exists word, g.
        * intros [? | (Huri & word & g & Hw & H) ]; [by left|right].
          exists word. split; [done|]. split; [done|]. by exists g.
      + intros acc' word z.
        rewrite (elem_of_fold_adding _
          (λ g x, is_URIRef x = true ∧ (∃ p o, (x, p, o) ∈ g)
                  ∧ PyStr.contains (PyStr.lower word) (PyStr.lower (str x)) = true)).
        * split.
          -- intros [? | (g & Hg & Huri & H) ]; [by left|right].
             split; [done|]. by exists g.
          -- intros [? | (Huri & g & Hg & H) ]; [by left|right]. by exists g.
        * intros acc'' g u.
          rewrite (elem_of_fold_adding _
            (λ entity x, x = entity ∧ is_URIRef entity
                         && PyStr.contains (PyStr.lower word) (PyStr.lower (str entity)) = true)).
          -- split.
             ++ intros [? | (entity & He%elem_of_subjects_any & -> & Hb) ]; [by left|right].
                by apply andb_true_iff in Hb as [? ?].
             ++ intros [? | (Huri & Hsub & Hc) ]; [by left|right].
                exists u. split; [by apply elem_of_subjects_any|]. split; [done|].
                by rewrite Huri, Hc.
          -- intros acc3 entity v.
             destruct (is_URIRef entity && PyStr.contains _ _).
             ++ rewrite elem_of_set_add. naive_solver.
             ++ naive_solver. }
  split_and!; [|done|].
  - subst essential. unfold identify_essential_entities.
    repeat (apply fold_left_invariant; [try apply NoDup_nil_2; try done|intros; idtac]).
    destruct (is_URIRef _ && _); [by apply NoDup_set_add|done].
  - intros Hlow. apply elem_of_nil_inv. intros x (_ & cq & word & g & Hcq & Hw & _)%Hchar.
    rewrite capitalized_words_no_upper in Hw by by apply Hlow. by apply elem_of_nil in Hw.
Qed.

Example essential_entities_of_a_question :
  PyRe.capitalized_words "Which Alert follows a warning of type A2 or an SOS?"
  = ["Which"; "Alert"; "SOS"]
  ∧ identify_essential_entities [Example.alerts; Example.warnings]
      ["Which Alert follows a warning of type A2 or an SOS?"]
    = [Example.ex "Alert"; Example.ex "AlertState"].
Proof. split; reflexivity. Qed.

(** ** The mapping tables, entry by entry *)

Section MappingEntries.
Context {env : Env}.

(** X6: [create_entity_mappings] touches nothing but the two mapping
    tables, and every entry it leaves in a table either was there before
    or maps a member of a duplicate group to the canonical node of that
    group, which is another node: no node is newly mapped to itself. *)
Theorem mappings_lead_to_canonical (similar_classes similar_properties : dict string (list Term))
    (ontologies : list Graph) (st : Merger) :
  let st' := (create_entity_mappings similar_classes similar_properties ontologies st).1 in
  (∀ k v, dict_get (class_mappings st') k = Some v →
     dict_get (class_mappings st) k = Some v
     ∨ ∃ members, members ∈ similar_classes.*2 ∧ duplicate_group members
                  ∧ canonical_of ontologies members v ∧ k ∈ members ∧ k ≠ v)
  ∧ (∀ k v, dict_get (property_mappings st') k = Some v →
       dict_get (property_mappings st) k = Some v
       ∨ ∃ members, members ∈ similar_properties.*2 ∧ duplicate_group members
                    ∧ canonical_of ontologies members v ∧ k ∈ members ∧ k ≠ v)
  ∧ merged_graph st' = merged_graph st
  ∧ inverse_properties st' = inverse_properties st.
Proof.
  rewrite create_entity_mappings_run. simpl. split_and!; [| |done..].
  - intros k v. apply dict_get_add_groups.
  - intros k v. apply dict_get_add_groups.
Qed.

End MappingEntries.

(** ** The size of the merged graph *)

Lemma length_graph_add (g : Graph) (t : Triple) : length (graph_add g t) ≤ S (length g).
Proof. unfold graph_add. destruct (decide _); [lia|]. rewrite length_app. simpl. lia. Qed.

Lemma length_fold_graph_add {A : Type} (f : A → Triple) (l : list A) (g : Graph) :
  length (fold_left (λ g a, graph_add g (f a)) l g) ≤ length g + length l.
Proof.
  revert g. induction l as [|a l IH]; intros g; simpl; [lia|].
  pose proof (IH (graph_add g (f a))). pose proof (length_graph_add g (f a)). lia.
Qed.

Lemma length_omap_le {A B : Type} (f : A → option B) (l : list A) :
  length (omap f l) ≤ length l.
Proof. induction l as [|a l IH]; csimpl; [lia|]. destruct (f a); csimpl; lia. Qed.

Section Bounds.
Context {env : Env}.

Lemma add_graphs_length (l : list (nat * Graph)) (st : Merger) :
  ∃ g', for_each l (λ '(i, graph), add_graph_with_mappings graph i) st
        = (set_merged_graph g' st, Some tt)
      ∧ length g' ≤ length (merged_graph st) + sum_list ((λ ig, length ig.2) <$> l).
Proof.
  induction l as [|[i g] l IH] in st |- *.
  - exists (merged_graph st). rewrite set_merged_graph_id. split; [done|simpl; lia].
  - cbn [for_each]. rewrite (bind_run _ _ _ _ _ (add_graph_with_mappings_run g i st)).
    destruct (IH (set_merged_graph
      (fold_left (λ acc t, graph_add acc (rewrite_triple st t)) g (merged_graph st)) st))
      as (g' & Hrun & Hg').
    exists g'. split; [rewrite Hrun; by destruct st|].
    rewrite fmap_cons. change (sum_list (?a :: ?x)) with (a + sum_list x).
    revert Hg'. generalize (sum_list ((λ ig : nat * Graph, length ig.2) <$> l)). intros n Hg'.
    cbn [merged_graph set_merged_graph snd] in *.
    pose proof (length_fold_graph_add (rewrite_triple st) g (merged_graph st)). lia.
Qed.

Lemma sum_enumerate_from (ontologies : list Graph) (k : nat) :
  sum_list ((λ ig : nat * Graph, length ig.2) <$> enumerate_from k ontologies)
  = sum_list (length <$> ontologies).
Proof.
  revert k. induction ontologies as [|g l IH]; intros k; [done|].
  cbn [enumerate_from]. rewrite !fmap_cons.
  change (sum_list (?a :: ?x)) with (a + sum_list x). by rewrite IH.
Qed.

Lemma merge_graphs_length (ontologies : list Graph) (st : Merger) :
  length (merged_graph (merge_graphs ontologies st).1)
  ≤ length (merged_graph st) + sum_list (length <$> ontologies)
    + length (inverse_properties st).
Proof.
  unfold merge_graphs.
  rewrite (bind_run _ _ _ _ _ (find_similar_properties_run ontologies st)).
  rewrite (bind_run _ _ _ _ _ (create_entity_mappings_run _ _ ontologies st)).
  set (st1 := with_mappings _ _ ontologies st).
  destruct (add_graphs_length (enumerate ontologies) st1) as (g2 & Hrun & Hg2).
  rewrite (bind_run _ _ _ _ _ Hrun).
  rewrite (bind_run _ _ _ _ _ (add_inverse_property_declarations_run _)).
  rewrite clean_redundant_restrictions_run. simpl.
  pose proof (length_fold_graph_add (λ t : Triple, t)
                (omap (inverse_declaration (set_merged_graph g2 st1)) (inverse_properties st))
                g2) as Hlen.
  pose proof (length_omap_le (inverse_declaration (set_merged_graph g2 st1))
                (inverse_properties st)) as Homap.
  unfold enumerate in Hg2. rewrite sum_enumerate_from in Hg2. simpl in Hg2.
  etrans; [exact Hlen|]. lia.
Qed.

(** X7: a merge adds at most one statement per source statement and one
    per inverse pair on file: after [merge_ontologies] the merged graph
    holds no more statements than it held before, plus the statements of
    the parsed sources (none of them counts when a document is
    rejected), plus the pairs in [inverse_properties]. *)
Theorem merge_adds_at_most_the_source_statements
    (ontology_contents competency_questions : list string) (st : Merger) :
  let st' := (merge_ontologies ontology_contents competency_questions st).1 in
  let ontologies := default [] (mapM parse ontology_contents) in
  length (merged_graph st')
  ≤ length (merged_graph st) + sum_list (length <$> ontologies)
    + length (inverse_properties st).
Proof.
  rewrite merge_ontologies_run.
  destruct (mapM parse ontology_contents) as [ontologies|]; simpl; [|lia].
  apply merge_graphs_length.
Qed.

(** X8: [merge_ontologies] lets no exception escape, and it returns
    [None] exactly when the reader rejects one of the documents or the
    writer raises on the merged graph left on the instance: the stages in
    between never raise.  When every document is read the result is what
    the writer makes of that merged graph.  The pipeline's
    [merge_ontologies_strategically], which runs the merge on an engine of
    its own, returns [None] under the same condition. *)
Theorem merge_fails_only_in_reader_or_writer
    (ontology_contents competency_questions : list string) (st : Merger) :
  let run := merge_ontologies ontology_contents competency_questions st in
  let fresh := merge_ontologies ontology_contents competency_questions
                 (init default_base_uri) in
  run.2 ≠ None
  ∧ (run.2 = Some None
     ↔ (∃ content, content ∈ ontology_contents ∧ parse content = None)
       ∨ serialize (merged_graph run.1) = None)
  ∧ ((∀ content, content ∈ ontology_contents → is_Some (parse content))
     → run.2 = Some (serialize (merged_graph run.1)))
  ∧ (merge_ontologies_strategically ontology_contents competency_questions = Some None
     ↔ (∃ content, content ∈ ontology_contents ∧ parse content = None)
       ∨ serialize (merged_graph fresh.1) = None).
Proof.
  assert (∀ st0,
            let run := merge_ontologies ontology_contents competency_questions st0 in
            run.2 = Some None
            ↔ (∃ content, content ∈ ontology_contents ∧ parse content = None)
              ∨ serialize (merged_graph run.1) = None) as Hiff.
  { intros st0. cbn zeta. rewrite merge_ontologies_run.
    destruct (mapM parse ontology_contents) as [ontologies|] eqn:Hparse; simpl.
    - split; [intros [= ->]; by right|]. intros [(content & Hin & Hbad) | ->]; [|done].
      assert (mapM parse ontology_contents = None) as Hnone; [|congruence].
      apply mapM_None, Exists_exists. by exists content.
    - split; [|done]. intros _. left.
      by apply mapM_None, Exists_exists in Hparse. }
  cbn zeta. split_and!; [| apply Hiff | | apply Hiff].
  - rewrite merge_ontologies_run. by destruct (mapM parse ontology_contents).
  - intros Hall. rewrite merge_ontologies_run.
    destruct (mapM parse ontology_contents) as [ontologies|] eqn:Hparse; simpl; [done|].
    apply mapM_None, Exists_exists in Hparse as (content & Hin & Hbad).
    destruct (Hall content Hin) as [g Hg]. congruence.
Qed.

Lemma add_members_not_duplicate (ontologies : list Graph) (m : dict Term Term)
    (members : list Term) :
  ¬ duplicate_group members → add_members ontologies m members = m.
Proof.
  unfold duplicate_group, add_members. intros Hlen.
  destruct (1 <? length (set_iter members)) eqn:Hlt; [|done].
  by apply Nat.ltb_lt in Hlt.
Qed.

Lemma add_groups_not_duplicate (ontologies : list Graph) (m : dict Term Term)
    (groups : list (list Term)) :
  (∀ members, members ∈ groups → ¬ duplicate_group members) →
  add_groups ontologies m groups = m.
Proof.
  unfold add_groups. induction groups as [|members groups IH]; intros Hno; [done|].
  simpl. rewrite add_members_not_duplicate by (apply Hno; left).
  apply IH. intros members' Hin. apply Hno. by right.
Qed.

Lemma rewrite_triple_unmapped (st : Merger) (t : Triple) :
  class_mappings st = [] → property_mappings st = [] → rewrite_triple st t = t.
Proof.
  intros Hc Hp. destruct t as [ [s p] o]. unfold rewrite_triple, apply_mapping.
  rewrite Hc, Hp. simpl. by destruct (is_URIRef o).
Qed.

(** X9: when the sources hold no duplicate group (no normalised name is
    shared by two different nodes), a merge on a new engine maps nothing
    and the merged graph is the plain union: it holds the ontology
    declaration and the statements of the sources, unchanged, and nothing
    else. *)
Theorem merge_without_duplicates_is_union (ontologies : list Graph) (base : string) :
  (∀ members, members ∈ groups_of ontologies → ¬ duplicate_group members) →
  let st' := (merge_graphs ontologies (init base)).1 in
  class_mappings st' = [] ∧ property_mappings st' = []
  ∧ ∀ x, x ∈ merged_graph st' ↔
         x = (ontology_uri (init base), RDF.type, OWL.Ontology)
         ∨ ∃ g, g ∈ ontologies ∧ x ∈ g.
Proof.
  intros Hno. destruct (merge_graphs_spec ontologies (init base)) as (g' & -> & Hg').
  cbn [fst].
  assert (with_mappings (find_similar_classes ontologies)
            (group_properties (collect_properties ontologies)) ontologies (init base)
          = init base) as Hsame.
  { unfold with_mappings.
    rewrite !add_groups_not_duplicate; [done|..];
      intros members Hin; apply Hno; unfold groups_of, groups_in; apply elem_of_app; auto. }
  rewrite Hsame in Hg' |- *. simpl. split_and!; [done..|].
  intros x. rewrite Hg'. simpl. split.
  - intros [Hx | [ (g & t & Hg & Ht & ->) | (pair & ?%elem_of_nil & _) ] ]; [|right|done].
    + left. unfold graph_add in Hx. simpl in Hx. by apply list_elem_of_singleton in Hx.
    + exists g. split; [done|]. by rewrite rewrite_triple_unmapped.
  - intros [-> | (g & Hg & Hx) ].
    + left. unfold graph_add. simpl. by apply list_elem_of_singleton.
    + right; left. exists g, x. split_and!; [done..|]. by rewrite rewrite_triple_unmapped.
Qed.

End Bounds.

(** The sources "adjacent" and "detects" share no name: their merge is
    their union. *)
Lemma merge_without_duplicates_is_union_witness :
  let ontologies := [Example.adjacent; Example.detects] in
  let st' := (merge_graphs (env := Example.env) ontologies (init default_base_uri)).1 in
  groups_of (env := Example.env) ontologies = []
  ∧ class_mappings st' = [] ∧ property_mappings st' = []
  ∧ ∀ x, x ∈ merged_graph st' ↔
         x = (ontology_uri (init default_base_uri), RDF.type, OWL.Ontology)
         ∨ ∃ g, g ∈ ontologies ∧ x ∈ g.
Proof.
  intros ontologies st'.
  assert (groups_of (env := Example.env) ontologies = []) as Hgroups by reflexivity.
  split; [exact Hgroups|].
  apply (merge_without_duplicates_is_union (env := Example.env) ontologies default_base_uri).
  intros members Hin. rewrite Hgroups in Hin. by apply elem_of_nil in Hin.
Defined.

(** ** Statistics *)

Lemma length_dedup_first {A : Type} `{EqDecision A} (l : list A) :
  length (dedup_first l) ≤ length l.
Proof.
  induction l as [|x l IH]; simpl; [lia|].
  pose proof (length_filter (λ y, y ≠ x) (dedup_first l)). lia.
Qed.

(** The subjects counted for the types [os] are no more than the
    statements that declare a subject to be of one of these types. *)
Lemma typed_subjects_bounded (g : Graph) (p : Term) (os : list Term) :
  NoDup os →
  sum_list ((λ o, length (py_set (subjects g (Some p) (Some o)))) <$> os)
  ≤ length (filter (λ t : Triple, pred t = p ∧ obj t ∈ os) g).
Proof.
  intros Hos. induction Hos as [|o os Hnotin Hos IH].
  - simpl. lia.
  - rewrite fmap_cons. change (sum_list (?a :: ?x)) with (a + sum_list x).
    etrans; [apply Nat.add_le_mono; [apply length_dedup_first|apply IH] |].
    unfold subjects. rewrite length_fmap. unfold triples.
    clear IH. induction g as [|t g IHg]; [simpl; lia|].
    rewrite !filter_cons.
    assert (pos_matches None (subj t) && pos_matches (Some p) (pred t)
              && pos_matches (Some o) (obj t) = true ↔ pred t = p ∧ obj t = o) as Hm.
    { simpl. rewrite andb_true_iff, !bool_decide_eq_true. naive_solver. }
    destruct (decide (pos_matches None (subj t) && pos_matches (Some p) (pred t)
                      && pos_matches (Some o) (obj t) = true)) as [H1|H1];
      destruct (decide (pred t = p ∧ obj t ∈ os)) as [H2|H2];
      destruct (decide (pred t = p ∧ obj t ∈ o :: os)) as [H3|H3];
      cbn [length]; try lia; exfalso; rewrite Hm in H1; clear Hm IHg;
      rewrite elem_of_cons in H3; intuition congruence.
Qed.

Lemma filter_disjoint_bounded {A : Type} (P Q : A → Prop)
    `{∀ x, Decision (P x)} `{∀ x, Decision (Q x)} (l : list A) :
  (∀ x, P x → Q x → False) → length (filter P l) + length (filter Q l) ≤ length l.
Proof.
  intros Hdisj. induction l as [|x l IH]; [simpl; lia|].
  rewrite !filter_cons. destruct (decide (P x)), (decide (Q x)); simpl; try lia.
  exfalso. eauto.
Qed.

(** X10: the counts that [get_statistics] reports fit the total: classes,
    object properties, datatype properties and inverse properties together
    are no more than [total_triples]; the mapping counts are the sizes of
    the two tables.  For the incremental merger, classes, object
    properties, datatype properties and individuals together are no more
    than [total_triples], and neither are the situation classes or the
    event classes. *)
Theorem statistics_counts_bounded_by_total (st : Merger) (st2 : Improved.Merger) :
  (∃ classes obj_props data_props inverse_props,
     get_statistics st
     = [ ("classes", classes); ("object_properties", obj_props);
         ("datatype_properties", data_props); ("inverse_properties", inverse_props);
         ("class_mappings", length (class_mappings st));
         ("property_mappings", length (property_mappings st));
         ("total_triples", length (merged_graph st)) ]
     ∧ classes + obj_props + data_props + inverse_props ≤ length (merged_graph st))
  ∧ (∃ classes obj_props data_props individuals situations events,
       Improved.get_statistics st2
       = [ ("classes", classes); ("object_properties", obj_props);
           ("datatype_properties", data_props); ("individuals", individuals);
           ("situation_classes", situations); ("event_classes", events);
           ("duplicates_detected", length (Improved.entity_mappings st2));
           ("total_triples", length (Improved.merged_graph st2)) ]
       ∧ classes + obj_props + data_props + individuals
         ≤ length (Improved.merged_graph st2)
       ∧ situations ≤ length (Improved.merged_graph st2)
       ∧ events ≤ length (Improved.merged_graph st2)).
Proof.
  split.
  - eexists _, _, _, _. split; [reflexivity|].
    set (g := merged_graph st).
    pose proof (typed_subjects_bounded g RDF.type
                  [OWL.Class; OWL.ObjectProperty; OWL.DatatypeProperty]) as Htyped.
    rewrite !fmap_cons, fmap_nil in Htyped.
    change (sum_list [?a; ?b; ?c]) with (a + (b + (c + 0))) in Htyped.
    pose proof (length_dedup_first (subjects g (Some OWL.inverseOf) None)) as Hinv.
    unfold subjects in Hinv at 2. rewrite length_fmap in Hinv. unfold triples in Hinv.
    pose proof (filter_disjoint_bounded
      (λ t : Triple, pred t = RDF.type
                     ∧ obj t ∈ [OWL.Class; OWL.ObjectProperty; OWL.DatatypeProperty])
      (λ t : Triple, pos_matches None (subj t) && pos_matches (Some OWL.inverseOf) (pred t)
                     && pos_matches None (obj t) = true) g) as Hdisj.
    unfold py_set in *.
    assert (NoDup [OWL.Class; OWL.ObjectProperty; OWL.DatatypeProperty]) as Hnd.
    { apply (bool_decide_unpack _). by vm_compute. }
    specialize (Htyped Hnd).
    assert (length (filter (λ t : Triple, pred t = RDF.type
                     ∧ obj t ∈ [OWL.Class; OWL.ObjectProperty; OWL.DatatypeProperty]) g)
            + length (filter (λ t : Triple, pos_matches None (subj t)
                     && pos_matches (Some OWL.inverseOf) (pred t)
                     && pos_matches None (obj t) = true) g) ≤ length g) as Hsum.
    { apply Hdisj. intros t [Hp _] Hm. simpl in Hm. rewrite andb_true_r in Hm.
      apply bool_decide_eq_true in Hm. by rewrite Hp in Hm. }
    lia.
  - eexists _, _, _, _, _, _. split; [reflexivity|].
    set (g := Improved.merged_graph st2).
    pose proof (typed_subjects_bounded g RDF.type
                  [OWL.Class; OWL.ObjectProperty; OWL.DatatypeProperty;
                   Improved.NamedIndividual]) as Htyped.
    rewrite !fmap_cons, fmap_nil in Htyped.
    change (sum_list [?a; ?b; ?c; ?d]) with (a + (b + (c + (d + 0)))) in Htyped.
    assert (NoDup [OWL.Class; OWL.ObjectProperty; OWL.DatatypeProperty;
                   Improved.NamedIndividual]) as Hnd.
    { apply (bool_decide_unpack _). by vm_compute. }
    specialize (Htyped Hnd).
    pose proof (length_filter (λ t : Triple, pred t = RDF.type
                  ∧ obj t ∈ [OWL.Class; OWL.ObjectProperty; OWL.DatatypeProperty;
                             Improved.NamedIndividual]) g) as Hle.
    assert (∀ parent, length (Improved.subclasses_of g parent) ≤ length g) as Hsub.
    { intros parent. unfold Improved.subclasses_of, py_set.
      etrans; [apply length_dedup_first|]. rewrite length_fmap.
      etrans; [apply length_filter|]. unfold triples. apply length_filter. }
    unfold py_set in *. split_and!; [lia|apply Hsub..].
Qed.

(** ** The incremental merger, method by method *)

Lemma dict_get_elem_of {K V : Type} `{EqDecision K} (d : dict K V) (k : K) (v : V) :
  dict_get d k = Some v → (k, v) ∈ d.
Proof.
  induction d as [|[k' v'] d IH]; simpl; [done|].
  destruct (decide (k' = k)) as [->|]; [intros [= ->]; left|].
  intros Hd. right. by apply IH.
Qed.

(** X11: [find_similar_entity] only ever returns an entity that is on
    file in [label_to_entity]; it returns [None] when no label or an empty
    label is given and when nothing is on file; and an entity on file
    under the normalised label is returned whatever its type and
    comment. *)
Theorem similar_entity_is_on_file (st : Improved.Merger) (entity : Term)
    (label comment : option string) :
  (∀ found, Improved.find_similar_entity st entity label comment = Some found →
     ∃ existing_label, (existing_label, found) ∈ Improved.label_to_entity st)
  ∧ (label = None ∨ label = Some "" ∨ Improved.label_to_entity st = [] →
     Improved.find_similar_entity st entity label comment = None)
  ∧ (∀ l found, label = Some l → l ≠ "" →
       dict_get (Improved.label_to_entity st) (Improved.normalize_text l) = Some found →
       Improved.find_similar_entity st entity label comment = Some found).
Proof.
  unfold Improved.find_similar_entity. split_and!.
  - intros found. destruct label as [l|]; [|done].
    destruct (decide (l = "")); [done|].
    destruct (dict_get (Improved.label_to_entity st) (Improved.normalize_text l))
      as [e|] eqn:He.
    + intros [= <-]. exists (Improved.normalize_text l). by apply dict_get_elem_of.
    + intros ([k v] & Hfind & [= <-])%fmap_Some. apply find_some in Hfind as [Hin _].
      exists k. by apply list_elem_of_In.
  - intros [-> | [-> | Hnil] ]; [done..|].
    destruct label as [l|]; [|done]. destruct (decide (l = "")); [done|].
    by rewrite Hnil.
  - intros l found -> Hne Hfound. rewrite decide_False by done. by rewrite Hfound.
Qed.

Lemma for_each_ext {S A : Type} (l : list A) (body1 body2 : A → Method S unit) :
  (∀ x st, x ∈ l → body1 x st = body2 x st) →
  ∀ st, for_each l body1 st = for_each l body2 st.
Proof.
  induction l as [|x l IH]; intros Hext st; simpl; [done|].
  rewrite !bind_unfold, (Hext x st) by left.
  destruct (body2 x st) as [st' [ [] |] ]; [|done].
  apply IH. intros y st'' Hy. apply Hext. by right.
Qed.

(** A loop whose rounds all return and keep a relation between the state
    before and the state after. *)
Lemma for_each_rel {S A : Type} (R : S → S → Prop) (l : list A) (body : A → Method S unit) :
  (∀ st, R st st) → (∀ a b c, R a b → R b c → R a c) →
  (∀ x st, x ∈ l → ∃ st', body x st = (st', Some tt) ∧ R st st') →
  ∀ st, ∃ st', for_each l body st = (st', Some tt) ∧ R st st'.
Proof.
  intros Hrefl Htrans. induction l as [|x l IH]; intros Hbody st; simpl.
  - by exists st.
  - destruct (Hbody x st) as (st1 & Hrun & HR); [left|].
    rewrite (bind_run _ _ _ _ _ Hrun).
    destruct (IH (λ y st' Hy, Hbody y st' (list_elem_of_further _ _ _ Hy)) st1)
      as (st2 & Hrun2 & HR2).
    exists st2. split; [done|]. by apply (Htrans _ st1).
Qed.

(** A loop whose rounds all return, keep a relation between the state
    before and the state after, and each establish a fact that later
    rounds cannot undo. *)
Lemma for_each_establishes {S A : Type} (R : S → S → Prop) (Q : A → S → Prop)
    (l : list A) (body : A → Method S unit) (st0 : S) :
  (∀ st, R st st) → (∀ a b c, R a b → R b c → R a c) →
  (∀ x st st', R st st' → Q x st → Q x st') →
  (∀ x st, x ∈ l → R st0 st → ∃ st', body x st = (st', Some tt) ∧ R st st' ∧ Q x st') →
  ∃ st', for_each l body st0 = (st', Some tt) ∧ R st0 st' ∧ ∀ x, x ∈ l → Q x st'.
Proof.
  intros Hrefl Htrans Hstable Hbody.
  assert (∀ st, R st0 st →
            ∃ st', for_each l body st = (st', Some tt) ∧ R st st' ∧ ∀ x, x ∈ l → Q x st')
    as Hloop; [|by apply Hloop].
  induction l as [|x l IH]; intros st Hst; simpl.
  - exists st. split_and!; [done..|]. by intros x ?%elem_of_nil.
  - destruct (Hbody x st) as (st1 & Hrun & HR & HQ); [left|done|].
    rewrite (bind_run _ _ _ _ _ Hrun).
    destruct (IH (λ y st' Hy, Hbody y st' (list_elem_of_further _ _ _ Hy)) st1)
      as (st2 & Hrun2 & HR2 & HQ2); [by apply (Htrans _ st)|].
    exists st2. split_and!; [done|by apply (Htrans _ st1)|].
    intros y [-> | Hy]%elem_of_cons; [by apply (Hstable _ st1)|by apply HQ2].
Qed.

Lemma filing_refl (st : Improved.Merger) : Improved.filing st st.
Proof. by repeat split. Qed.

Lemma filing_trans (a b c : Improved.Merger) :
  Improved.filing a b → Improved.filing b c → Improved.filing a c.
Proof.
  intros (H1 & H2 & H3 & H4 & H5 & H6) (H1' & H2' & H3' & H4' & H5' & H6').
  repeat split; [congruence..| |]; eauto.
Qed.

Lemma file_label_filing (s : Term) (normalized_label : string) (st : Improved.Merger) :
  ∃ st', Improved.file_label s normalized_label st = (st', Some tt) ∧ Improved.filing st st'.
Proof.
  unfold Improved.file_label. rewrite (bind_run _ _ st st st) by done.
  destruct (dict_get (Improved.label_to_entity st) normalized_label) as [first|] eqn:Hfirst.
  - eexists. split; [reflexivity|]. by repeat split.
  - eexists. split; [reflexivity|]. repeat split; [done|].
    intros k v Hk. simpl. rewrite dict_get_set.
    destruct (decide (normalized_label = k)) as [->|]; [congruence|done].
Qed.

Lemma file_entity_filing (s : Term) (label : string) (comment : option string)
    (st : Improved.Merger) :
  dict_mem (Improved.entity_mappings st) s = false →
  ∃ st', Improved.file_entity s label comment st = (st', Some tt) ∧ Improved.filing st st'.
Proof.
  intros Hnew. unfold Improved.file_entity. rewrite (bind_run _ _ st st st) by done.
  destruct (Improved.find_similar_entity st s (Some label) comment) as [similar|];
    [|apply file_label_filing].
  destruct (Improved.truthy similar); [|apply file_label_filing].
  eexists. split; [reflexivity|]. repeat split; [|done].
  intros k v Hk. simpl. rewrite dict_get_set.
  destruct (decide (s = k)) as [->|]; [|done].
  unfold dict_mem in Hnew. by rewrite Hk in Hnew.
Qed.

Section AddOntology.
Context {env : Env}.

(** The first pass of [add_ontology] never raises and only files. *)
Lemma first_pass_filing (g : Graph) (st : Improved.Merger) :
  ∃ st',
    for_each (triples g None (Some RDF.type) None)
      (λ '(s, p, o),
         if is_URIRef s && Improved.is_entity_type o then
           match Improved.get_entity_label_comment g s with
           | (Some label, comment) =>
               if decide (label = "") then mret tt
               else
                 st ← get_self;
                 if dict_mem (Improved.entity_mappings st) s then mret tt
                 else Improved.file_entity s label comment
           | (None, _) => mret tt
           end
         else mret tt) st
    = (st', Some tt) ∧ Improved.filing st st'.
Proof.
  apply for_each_rel; [apply filing_refl|apply filing_trans|].
  intros [ [s p] o] st0 _.
  destruct (is_URIRef s && Improved.is_entity_type o);
    [|exists st0; split; [done|apply filing_refl] ].
  destruct (Improved.get_entity_label_comment g s) as [ [label|] comment];
    [|exists st0; split; [done|apply filing_refl] ].
  destruct (decide (label = "")); [exists st0; split; [done|apply filing_refl]|].
  rewrite (bind_run _ _ st0 st0 st0) by done.
  destruct (dict_mem (Improved.entity_mappings st0) s) eqn:Hmem;
    [exists st0; split; [done|apply filing_refl]|].
  by apply file_entity_filing.
Qed.

(** The second pass of [add_ontology] adds the mapped triples. *)
Lemma second_pass_run (g : Graph) (st : Improved.Merger) :
  for_each g
    (λ '(s, p, o),
       st ← get_self;
       let subject := default s (dict_get (Improved.entity_mappings st) s) in
       let object :=
         if is_URIRef o then default o (dict_get (Improved.entity_mappings st) o) else o in
       Improved.graph_add_self (subject, p, object)) st
  = (Improved.set_merged_graph
       (fold_left (λ acc t, graph_add acc (Improved.map_triple st t)) g
                  (Improved.merged_graph st)) st,
     Some tt).
Proof.
  rewrite (for_each_fold _ _
    (λ st' t, Improved.set_merged_graph
                (graph_add (Improved.merged_graph st') (Improved.map_triple st' t)) st')).
  - f_equal. revert st. induction g as [|t g IH]; intros st; simpl.
    + by destruct st.
    + rewrite IH. by destruct st, t as [ [s p] o].
  - by intros [ [s p] o] st' _.
Qed.

Lemma add_graph_run (g : Graph) (st : Improved.Merger) :
  ∃ st1, Improved.filing (Improved.set_temp_graphs (Improved.temp_graphs st ++ [g]) st) st1
    ∧ Improved.add_graph g st
      = (Improved.set_merged_graph
           (fold_left (λ acc t, graph_add acc (Improved.map_triple st1 t)) g
                      (Improved.merged_graph st))
           st1,
         Some tt).
Proof.
  unfold Improved.add_graph.
  rewrite (bind_run (modify _) _ st _ tt) by done.
  destruct (first_pass_filing g (Improved.set_temp_graphs (Improved.temp_graphs st ++ [g]) st))
    as (st1 & Hrun & Hfiling).
  rewrite (bind_run _ _ _ _ _ Hrun). exists st1. split; [done|].
  rewrite second_pass_run. by destruct Hfiling as (_ & _ & -> & _).
Qed.

(** X12: when the reader accepts the document, [add_ontology] returns
    [True], keeps the parsed graph as the last of [temp_graphs], keeps
    every entry of [entity_mappings], and leaves a merged graph that holds
    what it held before and, for every statement of the document, the
    statement with subject and URI-named object sent through the final
    [entity_mappings] and the predicate as it was, and nothing else. *)
Theorem add_ontology_maps_statements (turtle_content : string) (g : Graph)
    (st : Improved.Merger) :
  parse turtle_content = Some g →
  ∃ st', Improved.add_ontology turtle_content st = (st', Some true)
    ∧ Improved.temp_graphs st' = Improved.temp_graphs st ++ [g]
    ∧ (∀ x, x ∈ Improved.merged_graph st' ↔
            x ∈ Improved.merged_graph st ∨ ∃ t, t ∈ g ∧ x = Improved.map_triple st' t)
    ∧ (∀ k v, dict_get (Improved.entity_mappings st) k = Some v →
              dict_get (Improved.entity_mappings st') k = Some v).
Proof.
  intros Hparse. unfold Improved.add_ontology, try_except.
  rewrite bind_unfold, Hparse. simpl.
  destruct (add_graph_run g st) as (st1 & (_ & _ & _ & Htemp & Hmap & _) & Hrun).
  rewrite bind_unfold, Hrun. simpl. eexists. split; [reflexivity|].
  simpl. split_and!; [done| |done].
  intros x. rewrite elem_of_fold_graph_add.
  assert (∀ t, Improved.map_triple (Improved.set_merged_graph
                 (fold_left (λ acc t, graph_add acc (Improved.map_triple st1 t)) g
                            (Improved.merged_graph st)) st1) t
               = Improved.map_triple st1 t) as Heq
    by (by intros [ [s p] o]).
  by setoid_rewrite Heq.
Qed.

Lemma add_ontology_outcome (turtle_content : string) (st : Improved.Merger) :
  ∃ st', Improved.add_ontology turtle_content st
         = (st', Some (bool_decide (is_Some (parse turtle_content))))
    ∧ Improved.base_uri st' = Improved.base_uri st
    ∧ Improved.temp_graphs st' = Improved.temp_graphs st ++ option_list (parse turtle_content).
Proof.
  destruct (parse turtle_content) as [g|] eqn:Hparse.
  - unfold Improved.add_ontology, try_except. rewrite bind_unfold, Hparse. simpl.
    destruct (add_graph_run g st) as (st1 & (Hbase & _ & _ & Htemp & _) & Hrun).
    rewrite bind_unfold, Hrun. simpl. eexists. split; [reflexivity|]. by split.
  - exists st. rewrite improved_add_ontology_rejected by done. simpl.
    by rewrite app_nil_r.
Qed.

Lemma add_ontologies_run (ontologies : dict string string) (st : Improved.Merger) :
  ∃ st', for_each ontologies
           (λ '(ontology_id, content),
              success ← Improved.add_ontology content; mret (M := Method Improved.Merger) tt) st
         = (st', Some tt)
    ∧ Improved.base_uri st' = Improved.base_uri st
    ∧ Improved.temp_graphs st'
      = Improved.temp_graphs st ++ omap (λ kv : string * string, parse kv.2) ontologies.
Proof.
  revert st. induction ontologies as [|[ontology_id content] ontologies IH]; intros st; simpl.
  - exists st. by rewrite app_nil_r.
  - destruct (add_ontology_outcome content st) as (st1 & Hrun & Hbase & Htemp).
    rewrite bind_unfold, bind_unfold, Hrun. simpl.
    destruct (IH st1) as (st2 & Hrun2 & Hbase2 & Htemp2).
    exists st2. split_and!; [done|congruence|].
    rewrite Htemp2, Htemp. destruct (parse content); simpl; by rewrite <- app_assoc.
Qed.

End AddOntology.

(** The first source of the examples, added to a new incremental merger. *)
Lemma add_ontology_maps_statements_witness :
  let st := Improved.init "http://example.org/adaptive-hmi#" in
  parse (Env := Example.env) Example.detects_ttl = Some Example.detects
  ∧ ∃ st', Improved.add_ontology (env := Example.env) Example.detects_ttl st = (st', Some true)
      ∧ Improved.temp_graphs st' = Improved.temp_graphs st ++ [Example.detects]
      ∧ (∀ x, x ∈ Improved.merged_graph st' ↔
              x ∈ Improved.merged_graph st
              ∨ ∃ t, t ∈ Example.detects ∧ x = Improved.map_triple st' t)
      ∧ (∀ k v, dict_get (Improved.entity_mappings st) k = Some v →
                dict_get (Improved.entity_mappings st') k = Some v).
Proof.
  intros st. split; [reflexivity|].
  apply (add_ontology_maps_statements (env := Example.env)). reflexivity.
Defined.

(** *** Comments of merged entities *)

Lemma elem_of_concat {A : Type} (ls : list (list A)) (x : A) :
  x ∈ concat ls ↔ ∃ l, l ∈ ls ∧ x ∈ l.
Proof.
  induction ls as [|l ls IH]; simpl.
  - split; [by intros ?%elem_of_nil|by intros (l & ?%elem_of_nil & _)].
  - rewrite elem_of_app, IH. split.
    + intros [Hx | (l' & Hl' & Hx)]; [exists l; split; [left|done]|].
      exists l'. split; [by right|done].
    + intros (l' & [-> | Hl']%elem_of_cons & Hx); [by left|right; by exists l'].
Qed.

(** The texts of the literal objects of the statements [(s, p, _)]. *)
Lemma elem_of_literal_texts (g : Graph) (s p : Term) (c : string) :
  c ∈ omap (λ o, if is_Literal o then Some (str o) else None)
           (obj <$> triples g (Some s) (Some p) None)
  ↔ ∃ l, (s, p, Literal c l) ∈ g.
Proof.
  rewrite list_elem_of_omap. split.
  - intros (o & Hin%elem_of_objects & Ho).
    destruct o as [| |c' l]; simpl in Ho; [done..|]. injection Ho as ->. by exists l.
  - intros [l Ht]. exists (Literal c l). split; [|done]. by apply elem_of_objects.
Qed.

Lemma commenting_refl (st : Improved.Merger) : Improved.commenting st st.
Proof.
  split_and!; [|done|by left]. exists (Improved.merged_graph st). by destruct st.
Qed.

Lemma commenting_trans (a b c : Improved.Merger) :
  Improved.commenting a b → Improved.commenting b c → Improved.commenting a c.
Proof.
  intros ([g1 ->] & Hsub1 & Hnew1) ([g2 ->] & Hsub2 & Hnew2).
  split_and!; [by exists g2|by eauto|].
  intros x [Hx | Hx]%Hnew2; [by apply Hnew1|by right].
Qed.

Section Consolidate.
Context {env : Env}.

(** One round of [consolidate_entity_descriptions]. *)
Lemma consolidate_round (source target : Term) (st : Improved.Merger) :
  (source, target) ∈ Improved.entity_mappings st →
  let source_comments :=
    dedup_first
      (concat ((λ g, omap (λ o, if is_Literal o then Some (str o) else None)
                          (obj <$> triples g (Some source) (Some RDFS.comment) None))
               <$> Improved.temp_graphs st)) in
  let target_comments :=
    omap (λ o, if is_Literal o then Some (str o) else None)
         (obj <$> triples (Improved.merged_graph st) (Some target) (Some RDFS.comment) None) in
  ∃ st',
    for_each source_comments
      (λ comment,
         if decide (comment ∈ target_comments) then mret tt
         else Improved.graph_add_self (target, RDFS.comment, Literal comment (Some "en"))) st
    = (st', Some tt)
    ∧ Improved.commenting st st'
    ∧ ∀ g c l, g ∈ Improved.temp_graphs st' → (source, RDFS.comment, Literal c l) ∈ g →
               ∃ l', (target, RDFS.comment, Literal c l') ∈ Improved.merged_graph st'.
Proof.
  intros Hpair source_comments target_comments.
  rewrite (for_each_fold _ _
    (λ st' comment,
       if decide (comment ∈ target_comments) then st'
       else Improved.set_merged_graph
              (graph_add (Improved.merged_graph st')
                 (target, RDFS.comment, Literal comment (Some "en"))) st'))
    by (intros c st' _; by destruct (decide _)).
  assert (∀ l st0,
            fold_left
              (λ st' comment,
                 if decide (comment ∈ target_comments) then st'
                 else Improved.set_merged_graph
                        (graph_add (Improved.merged_graph st')
                           (target, RDFS.comment, Literal comment (Some "en"))) st') l st0
            = Improved.set_merged_graph
                (fold_left
                   (λ g comment,
                      if decide (¬ comment ∈ target_comments)
                      then graph_add g (target, RDFS.comment, Literal comment (Some "en"))
                      else g) l (Improved.merged_graph st0)) st0) as Hfold.
  { induction l as [|c l IH]; intros st0; simpl; [by destruct st0|].
    rewrite IH. destruct (decide (c ∈ target_comments)).
    - by rewrite decide_False by tauto.
    - rewrite decide_True by done. by destruct st0. }
  rewrite Hfold. eexists. split; [reflexivity|].
  assert (∀ x, x ∈ fold_left
                     (λ g comment,
                        if decide (¬ comment ∈ target_comments)
                        then graph_add g (target, RDFS.comment, Literal comment (Some "en"))
                        else g) source_comments (Improved.merged_graph st)
               ↔ x ∈ Improved.merged_graph st
                 ∨ ∃ c, c ∈ source_comments ∧ (c ∉ target_comments)
                        ∧ x = (target, RDFS.comment, Literal c (Some "en"))) as Hg'.
  { intros x.
    apply (elem_of_fold_graph_add_if (λ c, ¬ c ∈ target_comments)
             (λ c, (target, RDFS.comment, Literal c (Some "en")))). }
  assert (∀ c, c ∈ source_comments ↔
               ∃ g l, g ∈ Improved.temp_graphs st ∧ (source, RDFS.comment, Literal c l) ∈ g)
    as Hsource.
  { intros c. subst source_comments. rewrite elem_of_dedup_first, elem_of_concat. split.
    - intros (texts & (g & -> & Hg)%list_elem_of_fmap & [l Hc]%elem_of_literal_texts).
      by exists g, l.
    - intros (g & l & Hg & Hc). eexists. split.
      + apply list_elem_of_fmap. by exists g.
      + apply elem_of_literal_texts. by exists l. }
  split_and!.
  - split_and!; [by eexists| |]; simpl.
    + intros x Hx. apply Hg'. by left.
    + intros x [Hx | (c & (g & l & Hg & Hc)%Hsource & _ & ->) ]%Hg'; [by left|right].
      by exists source, target, g, c, l.
  - simpl. intros g c l Hg Hc.
    destruct (decide (c ∈ target_comments)) as [Hin|Hin].
    + apply elem_of_literal_texts in Hin as [l' Hin]. exists l'. apply Hg'. by left.
    + exists (Some "en"). apply Hg'. right. exists c. split_and!; [|done..].
      apply Hsource. by exists g, l.
Qed.

(** What [consolidate_entity_descriptions] does to the instance. *)
Lemma consolidate_entity_descriptions_spec (st : Improved.Merger) :
  ∃ g', Improved.consolidate_entity_descriptions st
        = (Improved.set_merged_graph g' st, Some tt)
    ∧ (∀ x, x ∈ Improved.merged_graph st → x ∈ g')
    ∧ (∀ x, x ∈ g' → x ∈ Improved.merged_graph st ∨ Improved.carried_comment st x)
    ∧ (∀ source target g c l,
         (source, target) ∈ Improved.entity_mappings st → g ∈ Improved.temp_graphs st →
         (source, RDFS.comment, Literal c l) ∈ g →
         ∃ l', (target, RDFS.comment, Literal c l') ∈ g').
Proof.
  unfold Improved.consolidate_entity_descriptions.
  rewrite (bind_run _ _ st st st) by done.
  destruct (for_each_establishes Improved.commenting
    (λ (pair : Term * Term) st',
       ∀ g c l, g ∈ Improved.temp_graphs st' → (pair.1, RDFS.comment, Literal c l) ∈ g →
                ∃ l', (pair.2, RDFS.comment, Literal c l') ∈ Improved.merged_graph st')
    (Improved.entity_mappings st)
    (λ '(source, target),
       st ← get_self;
       let source_comments :=
         dedup_first
           (concat ((λ g, omap (λ o, if is_Literal o then Some (str o) else None)
                               (obj <$> triples g (Some source) (Some RDFS.comment) None))
                    <$> Improved.temp_graphs st)) in
       let target_comments :=
         omap (λ o, if is_Literal o then Some (str o) else None)
              (obj <$> triples (Improved.merged_graph st) (Some target) (Some RDFS.comment) None) in
       for_each source_comments
         (λ comment,
            if decide (comment ∈ target_comments) then mret tt
            else Improved.graph_add_self (target, RDFS.comment, Literal comment (Some "en"))))
    st commenting_refl commenting_trans) as (st' & Hrun & ([g' ->] & Hsub & Hnew) & Hall).
  - intros [source target] st1 st2 ([g2 ->] & Hsub & _) HQ g c l Hg Hc. simpl in *.
    destruct (HQ g c l Hg Hc) as [l' Hl']. exists l'. by apply Hsub.
  - intros [source target] st1 Hin ([g1 ->] & _ & _).
    rewrite (bind_run get_self _ _ _ _ eq_refl).
    by apply (consolidate_round source target (Improved.set_merged_graph g1 st)).
  - exists g'. split_and!; [done..|].
    intros source target g c l Hpair Hg Hc. by apply (Hall (source, target) Hpair g c l).
Qed.

(** X13: [consolidate_entity_descriptions] never raises and changes only
    the merged graph, which keeps every statement it held; every statement
    it gains is an English [rdfs:comment] on the target of an entity
    mapping, with the text of a comment that a source graph gives to the
    mapped entity; and afterwards the target carries a comment with the
    text of every literal comment the source graphs give to the mapped
    entity. *)
Theorem consolidation_keeps_comment_texts (st : Improved.Merger) :
  ∃ g', Improved.consolidate_entity_descriptions st
        = (Improved.set_merged_graph g' st, Some tt)
    ∧ (∀ x, x ∈ Improved.merged_graph st → x ∈ g')
    ∧ (∀ x, x ∈ g' → x ∈ Improved.merged_graph st ∨ Improved.carried_comment st x)
    ∧ (∀ source target g c l,
         (source, target) ∈ Improved.entity_mappings st → g ∈ Improved.temp_graphs st →
         (source, RDFS.comment, Literal c l) ∈ g →
         ∃ l', (target, RDFS.comment, Literal c l') ∈ g').
Proof. apply consolidate_entity_descriptions_spec. Qed.

End Consolidate.

(** *** Entities with the same normalised label *)

Lemma elem_of_graph_remove (g : Graph) (t x : Triple) :
  x ∈ graph_remove g t ↔ x ∈ g ∧ x ≠ t.
Proof. unfold graph_remove. rewrite list_elem_of_filter. tauto. Qed.

(** Replacing the items of a list by their images, one after the other,
    when no image is itself an item of the list. *)
Lemma elem_of_fold_replace (f : Triple → Triple) (l : list Triple) (g : Graph) (x : Triple) :
  (∀ t t', t ∈ l → t' ∈ l → f t ≠ t') →
  x ∈ fold_left (λ g t, graph_add (graph_remove g t) (f t)) l g ↔
  (x ∈ g ∧ x ∉ l) ∨ ∃ t, t ∈ l ∧ x = f t.
Proof.
  revert g. induction l as [|t l IH]; intros g Hf; simpl.
  - split; [intros ?; left; split; [done|apply not_elem_of_nil]|].
    intros [ [? _] | (t & ?%elem_of_nil & _) ]; done.
  - rewrite IH by (intros t1 t2 H1 H2; apply Hf; by right).
    rewrite elem_of_graph_add, elem_of_graph_remove, not_elem_of_cons. split.
    + intros [ [ [ [Hx Hne] | ->] Hnl] | (t' & Ht' & ->) ].
      * by left.
      * right. exists t. split; [left|done].
      * right. exists t'. split; [by right|done].
    + intros [ (Hx & Hne & Hnl) | (t' & [-> | Ht']%elem_of_cons & ->) ].
      * left. split; [|done]. by left.
      * left. split; [by right|]. intros Hin. by apply (Hf t (f t)); [left|right|].
      * right. by exists t'.
Qed.

Section Replace.
Context {env : Env}.

Lemma replace_loop_run (l : list Triple) (f : Triple → Triple) (st : Improved.Merger) :
  for_each l (λ t, Improved.graph_remove_self t ;; Improved.graph_add_self (f t)) st
  = (Improved.set_merged_graph
       (fold_left (λ g t, graph_add (graph_remove g t) (f t)) l (Improved.merged_graph st)) st,
     Some tt).
Proof.
  rewrite (for_each_fold _ _
    (λ st t, Improved.set_merged_graph
               (graph_add (graph_remove (Improved.merged_graph st) t) (f t)) st)) by done.
  f_equal. revert st. induction l as [|t l IH]; intros st; simpl.
  - by destruct st.
  - rewrite IH. by destruct st.
Qed.

(** [replace_entity] never raises; what it leaves on the instance. *)
Lemma replace_entity_run (entity keep_entity : Term) (st : Improved.Merger) :
  let g1 := fold_left (λ g t, graph_add (graph_remove g t) (keep_entity, pred t, obj t))
              (triples (Improved.merged_graph st) (Some entity) None None)
              (Improved.merged_graph st) in
  let g2 := fold_left (λ g t, graph_add (graph_remove g t) (subj t, pred t, keep_entity))
              (triples g1 None None (Some entity)) g1 in
  Improved.replace_entity entity keep_entity st
  = (Improved.set_merged_graph g2
       (Improved.set_entity_mappings
          (dict_set (Improved.entity_mappings st) entity keep_entity) st),
     Some tt).
Proof.
  intros g1 g2. unfold Improved.replace_entity.
  rewrite (bind_run (modify _) _ st _ tt) by done.
  set (st1 := Improved.set_entity_mappings _ st).
  rewrite (bind_run get_self _ st1 st1 st1) by done.
  assert (for_each (triples (Improved.merged_graph st1) (Some entity) None None)
            (λ '(s, p, o), Improved.graph_remove_self (s, p, o) ;;
                           Improved.graph_add_self (keep_entity, p, o)) st1
          = (Improved.set_merged_graph g1 st1, Some tt)) as Hloop1.
  { rewrite (for_each_ext _ _
      (λ t, Improved.graph_remove_self t ;; Improved.graph_add_self (keep_entity, pred t, obj t)))
      by (by intros [ [s p] o] st' _).
    exact (replace_loop_run _ (λ t, (keep_entity, pred t, obj t)) st1). }
  rewrite (bind_run _ _ _ _ _ Hloop1).
  set (st2 := Improved.set_merged_graph g1 st1).
  rewrite (bind_run get_self _ st2 st2 st2) by done.
  assert (for_each (triples (Improved.merged_graph st2) None None (Some entity))
            (λ '(s, p, o), Improved.graph_remove_self (s, p, o) ;;
                           Improved.graph_add_self (s, p, keep_entity)) st2
          = (Improved.set_merged_graph g2 st2, Some tt)) as Hloop2.
  { rewrite (for_each_ext _ _
      (λ t, Improved.graph_remove_self t ;; Improved.graph_add_self (subj t, pred t, keep_entity)))
      by (by intros [ [s p] o] st' _).
    exact (replace_loop_run _ (λ t, (subj t, pred t, keep_entity)) st2). }
  rewrite Hloop2. by destruct st.
Qed.

(** X14: when [merge_similar_entities] gives up an entity for the entity
    it keeps, the merged graph becomes the old graph with the kept entity
    substituted for the other as subject and as object: every old
    statement is there in substituted form and nothing else is, so the
    entity given up is no longer subject or object of any statement; the
    entity is recorded as mapped to the kept one. *)
Theorem replace_entity_substitutes (entity keep_entity : Term) (st : Improved.Merger) :
  entity ≠ keep_entity →
  let st' := (Improved.replace_entity entity keep_entity st).1 in
  (∀ x, x ∈ Improved.merged_graph st' ↔
        ∃ t, t ∈ Improved.merged_graph st ∧ x = substitute entity keep_entity t)
  ∧ (∀ x, x ∈ Improved.merged_graph st' → subj x ≠ entity ∧ obj x ≠ entity)
  ∧ dict_get (Improved.entity_mappings st') entity = Some keep_entity.
Proof.
  intros Hne. rewrite replace_entity_run.
  cbn [fst Improved.merged_graph Improved.set_merged_graph
       Improved.entity_mappings Improved.set_entity_mappings].
  set (g0 := Improved.merged_graph st).
  set (g1 := fold_left _ (triples g0 (Some entity) None None) g0).
  assert (∀ x, x ∈ g1 ↔ (x ∈ g0 ∧ subj x ≠ entity)
                         ∨ ∃ t, t ∈ g0 ∧ subj t = entity ∧ x = (keep_entity, pred t, obj t))
    as Hg1.
  { intros x. subst g1. rewrite elem_of_fold_replace.
    - split.
      + intros [ [Hx Hnot] | (t & [Ht Hs]%elem_of_triples_subject & ->) ].
        * left. split; [done|]. intros Hs. apply Hnot, elem_of_triples_subject. by split.
        * right. by exists t.
      + intros [ [Hx Hs] | (t & Ht & Hs & ->) ].
        * left. split; [done|]. by intros [_ ?]%elem_of_triples_subject.
        * right. exists t. split; [|done]. by apply elem_of_triples_subject.
    - intros t t' _ [_ Ht']%elem_of_triples_subject Heq. subst t'.
      unfold subj in Ht'. simpl in Ht'. done. }
  assert (∀ x, x ∈ fold_left (λ g t, graph_add (graph_remove g t) (subj t, pred t, keep_entity))
                     (triples g1 None None (Some entity)) g1
               ↔ (x ∈ g1 ∧ obj x ≠ entity)
                 ∨ ∃ t, t ∈ g1 ∧ obj t = entity ∧ x = (subj t, pred t, keep_entity)) as Hg2.
  { intros x. rewrite elem_of_fold_replace.
    - split.
      + intros [ [Hx Hnot] | (t & [Ht Hs]%elem_of_triples_object & ->) ].
        * left. split; [done|]. intros Hs. apply Hnot, elem_of_triples_object. by split.
        * right. by exists t.
      + intros [ [Hx Hs] | (t & Ht & Hs & ->) ].
        * left. split; [done|]. by intros [_ ?]%elem_of_triples_object.
        * right. exists t. split; [|done]. by apply elem_of_triples_object.
    - intros t t' _ [_ Ht']%elem_of_triples_object Heq. subst t'.
      unfold obj in Ht'. simpl in Ht'. done. }
  split_and!.
  - intros x. rewrite Hg2. unfold substitute. split.
    + intros [ [Hx Ho] | (t & Ht & Ho & ->) ].
      * apply Hg1 in Hx as [ [Hx Hs] | (t & Ht & Hs & ->) ].
        -- exists x. split; [done|]. rewrite !decide_False by done. by destruct x as [ [? ?] ?].
        -- exists t. split; [done|]. simpl in Ho.
           rewrite decide_True by done. by rewrite decide_False by done.
      * apply Hg1 in Ht as [ [Ht Hs] | (t0 & Ht0 & Hs & ->) ].
        -- exists t. split; [done|]. rewrite decide_False by done. by rewrite decide_True by done.
        -- exists t0. split; [done|]. simpl in Ho. simpl.
           rewrite decide_True by done. by rewrite decide_True by done.
    + intros (t & Ht & ->).
      destruct (decide (subj t = entity)) as [Hs|Hs], (decide (obj t = entity)) as [Ho|Ho].
      * right. exists (keep_entity, pred t, obj t). split_and!; [|done..].
        apply Hg1. right. by exists t.
      * left. split; [|done]. apply Hg1. right. by exists t.
      * right. exists t. split_and!; [|done..]. apply Hg1. by left.
      * left. split; [|done]. destruct t as [ [s p] o]. apply Hg1. by left.
  - intros x [ [Hx Ho] | (t & Ht & Ho & ->) ]%Hg2.
    + split; [|done]. apply Hg1 in Hx as [ [Hx Hs] | (t & Ht & Hs & ->) ]; [done|].
      simpl. by intros <-.
    + split; [|simpl; by intros <-].
      apply Hg1 in Ht as [ [Ht Hs] | (t0 & Ht0 & Hs & ->) ]; [done|]. simpl. by intros <-.
  - rewrite dict_get_set. by rewrite decide_True.
Qed.

Lemma merge_similar_entities_run (st : Improved.Merger) :
  ∃ st', Improved.merge_similar_entities st = (st', Some tt)
    ∧ Improved.base_uri st' = Improved.base_uri st
    ∧ Improved.temp_graphs st' = Improved.temp_graphs st.
Proof.
  unfold Improved.merge_similar_entities. rewrite (bind_run _ _ st st st) by done.
  apply (for_each_rel (λ st st', Improved.base_uri st' = Improved.base_uri st
                               ∧ Improved.temp_graphs st' = Improved.temp_graphs st)).
  - done.
  - intros a b c [? ?] [? ?]. split; congruence.
  - intros [label entities] st0 _.
    destruct (length entities <=? 1) eqn:Hlen; [by exists st0|].
    rewrite (bind_run _ _ st0 st0 st0) by done.
    destruct entities as [|e entities]; [done|].
    unfold Improved.sorted_desc. simpl foldr.
    destruct (Improved.insert_desc _ e _) as [|keep rest] eqn:Hsorted.
    { by apply insert_desc_not_nil in Hsorted. }
    simpl head. unfold lift_option. rewrite (bind_run _ _ st0 st0 keep) by done.
    apply (for_each_rel (λ st st', Improved.base_uri st' = Improved.base_uri st
                                 ∧ Improved.temp_graphs st' = Improved.temp_graphs st)).
    + done.
    + intros a b c [? ?] [? ?]. split; congruence.
    + intros entity st1 _. destruct (decide (entity ≠ keep)); [|by exists st1].
      rewrite replace_entity_run. eexists. split; [reflexivity|]. done.
Qed.

(** X15: [merge_ontologies] of the incremental merger lets no exception
    escape and is stopped by no document: whatever the documents and
    whatever was on the instance, it returns what the writer makes of the
    merged graph it leaves on the instance, so that it returns [None]
    exactly when the writer raises on that graph; it keeps [base_uri], and
    keeps for reference exactly the graphs of the documents the reader
    accepted, in the order of the documents. *)
Theorem improved_merge_fails_only_in_writer (ontologies : dict string string)
    (st : Improved.Merger) :
  ∃ st', Improved.merge_ontologies ontologies st
         = (st', Some (serialize (Improved.merged_graph st')))
    ∧ ((Improved.merge_ontologies ontologies st).2 = Some None
       ↔ serialize (Improved.merged_graph st') = None)
    ∧ Improved.base_uri st' = Improved.base_uri st
    ∧ Improved.temp_graphs st' = omap (λ kv : string * string, parse kv.2) ontologies.
Proof.
  assert (∃ st', Improved.merge_ontologies ontologies st
                 = (st', Some (serialize (Improved.merged_graph st')))
            ∧ Improved.base_uri st' = Improved.base_uri st
            ∧ Improved.temp_graphs st'
              = omap (λ kv : string * string, parse kv.2) ontologies)
    as (st' & Hrun & Hbase & Htemp).
  { unfold Improved.merge_ontologies, try_except.
    rewrite (bind_run (modify _) _ st _ tt) by done.
    destruct (add_ontologies_run ontologies (Improved.init (Improved.base_uri st)))
      as (st1 & Hrun1 & Hbase1 & Htemp1).
    rewrite (bind_run _ _ _ _ _ Hrun1).
    destruct (consolidate_entity_descriptions_spec st1) as (g2 & Hrun2 & _).
    rewrite (bind_run _ _ _ _ _ Hrun2).
    destruct (merge_similar_entities_run (Improved.set_merged_graph g2 st1))
      as (st3 & Hrun3 & Hbase3 & Htemp3).
    rewrite (bind_run _ _ _ _ _ Hrun3).
    rewrite (bind_run get_self _ st3 st3 st3) by done.
    rewrite bind_unfold. exists st3. split_and!.
    - simpl. by destruct (serialize (Improved.merged_graph st3)).
    - by rewrite Hbase3; simpl; rewrite Hbase1.
    - by rewrite Htemp3; simpl; rewrite Htemp1. }
  exists st'. split_and!; [done| |done..].
  rewrite Hrun. simpl. split; congruence.
Qed.

(** X16: the documents the reader rejects have no part in a merge of the
    incremental merger: the outcome, result and instance, is that of the
    merge of the accepted documents alone. *)
Theorem improved_merge_ignores_rejected (ontologies : dict string string)
    (st : Improved.Merger) :
  Improved.merge_ontologies ontologies st
  = Improved.merge_ontologies
      (filter (λ kv : string * string, is_Some (parse kv.2)) ontologies) st.
Proof.
  unfold Improved.merge_ontologies, try_except.
  rewrite !(bind_run (modify _) _ st _ tt) by done.
  rewrite !(bind_unfold (for_each _ _)).
  assert (∀ st0,
    for_each ontologies
      (λ '(ontology_id, content),
         success ← Improved.add_ontology content; mret (M := Method Improved.Merger) tt) st0
    = for_each (filter (λ kv : string * string, is_Some (parse kv.2)) ontologies)
        (λ '(ontology_id, content),
           success ← Improved.add_ontology content; mret (M := Method Improved.Merger) tt) st0)
    as ->; [|done].
  induction ontologies as [|[ontology_id content] ontologies IH]; intros st0; [done|].
  destruct (parse content) as [g|] eqn:Hparse.
  - rewrite filter_cons_True by (simpl; rewrite Hparse; eauto).
    simpl. rewrite !(bind_unfold (Improved.add_ontology content ≫= _)).
    destruct ((Improved.add_ontology content ≫= _) st0) as [st1 [ [] |] ]; [apply IH|done].
  - rewrite filter_cons_False by (simpl; rewrite Hparse; by intros [? ?]).
    simpl. rewrite (bind_unfold (Improved.add_ontology content ≫= _)).
    rewrite (bind_run _ _ _ _ _ (improved_add_ontology_rejected content st0 Hparse)).
    apply IH.
Qed.

End Replace.

(** The statements of the source "senses" with [:senses] given up for
    [:detects]. *)
Lemma replace_entity_substitutes_witness :
  let entity := Example.ex "senses" in
  let keep_entity := Example.ex "detects" in
  let st := Improved.set_merged_graph Example.senses
              (Improved.init "http://example.org/adaptive-hmi#") in
  let st' := (Improved.replace_entity entity keep_entity st).1 in
  entity ≠ keep_entity
  ∧ (∀ x, x ∈ Improved.merged_graph st' ↔
          ∃ t, t ∈ Improved.merged_graph st ∧ x = substitute entity keep_entity t)
  ∧ (∀ x, x ∈ Improved.merged_graph st' → subj x ≠ entity ∧ obj x ≠ entity)
  ∧ dict_get (Improved.entity_mappings st') entity = Some keep_entity.
Proof.
  intros entity keep_entity st st'.
  assert (entity ≠ keep_entity) as Hne by done.
  split; [exact Hne|]. exact (replace_entity_substitutes entity keep_entity st Hne).
Defined.

(** ** The in-place merge of duplicates *)

(** What the loop of [find_duplicates] holds after any number of label
    statements: the first node seen with each text, and the nodes seen
    with each text that came up twice or more. *)
Lemma find_duplicates_invariant (l : list Triple) (label : string) :
  let acc := fold_left find_duplicates_step l ([], []) in
  let sharers :=
    subj <$> filter (λ t : Triple, is_Literal (obj t) = true ∧ str (obj t) = label) l in
  dict_get acc.1 label = head sharers
  ∧ dict_get acc.2 label = (if 1 <? length sharers then Some sharers else None).
Proof.
  induction l as [|t l IH] using rev_ind; [done|].
  rewrite fold_left_app. simpl.
  destruct (fold_left find_duplicates_step l ([], [])) as [label_dict duplicates].
  simpl in IH. destruct IH as [IH1 IH2].
  rewrite filter_app, fmap_app. unfold find_duplicates_step at 1 2.
  destruct (is_Literal (obj t)) eqn:Hlit.
  - destruct (decide (str (obj t) = label)) as [<-|Hne].
    + rewrite (filter_cons_True _ t []) by done. rewrite filter_nil. simpl.
      rewrite IH1.
      destruct (subj <$> filter _ l) as [|first sharers] eqn:Hsh; simpl.
      * rewrite dict_get_set. rewrite decide_True by done. by rewrite IH2.
      * rewrite dict_get_set, decide_True by done. rewrite IH1, IH2. simpl.
        rewrite length_app. simpl.
        by destruct sharers as [|second sharers].
    + rewrite (filter_cons_False _ t []) by (by intros [_ ?]).
      rewrite filter_nil, app_nil_r.
      destruct (dict_get label_dict (str (obj t))) as [first|]; simpl;
        by rewrite dict_get_set, decide_False by done.
  - rewrite (filter_cons_False _ t []) by (intros [? _]; congruence).
    by rewrite filter_nil, app_nil_r.
Qed.

(** X17: [find_duplicates] lists under a label text exactly the subjects
    of the [rdfs:label] statements whose object is a literal with that
    text, in store order, provided there are at least two such statements;
    a text carried by fewer than two label statements is no key. *)
Theorem find_duplicates_lists_label_sharers (g : Graph) (label : string) :
  dict_get (Duplicates.find_duplicates g) label
  = if 1 <? length (label_sharers g label) then Some (label_sharers g label) else None.
Proof.
  exact (proj2 (find_duplicates_invariant (triples g None (Some RDFS.label) None) label)).
Qed.

(** X18: [transfer_relationships] never removes a statement; every
    statement it adds has the target as subject or as object; and when the
    source is subject or object of no statement the graph stays as it
    is. *)
Theorem transfer_relationships_only_adds (g : Graph) (source_uri target_uri : Term) :
  let g' := Duplicates.transfer_relationships g source_uri target_uri in
  (∀ t, t ∈ g → t ∈ g')
  ∧ (∀ x, x ∈ g' → x ∈ g ∨ subj x = target_uri ∨ obj x = target_uri)
  ∧ ((∀ t, t ∈ g → subj t ≠ source_uri ∧ obj t ≠ source_uri) → g' = g).
Proof.
  split_and!.
  - intros t Ht. apply elem_of_transfer_relationships. by left.
  - intros x Hx. apply elem_of_transfer_relationships_inv in Hx
      as [Hx | [ (t & _ & _ & ->) | (t & _ & _ & _ & _ & ->) ] ]; auto.
  - intros Habsent. unfold Duplicates.transfer_relationships.
    assert (triples g None None (Some source_uri) = []) as ->.
    { apply elem_of_nil_inv. intros t [Ht Hm]%elem_of_triples_object.
      by destruct (Habsent t Ht). }
    simpl.
    assert (triples g (Some source_uri) None None = []) as ->; [|done].
    apply elem_of_nil_inv. intros t [Ht Hm]%elem_of_triples_subject.
    by destruct (Habsent t Ht).
Qed.

(** X19: after [_merge_entities] the duplicate is neither subject nor
    object of any statement; the statements that did not mention it are
    all kept; every statement of the new graph is a statement of the old
    one or a statement of the old one with the primary node in the place
    of the duplicate; and the table of duplicates is not refreshed. *)
Theorem merge_entities_removes_duplicate (primary_uri duplicate_uri : Term)
    (st : Duplicates.Merger) :
  let st' := (Duplicates._merge_entities primary_uri duplicate_uri st).1 in
  (∀ t, t ∈ Duplicates.graph st' → subj t ≠ duplicate_uri ∧ obj t ≠ duplicate_uri)
  ∧ (∀ t, t ∈ Duplicates.graph st → subj t ≠ duplicate_uri → obj t ≠ duplicate_uri →
          t ∈ Duplicates.graph st')
  ∧ (∀ x, x ∈ Duplicates.graph st' →
          x ∈ Duplicates.graph st
          ∨ ∃ t, t ∈ Duplicates.graph st ∧ x = substitute duplicate_uri primary_uri t)
  ∧ Duplicates.duplicates st' = Duplicates.duplicates st.
Proof.
  simpl. unfold Duplicates.merged_entities.
  set (g := Duplicates.graph st).
  assert (∀ x : Triple,
            x ∈ Duplicates.graph_remove_pattern
                  (Duplicates.graph_remove_pattern
                     (Duplicates.transfer_relationships g duplicate_uri primary_uri)
                     (Some duplicate_uri) None None)
                  None None (Some duplicate_uri) ↔
            x ∈ Duplicates.transfer_relationships g duplicate_uri primary_uri
            ∧ subj x ≠ duplicate_uri ∧ obj x ≠ duplicate_uri) as Hkept.
  { intros x. rewrite !elem_of_graph_remove_pattern. simpl. rewrite !andb_true_r.
    rewrite !bool_decide_eq_false. naive_solver. }
  split_and!; [| | |done].
  - intros t Ht. apply Hkept in Ht. tauto.
  - intros t Ht Hs Ho. apply Hkept. split_and!; [|done..].
    apply elem_of_transfer_relationships. by left.
  - intros x (Hx & Hs & Ho)%Hkept.
    apply elem_of_transfer_relationships_inv in Hx
      as [Hx | [ (t & Ht & Hobj & ->) | (t & Ht & Hsubj & _ & _ & ->) ] ]; [by left|right..].
    + exists t. split; [done|]. unfold substitute. simpl in Hs.
      rewrite decide_False by done. by rewrite decide_True by done.
    + destruct Ht as [Ht | (t0 & Ht0 & Hobj0 & ->) ].
      * exists t. split; [done|]. unfold substitute. simpl in Ho.
        rewrite decide_True by done. by rewrite decide_False by done.
      * exists t0. split; [done|]. unfold substitute. simpl in Hsubj. simpl.
        rewrite decide_True by done. by rewrite decide_True by done.
Qed.

(** X20: [_select_primary_uri] raises on an empty list of duplicates;
    otherwise the node it returns is one of the duplicates: the preferred
    one when the preferences name a node of the list for the label, the
    first of the list in every other case. *)
Theorem primary_uri_is_one_of_the_duplicates (label : string) (uris : list Term)
    (preferences : option (dict string string)) :
  (uris = [] → Duplicates._select_primary_uri label uris preferences = None)
  ∧ (∀ primary_uri, Duplicates._select_primary_uri label uris preferences = Some primary_uri →
       primary_uri ∈ uris
       ∧ (head uris = Some primary_uri
          ∨ ∃ prefs, preferences = Some prefs
                     ∧ dict_get prefs label = Some (str primary_uri)))
  ∧ (∀ prefs preferred, preferences = Some prefs → dict_get prefs label = Some preferred →
       URIRef preferred ∈ uris →
       Duplicates._select_primary_uri label uris preferences = Some (URIRef preferred))
  ∧ (∀ prefs preferred, preferences = Some prefs → dict_get prefs label = Some preferred →
       URIRef preferred ∉ uris →
       Duplicates._select_primary_uri label uris preferences = head uris).
Proof.
  unfold Duplicates._select_primary_uri. split_and!.
  - intros ->. destruct preferences as [ [|kv prefs] |]; [done| |done].
    destruct (dict_get (kv :: prefs) label); [|done].
    rewrite decide_False; [done|]. apply not_elem_of_nil.
  - intros primary_uri Hsel.
    assert (head uris = Some primary_uri → primary_uri ∈ uris) as Hhead.
    { destruct uris as [|u uris]; [done|]. intros [= ->]. left. }
    destruct preferences as [ [|kv prefs] |]; [by auto..| |by auto].
    destruct (dict_get (kv :: prefs) label) as [preferred|] eqn:Hpref; [|by auto].
    destruct (decide (URIRef preferred ∈ uris)) as [Hin|Hin]; [|by auto].
    injection Hsel as <-. split; [done|]. right. by exists (kv :: prefs).
  - intros prefs preferred -> Hpref Hin.
    destruct prefs as [|kv prefs]; [done|]. rewrite Hpref. by rewrite decide_True.
  - intros prefs preferred -> Hpref Hin.
    destruct prefs as [|kv prefs]; [done|]. rewrite Hpref. by rewrite decide_False.
Qed.

Lemma dict_set_not_nil {K V : Type} `{EqDecision K} (d : dict K V) (k : K) (v : V) :
  dict_set d k v ≠ [].
Proof. destruct d as [|[k' v'] d]; simpl; [done|]. by destruct (decide (k' = k)). Qed.

Lemma fold_dict_set_not_nil {V : Type} (f : Term → V) (uris : list Term) (d : dict Term V) :
  d ≠ [] → fold_left (λ d uri, dict_set d uri (f uri)) uris d ≠ [].
Proof.
  revert d. induction uris as [|u uris IH]; intros d Hd; simpl; [done|].
  apply IH, dict_set_not_nil.
Qed.

Lemma max_by_count_is_Some (count : Term → nat) (uris : list Term) :
  uris ≠ [] → is_Some (Duplicates.max_by_count count uris).
Proof.
  intros Hne. unfold Duplicates.max_by_count.
  assert (fold_left (λ d uri, dict_set d uri (count uri)) uris [] ≠ []) as Hd.
  { destruct uris as [|u uris]; [done|]. simpl. by apply fold_dict_set_not_nil. }
  destruct (fold_left _ uris []) as [|kv d]; [done|]. simpl. eauto.
Qed.

(** The loop of [merge_with_strategy] never raises, whatever the
    strategy, and leaves the table of duplicates as it is. *)
Lemma merge_by_strategy_run (strategy : string) (st : Duplicates.Merger) :
  ∃ g', Duplicates.merge_by_strategy strategy st = (Duplicates.set_graph g' st, Some tt).
Proof.
  unfold Duplicates.merge_by_strategy.
  rewrite (bind_run get_self _ st st st) by done.
  assert (∀ (l : dict string (list Term)) (st0 : Duplicates.Merger),
            ∃ g', for_each l
                    (λ '(label, uris),
                       if 1 <? length uris then
                         st1 ← get_self;
                         primary_uri ← lift_option
                           (if decide (strategy = "most_connected")
                            then Duplicates.max_by_count
                                   (Duplicates.connection_count (Duplicates.graph st1)) uris
                            else if decide (strategy = "most_properties")
                            then Duplicates.max_by_count
                                   (Duplicates.property_count (Duplicates.graph st1)) uris
                            else head uris);
                         Duplicates.merge_into primary_uri uris
                       else mret tt) st0
                  = (Duplicates.set_graph g' st0, Some tt)) as Hloop.
  { assert (∀ primary_uri (uris : list Term) (st0 : Duplicates.Merger),
              ∃ g', Duplicates.merge_into primary_uri uris st0
                    = (Duplicates.set_graph g' st0, Some tt)) as Hinto.
    { intros primary_uri uris. unfold Duplicates.merge_into.
      induction uris as [|uri uris IH]; intros st0; simpl.
      - exists (Duplicates.graph st0). by destruct st0.
      - rewrite bind_unfold. destruct (decide (uri ≠ primary_uri)); simpl.
        + destruct (IH (Duplicates.set_graph
                          (Duplicates.merged_entities (Duplicates.graph st0) primary_uri uri)
                          st0)) as [g' ->]. by exists g'.
        + apply IH. }
    induction l as [|[label uris] l IH]; intros st0; simpl.
    - exists (Duplicates.graph st0). by destruct st0.
    - rewrite bind_unfold.
      destruct (1 <? length uris) eqn:Hlen; [|apply IH].
      apply Nat.ltb_lt in Hlen.
      assert (uris ≠ []) as Hne by (intros ->; simpl in Hlen; lia).
      rewrite (bind_run get_self _ st0 st0 st0) by done.
      assert (∃ u, (if decide (strategy = "most_connected")
                    then Duplicates.max_by_count
                           (Duplicates.connection_count (Duplicates.graph st0)) uris
                    else if decide (strategy = "most_properties")
                    then Duplicates.max_by_count
                           (Duplicates.property_count (Duplicates.graph st0)) uris
                    else head uris) = Some u) as [u ->].
      { destruct (decide (strategy = "most_connected")).
        - apply (max_by_count_is_Some _ uris Hne).
        - destruct (decide (strategy = "most_properties")).
          + apply (max_by_count_is_Some _ uris Hne).
          + destruct uris as [|u uris]; [done|]. by exists u. }
      rewrite (bind_run _ _ st0 st0 u) by done.
      destruct (Hinto u uris st0) as [g1 ->].
      destruct (IH (Duplicates.set_graph g1 st0)) as [g' ->]. by exists g'. }
  apply Hloop.
Qed.

(** With the strategy 'first' the loop of [merge_with_strategy] is the
    loop of [merge_all_duplicates] without preferences. *)
Lemma first_strategy_loop (st : Duplicates.Merger) :
  Duplicates.merge_by_strategy "first" st = Duplicates.merge_duplicate_sets None st
  ∧ Duplicates.merge_by_strategy "first" st = Duplicates.merge_duplicate_sets (Some []) st.
Proof.
  unfold Duplicates.merge_by_strategy, Duplicates.merge_duplicate_sets.
  rewrite !(bind_run _ _ st st st) by done.
  split; apply for_each_ext; intros [label uris] st0 _;
    (destruct (1 <? length uris); [|done]);
    rewrite (bind_run _ _ st0 st0 st0) by done;
    unfold Duplicates._merge_duplicate_set, Duplicates._select_primary_uri;
    rewrite decide_False by done; by rewrite decide_False by done.
Qed.

Section Saving.
Context {Files : Type} (serialize_to : Graph → string → Method Files unit).

(** [save_ontology] ends as the writer ends. *)
Lemma save_ontology_run (g : Graph) (output_file : string) (files : Files) :
  Duplicates.save_ontology serialize_to g output_file files
  = serialize_to g output_file files.
Proof.
  unfold Duplicates.save_ontology, try_except.
  by destruct (serialize_to g output_file files) as [files' [ [] |] ].
Qed.

(** X21: [merge_with_strategy] raises for a strategy it does not know,
    before it has touched the graph or a file.  With one of the three
    strategies it knows the merging never raises, whatever the graph and the
    table of duplicates, and the table is left as it is; the merged graph is
    then handed to the writer, and the method returns or raises as the
    writer does. *)
Theorem merge_with_strategy_raises_on_unknown_or_unwritable (output_file strategy : string)
    (st : Duplicates.Merger) (files : Files) :
  (strategy ∉ ["first"; "most_connected"; "most_properties"] →
     Duplicates.merge_with_strategy serialize_to output_file strategy (st, files)
     = ((st, files), None))
  ∧ (strategy ∈ ["first"; "most_connected"; "most_properties"] →
     ∃ g', let written := serialize_to g' output_file files in
       Duplicates.merge_with_strategy serialize_to output_file strategy (st, files)
       = ((Duplicates.set_graph g' st, written.1), written.2)).
Proof.
  unfold Duplicates.merge_with_strategy. split; intros Hs.
  - by rewrite bool_decide_eq_false_2 by done.
  - rewrite bool_decide_eq_true_2 by done.
    destruct (merge_by_strategy_run strategy st) as [g' Hrun].
    exists g'. rewrite bind_unfold. unfold Duplicates.on_self at 1. simpl.
    rewrite Hrun. simpl. rewrite bind_unfold. unfold Duplicates.on_self, get_self. simpl.
    unfold Duplicates.on_files. simpl. by rewrite save_ontology_run.
Qed.

(** X22: when the table of duplicates is not empty, the strategy 'first'
    and [merge_all_duplicates] without preferences (none given, or an empty
    dictionary) have the same outcome: the same graph, the same file
    written, the same normal or exceptional end.  When the table is empty
    they differ: [merge_all_duplicates] returns at once and writes nothing,
    and [merge_with_strategy] hands the graph as it is to the writer and
    returns or raises as the writer does. *)
Theorem first_strategy_is_merge_without_preferences (output_file : string)
    (preferences : option (dict string string)) (st : Duplicates.Merger) (files : Files) :
  (Duplicates.duplicates st ≠ [] →
     Duplicates.merge_with_strategy serialize_to output_file "first" (st, files)
     = Duplicates.merge_all_duplicates serialize_to output_file None (st, files)
     ∧ Duplicates.merge_with_strategy serialize_to output_file "first" (st, files)
       = Duplicates.merge_all_duplicates serialize_to output_file (Some []) (st, files))
  ∧ (Duplicates.duplicates st = [] →
     Duplicates.merge_all_duplicates serialize_to output_file preferences (st, files)
     = ((st, files), Some tt)
     ∧ Duplicates.merge_with_strategy serialize_to output_file "first" (st, files)
       = let written := serialize_to (Duplicates.graph st) output_file files in
         ((st, written.1), written.2)).
Proof.
  unfold Duplicates.merge_with_strategy, Duplicates.merge_all_duplicates.
  rewrite bool_decide_eq_true_2 by (apply (bool_decide_unpack _); by vm_compute).
  rewrite !(bind_unfold (Duplicates.on_self get_self)).
  unfold Duplicates.on_self at 2 4 6. simpl.
  destruct (first_strategy_loop st) as [Hnone Hempty].
  split.
  - intros Hne. destruct (Duplicates.duplicates st) as [|kv l] eqn:Hd; [done|].
    rewrite !(bind_unfold (Duplicates.on_self _)). unfold Duplicates.on_self at 1 3 5.
    simpl. by rewrite <- Hnone, <- Hempty.
  - intros Hnil. rewrite Hnil. split; [done|].
    rewrite bind_unfold. unfold Duplicates.on_self at 1. simpl.
    unfold Duplicates.merge_by_strategy. rewrite (bind_run get_self _ st st st) by done.
    rewrite Hnil. simpl. rewrite bind_unfold. unfold Duplicates.on_self, get_self. simpl.
    unfold Duplicates.on_files. simpl. by rewrite save_ontology_run.
Qed.

End Saving.

(** X23: [get_entity_info] lists as properties of a node exactly its
    statements with a predicate other than [rdf:type] and [rdfs:label], as
    references exactly the statements that point to it with a predicate
    other than [rdf:type], as types exactly its [rdf:type] statements; and
    whatever it lists as property or reference of a duplicate,
    [transfer_relationships] carries over to the primary node. *)
Theorem reported_relationships_are_transferred (g : Graph) (uri primary_uri : Term) :
  let info := Duplicates.get_entity_info g uri in
  let g' := Duplicates.transfer_relationships g uri primary_uri in
  (∀ p o, (p, o) ∈ Duplicates.properties info ↔
          (uri, p, o) ∈ g ∧ p ≠ RDF.type ∧ p ≠ RDFS.label)
  ∧ (∀ s p, (s, p) ∈ Duplicates.references info ↔ (s, p, uri) ∈ g ∧ p ≠ RDF.type)
  ∧ (∀ o, ("type", o) ∈ Duplicates.types info ↔ (uri, RDF.type, o) ∈ g)
  ∧ (∀ p o, (p, o) ∈ Duplicates.properties info → (primary_uri, p, o) ∈ g')
  ∧ (∀ s p, (s, p) ∈ Duplicates.references info → (s, p, primary_uri) ∈ g').
Proof.
  intros info g'.
  assert (∀ p o, (p, o) ∈ Duplicates.properties info ↔
                 (uri, p, o) ∈ g ∧ p ≠ RDF.type ∧ p ≠ RDFS.label) as Hprops.
  { intros p o. subst info. simpl. rewrite list_elem_of_fmap. split.
    - intros ([ [s p'] o'] & [= -> ->]
              & [ [Hty Hla] [Ht Hs]%elem_of_triples_subject]%list_elem_of_filter).
      unfold subj in Hs. simpl in *. by subst.
    - intros (Ht & Hty & Hla). exists (uri, p, o). split; [done|].
      apply list_elem_of_filter. split; [done|]. by apply elem_of_triples_subject. }
  assert (∀ s p, (s, p) ∈ Duplicates.references info ↔ (s, p, uri) ∈ g ∧ p ≠ RDF.type)
    as Hrefs.
  { intros s p. subst info. simpl. rewrite list_elem_of_fmap. split.
    - intros ([ [s' p'] o'] & [= -> ->]
              & [Hty [Ht Ho]%elem_of_triples_object]%list_elem_of_filter).
      unfold obj in Ho. simpl in *. by subst.
    - intros (Ht & Hty). exists (s, p, uri). split; [done|].
      apply list_elem_of_filter. split; [done|]. by apply elem_of_triples_object. }
  split_and!; [done..| | |].
  - intros o. subst info. simpl. rewrite list_elem_of_fmap. split.
    + intros (t & [= ->] & Ht). apply elem_of_objects.
      apply list_elem_of_fmap. by exists t.
    + intros ([ [s p] o'] & -> & Ht)%elem_of_objects%list_elem_of_fmap. by exists (s, p, o').
  - intros p o (Ht & Hty & Hla)%Hprops. apply elem_of_transfer_relationships.
    right; right. exists (uri, p, o). split_and!; [by left|done..].
  - intros s p (Ht & _)%Hrefs. apply elem_of_transfer_relationships.
    right; left. by exists (s, p, uri).
Qed.

(** ** The report on duplicates *)

Lemma get_duplicate_stats_fold (l : dict string (list Term)) (total labels mx : nat) :
  fold_left
    (λ stats '(label, uris),
       if (1 <? length uris)%nat then
         let stats := Analyzer.update stats "duplicate_labels" (λ n, n + 1) in
         let stats := Analyzer.update stats "total_duplicates" (λ n, n + (length uris - 1)) in
         Analyzer.update stats "max_duplicates" (λ n, Nat.max n (length uris))
       else stats)
    l [ ("total_duplicates", total); ("duplicate_labels", labels); ("max_duplicates", mx) ]
  = let groups := filter (λ uris, 1 < length uris) l.*2 in
    [ ("total_duplicates", total + sum_list ((λ uris, length uris - 1) <$> groups));
      ("duplicate_labels", labels + length groups);
      ("max_duplicates", Nat.max mx (max_list (length <$> groups))) ].
Proof.
  revert total labels mx. induction l as [|[label uris] l IH]; intros total labels mx; simpl.
  - by rewrite !Nat.add_0_r, Nat.max_0_r.
  - destruct (1 <? length uris) eqn:Hlen.
    + apply Nat.ltb_lt in Hlen. rewrite filter_cons_True by done.
      unfold Analyzer.update. simpl. rewrite IH. simpl.
      by rewrite <- !Nat.add_assoc, <- Nat.max_assoc.
    + apply Nat.ltb_ge in Hlen. rewrite filter_cons_False by lia. apply IH.
Qed.

Lemma duplicate_stats_bounds (groups : list (list Term)) :
  Forall (λ uris : list Term, 1 < length uris) groups →
  let total := sum_list ((λ uris : list Term, length uris - 1) <$> groups) in
  let labels := length groups in
  let mx := max_list (length <$> groups) in
  labels ≤ total ∧ mx ≤ total + 1 ∧ mx ≠ 1 ∧ (labels = 0 ↔ mx = 0)
  ∧ (labels = 1 → mx = total + 1).
Proof.
  induction 1 as [|uris groups Hlen _ IH]; [simpl; lia|].
  rewrite !fmap_cons. cbn [sum_list sum_list_with max_list max_list_with length].
  cbn zeta in IH.
  destruct groups as [|uris' groups]; [simpl; unfold id; lia|].
  revert IH.
  generalize (sum_list ((λ uris : list Term, length uris - 1) <$> uris' :: groups)).
  generalize (max_list (length <$> uris' :: groups)).
  simpl length. unfold id. lia.
Qed.

(** Every list of [find_duplicates] holds two nodes or more. *)
Lemma find_duplicates_pairs (g : Graph) :
  Forall (λ uris : list Term, 1 < length uris) (Duplicates.find_duplicates g).*2.
Proof.
  unfold Duplicates.find_duplicates.
  apply (fold_left_invariant
    (λ acc : dict string Term * dict string (list Term),
       Forall (λ uris : list Term, 1 < length uris) acc.2.*2)); [constructor|].
  intros [label_dict duplicates] t Hd _. simpl in *.
  destruct (is_Literal (obj t)); [|done].
  destruct (dict_get label_dict (str (obj t))) as [first|]; [|done]. simpl.
  assert (1 < length (match dict_get duplicates (str (obj t)) with
                      | Some uris => uris
                      | None => [first]
                      end ++ [subj t])) as Hlen.
  { rewrite length_app. simpl.
    destruct (dict_get duplicates (str (obj t))) as [uris|] eqn:Hget; [|simpl; lia].
    apply dict_get_elem_of in Hget. rewrite Forall_fmap, Forall_forall in Hd.
    specialize (Hd _ Hget). simpl in Hd. lia. }
  revert Hlen. generalize (match dict_get duplicates (str (obj t)) with
                           | Some uris => uris
                           | None => [first]
                           end ++ [subj t]). intros uris Hlen.
  induction duplicates as [|[k v] d IH]; simpl.
  - by apply Forall_singleton.
  - apply Forall_cons in Hd as [Hv Hd].
    destruct (decide (k = str (obj t))); constructor; auto.
Qed.

(** X24: the three figures of [get_duplicate_stats] fit together: there
    are at least as many duplicate nodes as labels with duplicates, the
    largest group is at most one more than the number of duplicate nodes
    and is never 1, it is 0 exactly when no label has duplicates, and with
    one such label it is the number of duplicate nodes plus one.  For an
    analyzer just created every label of the table counts. *)
Theorem duplicate_stats_consistent (st : Analyzer.Analyzer) (g : Graph) :
  (∃ total labels mx,
     Analyzer.get_duplicate_stats st
     = [ ("total_duplicates", total); ("duplicate_labels", labels); ("max_duplicates", mx) ]
     ∧ labels ≤ total ∧ mx ≤ total + 1 ∧ mx ≠ 1
     ∧ (labels = 0 ↔ mx = 0)
     ∧ (labels = 1 → mx = total + 1))
  ∧ dict_get (Analyzer.get_duplicate_stats (Analyzer.init g)) "duplicate_labels"
    = Some (length (Duplicates.find_duplicates g)).
Proof.
  unfold Analyzer.get_duplicate_stats. rewrite !get_duplicate_stats_fold. cbn zeta. split.
  - eexists _, _, _. split; [reflexivity|].
    rewrite !Nat.add_0_l, Nat.max_0_l.
    apply duplicate_stats_bounds, Forall_forall.
    by intros uris [? _]%list_elem_of_filter.
  - simpl. f_equal.
    pose proof (find_duplicates_pairs g) as Hall.
    rewrite <- (length_fmap snd (Duplicates.find_duplicates g)).
    f_equal. induction Hall as [|uris l Hlen Hall IH]; [done|].
    rewrite filter_cons_True by done. by rewrite IH.
Qed.

Section Conflicts.
Context (list_of_set : list string → list string).
Hypothesis list_of_set_perm : ∀ l, list_of_set l ≡ₚ l.

Lemma elem_of_conflicting_of (g : Graph) (uris : list Term) (p : string) :
  uris ≠ [] →
  p ∈ conflicting_of g uris ↔
  (∃ u, u ∈ uris ∧ p ∈ Analyzer.property_names g u)
  ∧ (∃ u, u ∈ uris ∧ p ∉ Analyzer.property_names g u).
Proof.
  intros Hne. unfold conflicting_of. destruct uris as [|u uris]; [done|]. clear Hne.
  rewrite fmap_cons. cbn [Analyzer.intersection_all Analyzer.union_all default].
  unfold id. rewrite list_elem_of_filter, elem_of_dedup_first, list_elem_of_filter.
  rewrite <- fmap_cons.
  assert (p ∈ concat (Analyzer.property_names g <$> u :: uris)
          ↔ ∃ u', u' ∈ u :: uris ∧ p ∈ Analyzer.property_names g u') as ->.
  { rewrite elem_of_concat. split.
    - intros (s & (u' & -> & Hu')%list_elem_of_fmap & Hp). by exists u'.
    - intros (u' & Hu' & Hp). exists (Analyzer.property_names g u'). split; [|done].
      apply list_elem_of_fmap. by exists u'. }
  rewrite Forall_fmap, Forall_forall. simpl.
  split.
  - intros [Hnot Hsome]. split; [done|].
    destruct (decide (p ∈ Analyzer.property_names g u)) as [Hu|Hu].
    + destruct (decide (Exists (λ u', p ∉ Analyzer.property_names g u') uris)) as [Hex|Hex].
      * apply Exists_exists in Hex as (u' & Hu' & Hp). exists u'. split; [by right|done].
      * exfalso. apply Hnot. split; [|done]. intros u' Hu'.
        destruct (decide (p ∈ Analyzer.property_names g u')); [done|].
        exfalso. apply Hex, Exists_exists. by exists u'.
    + exists u. split; [left|done].
  - intros [Hsome (u' & Hu' & Hp)]. split; [|done].
    intros [Hall Hu]. apply elem_of_cons in Hu' as [-> | Hu']; [done|].
    by apply Hp, Hall.
Qed.

(** [find_conflicting_properties] never raises: a group that is looked at
    has two members or more. *)
Lemma find_conflicting_properties_fold (g : Graph) (l : dict string (list Term))
    (conflicts : dict string (list string)) :
  fold_left
    (λ conflicts '(label, uris),
       conflicts ← conflicts;
       if (1 <? length uris)%nat then
         let property_sets := Analyzer.property_names g <$> uris in
         all_properties ← Analyzer.union_all property_sets;
         common_properties ← Analyzer.intersection_all property_sets;
         let conflicting := filter (λ x, x ∉ common_properties) all_properties in
         if conflicting is [] then Some conflicts
         else Some (dict_set conflicts label (list_of_set conflicting))
       else Some conflicts)
    l (Some conflicts)
  = Some (fold_left
            (λ conflicts '(label, uris),
               if (1 <? length uris)%nat then
                 if conflicting_of g uris is [] then conflicts
                 else dict_set conflicts label (list_of_set (conflicting_of g uris))
               else conflicts)
            l conflicts).
Proof.
  revert conflicts. induction l as [|[label uris] l IH]; intros conflicts; [done|].
  cbn [fold_left]. rewrite <- IH. f_equal. simpl.
  destruct (1 <? length uris) eqn:Hlen; [|done].
  unfold conflicting_of. destruct uris as [|u uris]; [done|].
  rewrite fmap_cons. cbn [Analyzer.intersection_all Analyzer.union_all default mbind option_bind].
  by destruct (filter _ _).
Qed.

Lemma conflict_keys_fold (g : Graph) (l : dict string (list Term))
    (conflicts : dict string (list string)) (label : string) :
  dict_mem (fold_left
              (λ conflicts '(label, uris),
                 if (1 <? length uris)%nat then
                   if conflicting_of g uris is [] then conflicts
                   else dict_set conflicts label (list_of_set (conflicting_of g uris))
                 else conflicts)
              l conflicts) label = true
  ↔ dict_mem conflicts label = true
    ∨ ∃ uris, (label, uris) ∈ l ∧ 1 < length uris ∧ conflicting_of g uris ≠ [].
Proof.
  revert conflicts. induction l as [|[label' uris] l IH]; intros conflicts; cbn [fold_left].
  - split; [by left|]. intros [?|(uris & ?%elem_of_nil & _)]; done.
  - rewrite IH. clear IH.
    assert (dict_mem
              (if 1 <? length uris
               then if conflicting_of g uris is []
                    then conflicts
                    else dict_set conflicts label' (list_of_set (conflicting_of g uris))
               else conflicts) label = true
            ↔ dict_mem conflicts label = true
              ∨ (label' = label ∧ 1 < length uris ∧ conflicting_of g uris ≠ [])) as ->.
    { destruct (1 <? length uris) eqn:Hlen.
      - apply Nat.ltb_lt in Hlen.
        destruct (conflicting_of g uris) as [|p ps]; [naive_solver|].
        rewrite dict_mem_set, orb_true_iff, bool_decide_eq_true. naive_solver.
      - apply Nat.ltb_ge in Hlen. split; [by left|]. intros [?|(_ & ? & _)]; [done|lia]. }
    split.
    + intros [ [?|(-> & Hlen & Hc)] | (uris' & Hin & Hlen & Hc) ]; [by left|right..].
      * exists uris. split; [left|done].
      * exists uris'. split; [by right|done].
    + intros [?|(uris' & [ [= -> ->] | Hin]%elem_of_cons & Hlen & Hc)].
      * by left; left.
      * by left; right.
      * right. by exists uris'.
Qed.

(** X25: [find_conflicting_properties] never raises.  What it reports
    for a label is not empty and holds, in some order, exactly the
    predicates (other than [rdf:type] and [rdfs:label]) that some node of
    a group listed for the label has and some node of it does not have;
    and a label is reported as soon as two nodes listed for it differ in
    such a predicate. *)
Theorem conflicting_properties_differ_between_duplicates (st : Analyzer.Analyzer) :
  ∃ conflicts,
    Analyzer.find_conflicting_properties list_of_set st = Some conflicts
    ∧ (∀ label props, dict_get conflicts label = Some props →
         props ≠ []
         ∧ ∃ uris, (label, uris) ∈ Analyzer.duplicates st ∧ 1 < length uris
             ∧ ∀ p, p ∈ props ↔
                 (∃ u, u ∈ uris ∧ p ∈ Analyzer.property_names (Analyzer.graph st) u)
                 ∧ (∃ u, u ∈ uris ∧ p ∉ Analyzer.property_names (Analyzer.graph st) u))
    ∧ (∀ label uris p u u',
         (label, uris) ∈ Analyzer.duplicates st → u ∈ uris → u' ∈ uris →
         p ∈ Analyzer.property_names (Analyzer.graph st) u →
         p ∉ Analyzer.property_names (Analyzer.graph st) u' →
         dict_mem conflicts label = true).
Proof.
  unfold Analyzer.find_conflicting_properties.
  rewrite find_conflicting_properties_fold. eexists. split; [reflexivity|]. split.
  - apply (fold_left_invariant
      (λ conflicts : dict string (list string),
         ∀ label props, dict_get conflicts label = Some props →
           props ≠ []
           ∧ ∃ uris, (label, uris) ∈ Analyzer.duplicates st ∧ 1 < length uris
               ∧ ∀ p, p ∈ props ↔
                   (∃ u, u ∈ uris ∧ p ∈ Analyzer.property_names (Analyzer.graph st) u)
                   ∧ (∃ u, u ∈ uris ∧ p ∉ Analyzer.property_names (Analyzer.graph st) u))).
    + by intros label props.
    + intros conflicts [label uris] IH Hin label' props.
      destruct (1 <? length uris) eqn:Hlen; [|apply IH].
      apply Nat.ltb_lt in Hlen.
      destruct (conflicting_of (Analyzer.graph st) uris) as [|p0 ps] eqn:Hc; [apply IH|].
      rewrite dict_get_set. destruct (decide (label = label')) as [<-|Hne]; [|apply IH].
      intros [= <-]. split.
      * intros Hnil.
        pose proof (list_of_set_perm (p0 :: ps)) as Hperm. rewrite Hnil in Hperm.
        by apply Permutation_nil_cons in Hperm.
      * exists uris. split_and!; [done..|]. intros p.
        rewrite (list_of_set_perm (p0 :: ps)), <- Hc.
        apply elem_of_conflicting_of. intros ->. simpl in Hlen. lia.
  - intros label uris p u u' Hin Hu Hu' Hp Hp'. apply conflict_keys_fold. right.
    exists uris.
    assert (u ≠ u') as Hne by (by intros ->).
    assert (1 < length uris) as Hlen.
    { destruct uris as [|a [|b uris] ]; simpl; [by apply elem_of_nil in Hu| |lia].
      apply list_elem_of_singleton in Hu, Hu'. congruence. }
    split_and!; [done..|].
    assert (p ∈ conflicting_of (Analyzer.graph st) uris) as Hpc.
    { apply elem_of_conflicting_of; [by intros ->; apply elem_of_nil in Hu|].
      split; [by exists u|by exists u']. }
    intros Hnil. rewrite Hnil in Hpc. by apply elem_of_nil in Hpc.
Qed.

End Conflicts.

(** The graph "drowsiness": a class and an individual share a label, and
    only the individual is observed in something. *)
Lemma conflicting_properties_differ_between_duplicates_witness :
  let list_of_set := λ l : list string, l in
  let st := Analyzer.init Example.drowsiness in
  (∀ l, list_of_set l ≡ₚ l)
  ∧ Analyzer.find_conflicting_properties list_of_set st
    = Some [ ("Drowsiness", ["http://www.example.org/test#observedIn"]) ]
  ∧ ∃ conflicts,
      Analyzer.find_conflicting_properties list_of_set st = Some conflicts
      ∧ (∀ label props, dict_get conflicts label = Some props →
           props ≠ []
           ∧ ∃ uris, (label, uris) ∈ Analyzer.duplicates st ∧ 1 < length uris
               ∧ ∀ p, p ∈ props ↔
                   (∃ u, u ∈ uris ∧ p ∈ Analyzer.property_names (Analyzer.graph st) u)
                   ∧ (∃ u, u ∈ uris ∧ p ∉ Analyzer.property_names (Analyzer.graph st) u))
      ∧ (∀ label uris p u u',
           (label, uris) ∈ Analyzer.duplicates st → u ∈ uris → u' ∈ uris →
           p ∈ Analyzer.property_names (Analyzer.graph st) u →
           p ∉ Analyzer.property_names (Analyzer.graph st) u' →
           dict_mem conflicts label = true).
Proof.
  intros list_of_set st.
  assert (∀ l, list_of_set l ≡ₚ l) as Hperm by done.
  split; [exact Hperm|]. split; [reflexivity|].
  exact (conflicting_properties_differ_between_duplicates list_of_set Hperm st).
Defined.
